(** * LBR Tool: a shallow embedding of lbr.cpp

    Bytes are integers in [0, 256); a [std::string], a file and a
    [char] array are lists of bytes.  The two process-wide flags of the
    program ([verbose], [convert_petscii]) and the properties of the
    platform the C++ standard leaves open (signedness of [char], the
    content of storage that was never written) are collected in [Env]
    and threaded through every function. *)

From Stdlib Require Import ZArith List Bool Lia.
From Stdlib Require Import Sorting.Permutation Sorting.Sorted.
From Stdlib Require Strings.String Strings.Ascii.
Import ListNotations.
Import String.StringSyntax.
Open Scope Z_scope.
Delimit Scope string_scope with string.

(** The bytes of a string literal of the source. *)
Definition bytes_of (s : String.string) : list Z :=
  map (fun a => Z.of_N (Ascii.N_of_ascii a)) (String.list_ascii_of_string s).
Arguments bytes_of s%_string.

(** ** Platform and global flags *)

Record Env := mkEnv {
  verbose : bool;            (* static bool verbose *)
  convert_petscii : bool;    (* static bool convert_petscii *)
  char_signed : bool;        (* is plain char a signed type? *)
  indet_flag : nat -> bool;  (* value read from the never-assigned
                                bad_length of the i-th FileEntry *)
  indet_byte : Z             (* value read from a never-written char *)
}.

Definition MAX_SANE_LENGTH : Z := 1024 * 1024.

Definition CR : Z := 0x0D.
Definition SP : Z := 0x20.
Definition NUL : Z := 0.

(** The value of a [char] holding byte [b] once promoted to [int]. *)
Definition char_val (env : Env) (b : Z) : Z :=
  if char_signed env && (128 <=? b) then b - 256 else b.

(** An [int] converted back to a [char], as the byte it is stored as. *)
Definition char_store (v : Z) : Z := v mod 256.

(** ** Text codec *)

Definition petscii2ascii_char (env : Env) (b : Z) : Z :=
  let c := char_val env b in
  if c <? 0x20 then 0x3F
  else if (0x61 <=? c) && (c <=? 0x7A) then char_store (c - 0x20)
  else if (0xC1 <=? c) && (c <=? 0xCA) then char_store (c - 0x80)
  else if (c =? 0x5B) || (c =? 0x5D) then b
  else if 0x5A <? c then 0x3F
  else b.

Definition petscii2ascii (env : Env) (petscii : list Z) : list Z :=
  if negb (convert_petscii env) then petscii
  else map (petscii2ascii_char env) petscii.

Definition ascii2petscii_char (env : Env) (b : Z) : Z :=
  let c := char_val env b in
  if c <? 0x20 then 0x3F
  else if c =? 0x5C then 0x2F
  else if c =? 0x5F then 0x20
  else if c =? 0x60 then 0x27
  else if (0x61 <=? c) && (c <=? 0x7A) then char_store (c - 0x20)
  else if c =? 0x7B then 0x28
  else if c =? 0x7D then 0x29
  else if c =? 0x7C then 0x2F
  else if 0x7C <? c then 0x3F
  else b.

Definition ascii2petscii (env : Env) (ascii : list Z) : list Z :=
  if negb (convert_petscii env) then ascii
  else map (ascii2petscii_char env) ascii.

(** The characters the round trip leaves alone: 0x20..0x5B and 0x5D
    (space, digits, upper-case letters and the punctuation between). *)
Definition roundtrip_stable (b : Z) : bool :=
  ((0x20 <=? b) && (b <=? 0x5B)) || (b =? 0x5D).

(** The subset the specification names: letters, digits and the
    special-cased punctuation (backslash, underscore, backtick, braces,
    pipe). *)
Definition spec_stable (b : Z) : bool :=
  ((0x41 <=? b) && (b <=? 0x5A)) || ((0x61 <=? b) && (b <=? 0x7A))
  || ((0x30 <=? b) && (b <=? 0x39))
  || (b =? 0x5C) || (b =? 0x5F) || (b =? 0x60)
  || (b =? 0x7B) || (b =? 0x7D) || (b =? 0x7C).

(** An environment with conversion enabled, as the program starts. *)
Definition env0 : Env := mkEnv false true true (fun _ => false) 0.

(** ** C strings and numbers *)

(** A [char] array read as a C string: the bytes before the first NUL. *)
Fixpoint c_str (l : list Z) : list Z :=
  match l with
  | [] => []
  | c :: r => if c =? NUL then [] else c :: c_str r
  end.

Fixpoint list_eqb (a b : list Z) : bool :=
  match a, b with
  | [], [] => true
  | x :: a', y :: b' => (x =? y) && list_eqb a' b'
  | _, _ => false
  end.

Definition isspace (c : Z) : bool := (c =? 0x20) || ((0x09 <=? c) && (c <=? 0x0D)).
Definition isdigit (c : Z) : bool := (0x30 <=? c) && (c <=? 0x39).

Fixpoint skip_space (l : list Z) : list Z :=
  match l with
  | c :: r => if isspace c then skip_space r else l
  | [] => []
  end.

Fixpoint digits_val (l : list Z) (acc : Z) : Z :=
  match l with
  | c :: r => if isdigit c then digits_val r (10 * acc + (c - 0x30)) else acc
  | [] => acc
  end.

Definition LONG_MAX : Z := 2 ^ 63 - 1.
Definition LONG_MIN : Z := - 2 ^ 63.
Definition INT_MAX : Z := 2 ^ 31 - 1.

(** [strtol(s, NULL, 10)] on an LP64 platform: white space, an optional
    sign, decimal digits; out-of-range values are clamped. *)
Definition strtol (l : list Z) : Z :=
  let l := skip_space l in
  let v := match l with
           | c :: r => if c =? 0x2D then - digits_val r 0
                       else if c =? 0x2B then digits_val r 0
                       else digits_val l 0
           | [] => 0
           end in
  Z.max LONG_MIN (Z.min LONG_MAX v).

(** Conversion to [int] and to [unsigned int] (32 bits, two's complement). *)
Definition to_int (v : Z) : Z := (v + 2 ^ 31) mod 2 ^ 32 - 2 ^ 31.
Definition to_unsigned (v : Z) : Z := v mod 2 ^ 32.

(** [atoi] as the C library has it: [(int) strtol(s, NULL, 10)]. *)
Definition atoi (l : list Z) : Z := to_int (strtol l).

Fixpoint dec_digits (fuel : nat) (n : Z) (acc : list Z) : list Z :=
  match fuel with
  | O => acc
  | S f => let acc' := (0x30 + n mod 10) :: acc in
           if n <? 10 then acc' else dec_digits f (n / 10) acc'
  end.

(** [std::to_string] and [operator<<] on an integer: decimal, with a
    minus sign when negative.  A number has no more decimal digits than
    binary ones, which bounds the recursion. *)
Definition to_string (n : Z) : list Z :=
  if n <? 0 then 0x2D :: dec_digits (S (Z.to_nat (Z.log2 (- n)))) (- n) []
  else dec_digits (S (Z.to_nat (Z.log2 n))) n [].

(** ** Input streams

    A [std::ifstream] over a file: the file's bytes, the get position
    and the two state bits the program can reach (no read error is
    modelled, so [badbit] never is set).  Every operation starts with
    the sentry of an unformatted input function: on a stream that is not
    [good()] it sets [failbit] and does nothing else. *)

Record istream := mkIS {
  buf : list Z;
  pos : nat;
  eofbit : bool;
  failbit : bool
}.

Definition open (data : list Z) : istream := mkIS data 0 false false.
Definition good (s : istream) : bool := negb (eofbit s) && negb (failbit s).
Definition set_fail (s : istream) : istream := mkIS (buf s) (pos s) (eofbit s) true.
Definition rest (s : istream) : list Z := skipn (pos s) (buf s).

(** [in.get(c)]: [None] leaves [c] as it was. *)
Definition is_get (s : istream) : option Z * istream :=
  if good s then
    match rest s with
    | b :: _ => (Some b, mkIS (buf s) (S (pos s)) false false)
    | [] => (None, mkIS (buf s) (pos s) true true)
    end
  else (None, set_fail s).

(** [in.get()] handed to [fputc]: end of file is [EOF], written as 0xFF. *)
Definition is_get_int (s : istream) : Z * istream :=
  match is_get s with
  | (Some b, s') => (b, s')
  | (None, s') => (0xFF, s')
  end.

(** The characters [in.get(buf, n, delim)] stores, and whether it met the
    end of the file. *)
Fixpoint take_field (n : nat) (delim : Z) (l : list Z) : list Z * bool :=
  match n with
  | O => ([], false)
  | S n' =>
    match l with
    | [] => ([], true)
    | c :: r =>
      if c =? delim then ([], false)
      else let (f, e) := take_field n' delim r in (c :: f, e)
    end
  end.

(** [in.get(buf, n, delim)]: the array always ends up NUL-terminated, so
    on failure it holds the empty string. *)
Definition is_get_str (s : istream) (n : nat) (delim : Z) : list Z * istream :=
  if good s then
    let (f, e) := take_field (n - 1) delim (rest s) in
    (f, mkIS (buf s) (pos s + length f) e
             (match f with [] => true | _ => false end))
  else ([], set_fail s).

(** [in.ignore(n)] *)
Definition is_ignore (s : istream) (n : Z) : istream :=
  if good s then
    let avail := length (rest s) in
    if n <=? Z.of_nat avail then mkIS (buf s) (pos s + Z.to_nat n) false false
    else mkIS (buf s) (pos s + avail) true false
  else set_fail s.

(** [in.read(buffer, n)]: the characters stored. *)
Definition is_read (s : istream) (n : Z) : list Z * istream :=
  if good s then
    let r := rest s in
    if n <=? Z.of_nat (length r)
    then (firstn (Z.to_nat n) r, mkIS (buf s) (pos s + Z.to_nat n) false false)
    else (r, mkIS (buf s) (pos s + length r) true true)
  else ([], set_fail s).

(** [in.tellg()] *)
Definition is_tellg (s : istream) : Z * istream :=
  if good s then (Z.of_nat (pos s), s) else (-1, set_fail s).

(** [in.seekg(off, in.beg)] and [in.seekg(pos)]: clears [eofbit] first. *)
Definition is_seekg (s : istream) (off : Z) : istream :=
  if failbit s then mkIS (buf s) (pos s) false true
  else if off <? 0 then mkIS (buf s) (pos s) false true
  else mkIS (buf s) (Z.to_nat off) false false.

(** [in.seekg(0, in.end)] *)
Definition is_seekg_end (s : istream) : istream :=
  if failbit s then mkIS (buf s) (pos s) false true
  else mkIS (buf s) (length (buf s)) false false.

(** A buffer of [n] chars after a read that stored [l]: what was not
    written keeps its indeterminate content. *)
Definition filled (env : Env) (n : Z) (l : list Z) : list Z :=
  l ++ repeat (indet_byte env) (Z.to_nat n - length l).

(** ** Reading the header and a directory record *)

Definition sig_ok (signature : list Z) : bool :=
  match signature with
  | [a; b; c] => (a =? 0x44) && (b =? 0x57) && (c =? 0x42)
  | _ => false
  end.

(** [in.read(signature, 3)] *)
Definition read_signature (env : Env) (s : istream) : list Z * istream :=
  let (sg, s) := is_read s 3 in (filled env 3 sg, s).

(** ignore(1); get(count, 256, ' '); ignore(1); ignore(1) *)
Definition read_count (s : istream) : list Z * istream :=
  let s := is_ignore s 1 in
  let (count, s) := is_get_str s 256 SP in
  let s := is_ignore s 1 in
  let s := is_ignore s 1 in
  (count, s).

(** The eight reads of a loop body over the directory: the three char
    arrays [name], [type] and [length]. *)
Definition read_dirent (s : istream) : (list Z * list Z * list Z) * istream :=
  let (name, s) := is_get_str s 256 CR in
  let s := is_ignore s 1 in
  let (type, s) := is_get_str s 256 CR in
  let s := is_ignore s 1 in
  let s := is_ignore s 1 in
  let (len, s) := is_get_str s 256 SP in
  let s := is_ignore s 1 in
  let s := is_ignore s 1 in
  ((name, type, len), s).

(** ** find_in_lbr *)

Definition bad_len (l : Z) : bool := (l <? 0) || (MAX_SANE_LENGTH <? l).

(** The directory loop of [find_in_lbr] over the stream and the locals
    [coff] and [found]; [length] and [diroffset] are the reference
    parameters.  [inl] is the [return -1] inside the loop, with what the
    reference parameters hold by then. *)
Fixpoint find_loop (env : Env) (n : nat) (target : list Z) (skip_deleted : bool)
    (s : istream) (coff : Z) (found : bool) (length diroffset : Z)
    : (Z * Z) + (istream * Z * bool * Z * Z) :=
  match n with
  | O => inr (s, coff, found, length, diroffset)
  | S n' =>
    let (doff, s) := is_tellg s in
    let '((name, type, len), s) := read_dirent s in
    let l := atoi len in
    let take := negb found
                && list_eqb (petscii2ascii env (c_str name)) target
                && (negb (hd NUL type =? 0x44) || negb skip_deleted) in
    let length := if take then l else length in
    let diroffset := if take then doff else diroffset in
    let found := found || take in
    let coff := if negb found then coff + l else coff in
    if bad_len l then inl (length, diroffset)
    else find_loop env n' target skip_deleted s coff found length diroffset
  end.

(** Returns the status and the values left in [length], [offset] and
    [diroffset], which the caller passes in. *)
Definition find_in_lbr (env : Env) (data : list Z) (target : list Z)
    (length offset diroffset : Z) (skip_deleted : bool) : Z * (Z * Z * Z) :=
  let s := open data in
  let (signature, s) := read_signature env s in
  if negb (sig_ok signature) then (-1, (length, offset, diroffset))
  else
    let (count, s) := read_count s in
    let file_count := atoi count in
    match find_loop env (Z.to_nat file_count) target skip_deleted s 0 false
                    length diroffset with
    | inl (length, diroffset) => (-1, (length, offset, diroffset))
    | inr (s, coff, found, length, diroffset) =>
      if found then
        let (p, s) := is_tellg s in
        (0, (length, p + coff, diroffset))
      else (-1, (length, offset, diroffset))
    end.

(** ** The archive format, for stating the theorems

    A directory entry as the grammar has it (a name, a one-byte type, a
    declared length) and the bytes of an archive with a given directory
    and payload region. *)

Record DirEnt := mkDirEnt {
  d_name : list Z;
  d_type : Z;
  d_len : Z
}.

Definition dir_record (e : DirEnt) : list Z :=
  d_name e ++ [CR] ++ [d_type e] ++ [CR; SP] ++ to_string (d_len e) ++ [SP; CR].

(** The length field of a record with its delimiters. *)
Definition size_field (e : DirEnt) : list Z :=
  [SP] ++ to_string (d_len e) ++ [SP; CR].

Definition directory (es : list DirEnt) : list Z := flat_map dir_record es.

Definition header (count : Z) : list Z :=
  [0x44; 0x57; 0x42; SP] ++ to_string count ++ [SP; CR].

Definition archive (es : list DirEnt) (payload : list Z) : list Z :=
  header (Z.of_nat (length es)) ++ directory es ++ payload.

Definition no_byte (b : Z) (l : list Z) : bool := forallb (fun c => negb (c =? b)) l.

(** A directory entry the program reads back as written: a name of 1 to
    255 bytes without CR or NUL, a type byte that is neither, a length
    within the sane bound. *)
Definition wf_dirent (e : DirEnt) : bool :=
  (1 <=? Z.of_nat (length (d_name e))) && (Z.of_nat (length (d_name e)) <=? 255)
  && no_byte CR (d_name e) && no_byte NUL (d_name e)
  && negb (d_type e =? CR) && negb (d_type e =? NUL)
  && (0 <=? d_len e) && (d_len e <=? MAX_SANE_LENGTH).

(** What the readers need of a record to read its three fields back. *)
Definition readable_dirent (e : DirEnt) : bool :=
  (1 <=? Z.of_nat (length (d_name e))) && (Z.of_nat (length (d_name e)) <=? 255)
  && no_byte CR (d_name e) && negb (d_type e =? CR)
  && (0 <=? d_len e) && (d_len e <=? LONG_MAX).

Definition wf_directory (es : list DirEnt) : bool :=
  (Z.of_nat (length es) <=? INT_MAX) && forallb wf_dirent es.

(** Does the locator accept this entry for [target]? *)
Definition is_match (env : Env) (target : list Z) (skip_deleted : bool)
    (e : DirEnt) : bool :=
  list_eqb (petscii2ascii env (d_name e)) target
  && (negb (d_type e =? 0x44) || negb skip_deleted).

(** Index of the first entry the locator accepts. *)
Fixpoint first_match (env : Env) (target : list Z) (skip_deleted : bool)
    (es : list DirEnt) : option nat :=
  match es with
  | [] => None
  | e :: r => if is_match env target skip_deleted e then Some O
              else option_map S (first_match env target skip_deleted r)
  end.

Definition sum_len (es : list DirEnt) : Z := fold_right (fun e a => d_len e + a) 0 es.

Definition dirent0 : DirEnt := mkDirEnt [] 0 0.

(** A good stream that has consumed [pre] and has [post] ahead. *)
Definition St (pre post : list Z) : istream :=
  mkIS (pre ++ post) (length pre) false false.

(** ** Copy loops of the mutators

    [while (in.get(c) && cond) body] over the bytes ahead: the value [c]
    ends with, the characters the body ran for, how many characters
    were extracted, and whether the loop ended at the end of the file.
    [cond] sees the character and the get position after it. *)
Fixpoint get_while (cond : Z -> Z -> bool) (r : list Z) (p : Z) (c : Z)
    : Z * list Z * nat * bool :=
  match r with
  | [] => (c, [], O, true)
  | b :: r' =>
    if cond b (p + 1)
    then let '(c', o, k, e) := get_while cond r' (p + 1) b in (c', b :: o, S k, e)
    else (b, [], 1%nat, false)
  end.

Definition is_get_while (cond : Z -> Z -> bool) (s : istream) (c : Z)
    : Z * list Z * istream :=
  if good s then
    let '(c', o, k, e) := get_while cond (rest s) (Z.of_nat (pos s)) c in
    (c', o, mkIS (buf s) (pos s + k) e e)
  else (c, [], set_fail s).

(** [in.tellg() < d], [in.tellg() <= d], [c != 0x0D], and no condition *)
Definition before (d : Z) : Z -> Z -> bool := fun _ p => p <? d.
Definition upto (d : Z) : Z -> Z -> bool := fun _ p => p <=? d.
Definition not_cr : Z -> Z -> bool := fun c _ => negb (c =? CR).
Definition always : Z -> Z -> bool := fun _ _ => true.

(** ** delete_lbr

    The archive file is the only file touched: the function takes its
    content and returns the status and the content it is left with.
    [tmpf] is the temporary file, copied over the archive at the end. *)

Definition delete_lbr (env : Env) (data : list Z) (target : list Z)
    (skip_deleted wipe : bool) : Z * list Z :=
  let '(res, (length, offset, dir_offset)) :=
    find_in_lbr env data target 0 0 0 skip_deleted in
  if negb (res =? 0) then (res, data)
  else
    let s := open data in
    let (signature, s) := read_signature env s in
    let tmpf := c_str signature in
    let '(tmpf, s) :=
      if wipe then
        let (sp1, s) := is_get_int s in
        let (count, s) := is_get_str s 256 SP in
        let file_count := atoi count in
        let (sp2, s) := is_get_int s in
        let (cr, s) := is_get_int s in
        (tmpf ++ [sp1] ++ to_string (file_count - 1) ++ [sp2; cr], s)
      else (tmpf, s) in
    let c := indet_byte env in
    let '(c, o, s) := is_get_while (before dir_offset) s c in
    let tmpf := tmpf ++ o ++ [c] in
    let '(tmpf, c, s) :=
      if wipe then
        let '(c, _, s) := is_get_while not_cr s c in (* name *)
        let '(c, _, s) := is_get_while not_cr s c in (* type *)
        let '(c, _, s) := is_get_while not_cr s c in (* size *)
        (tmpf, c, s)
      else
        let '(c, o, s) := is_get_while not_cr s c in
        let tmpf := tmpf ++ o ++ [CR; 0x44; CR] ++ [SP; 0x30; SP] ++ [CR] in
        let '(c, _, s) := is_get_while not_cr s c in (* type *)
        let '(c, _, s) := is_get_while not_cr s c in (* size *)
        (tmpf, c, s) in
    let '(c, o, s) := is_get_while (upto offset) s c in
    let tmpf := tmpf ++ o in
    let s := is_seekg s (offset + length) in
    let '(c, o, s) := is_get_while always s c in
    let tmpf := tmpf ++ o in
    (0, tmpf).

(** ** chtype_lbr *)

Definition chtype_lbr (env : Env) (data : list Z) (target new_type : list Z)
    (skip_deleted : bool) : Z * list Z :=
  let '(res, (length, offset, dir_offset)) :=
    find_in_lbr env data target 0 0 0 skip_deleted in
  if negb (res =? 0) then (res, data)
  else
    let s := open data in
    let (signature, s) := read_signature env s in
    let tmpf := c_str signature in
    let c := indet_byte env in
    let '(c, o, s) := is_get_while (before dir_offset) s c in
    let tmpf := tmpf ++ o ++ [c] in
    let '(c, o, s) := is_get_while not_cr s c in (* name *)
    let tmpf := tmpf ++ o ++ [CR] ++ c_str (ascii2petscii env new_type) ++ [CR] in
    let '(c, _, s) := is_get_while not_cr s c in (* type *)
    let '(c, o, s) := is_get_while always s c in
    let tmpf := tmpf ++ o in
    (0, tmpf).

(** ** Archives with their payload, for stating the theorems *)

Record Member := mkMember {
  m_name : list Z;
  m_type : Z;
  m_data : list Z
}.

Definition dirent_of (m : Member) : DirEnt :=
  mkDirEnt (m_name m) (m_type m) (Z.of_nat (length (m_data m))).

Definition payload_of (ms : list Member) : list Z := flat_map m_data ms.

Definition lbr_bytes (ms : list Member) : list Z :=
  archive (map dirent_of ms) (payload_of ms).

Definition wf_members (ms : list Member) : bool :=
  wf_directory (map dirent_of ms).

(** The entry [delete] leaves in the place of a member. *)
Definition tombstone (m : Member) : Member := mkMember (m_name m) 0x44 [].

Definition member0 : Member := mkMember [] 0 [].

(** The count field of an archive, as every reader takes it. *)
Definition declared_count (env : Env) (data : list Z) : Z :=
  let (_, s) := read_signature env (open data) in
  atoi (fst (read_count s)).

(** ** Sample archives *)

Definition ex_A : Member := mkMember [0x41] 0x53 [0x78].
Definition ex_BB : Member :=
  mkMember [0x42; 0x42] 0x50 [0x30; 0x31; 0x32; 0x33; 0x34; 0x35; 0x36; 0x37; 0x38; 0x39; 0x61; 0x62].
Definition ex_C : Member := mkMember [0x43] 0x53 [0x7A; 0x7A].

(** Ten one-byte members named [A] to [J]. *)
Definition ex_ten : list Member :=
  map (fun c => mkMember [c] 0x53 [c + 0x20])
      [0x41; 0x42; 0x43; 0x44; 0x45; 0x46; 0x47; 0x48; 0x49; 0x4A].

(** ** Files and paths

    The file system maps a path to the content of the regular file
    there.  Opening a file for writing always succeeds and leaves it
    with what is then written. *)

Definition FS := list Z -> option (list Z).

Definition fs_write (fs : FS) (p : list Z) (data : list Z) : FS :=
  fun q => if list_eqb q p then Some data else fs q.

(** What a function does besides returning: an exception that nothing
    catches, or behaviour the language leaves undefined, ends the run. *)
Inductive outcome (A : Type) : Type :=
| Returned (a : A)
| Aborted.
Arguments Returned {A} a.
Arguments Aborted {A}.

Definition SLASH : Z := 0x2F.
Definition DOT : Z := 0x2E.

(** The part of [l] after its last [b], and that without. *)
Fixpoint after_last (b : Z) (l : list Z) : list Z :=
  match l with
  | [] => []
  | c :: r => if existsb (Z.eqb b) r then after_last b r
              else if c =? b then r else c :: r
  end.

(** [std::filesystem::path::filename] *)
Definition filename (p : list Z) : list Z := after_last SLASH p.

(** [s.find_last_of(".")]: the index of the last period *)
Fixpoint find_last_of (b : Z) (l : list Z) : option nat :=
  match l with
  | [] => None
  | c :: r => match find_last_of b r with
              | Some i => Some (S i)
              | None => if c =? b then Some O else None
              end
  end.

(** [std::filesystem::path::extension]: from the last period of the
    file name on, unless the name is [.] or [..] or that period is its
    first character. *)
Definition extension (p : list Z) : list Z :=
  let f := filename p in
  if list_eqb f [DOT] || list_eqb f [DOT; DOT] then []
  else match find_last_of DOT f with
       | Some (S i) => skipn (S i) f
       | _ => []
       end.

Definition tolower (c : Z) : Z :=
  if (0x41 <=? c) && (c <=? 0x5A) then c + 0x20 else c.

(** [dest /= name] on a POSIX system *)
Definition path_append (dest name : list Z) : list Z :=
  match name with
  | c :: _ => if c =? SLASH then name
              else match dest with
                   | [] => name
                   | _ => if last dest 0 =? SLASH then dest ++ name
                          else dest ++ [SLASH] ++ name
                   end
  | [] => match dest with
          | [] => []
          | _ => if last dest 0 =? SLASH then dest else dest ++ [SLASH]
          end
  end.

(** ** FileEntry *)

Record FileEntry := mkFileEntry {
  fe_name : list Z;
  fe_path : list Z;
  fe_length : Z;           (* unsigned int *)
  fe_type : list Z;
  bad_length : bool
}.

(** [i.name.compare(j.name) < 0]: bytes compare as [unsigned char] *)
Fixpoint str_lt (a b : list Z) : bool :=
  match a, b with
  | [], [] => false
  | [], _ :: _ => true
  | _ :: _, [] => false
  | x :: a', y :: b' => if x <? y then true else if y <? x then false else str_lt a' b'
  end.

Definition num_cmp (i j : FileEntry) : bool :=
  if (length (fe_name i) <? length (fe_name j))%nat then true
  else if (length (fe_name j) <? length (fe_name i))%nat then false
  else str_lt (fe_name i) (fe_name j).

(** [std::sort(files.begin(), files.end(), num_cmp)].  The standard
    fixes the result up to the order of entries that compare
    equivalent, which here are the entries of equal name; this is the
    result that keeps those in their order. *)
Fixpoint sort_insert (f : FileEntry) (l : list FileEntry) : list FileEntry :=
  match l with
  | [] => [f]
  | g :: r => if num_cmp f g then f :: l else g :: sort_insert f r
  end.

Definition std_sort (l : list FileEntry) : list FileEntry :=
  fold_left (fun acc f => sort_insert f acc) l [].

(** ** build_lbr *)

(** The first loop: name and length of every input, from the file
    system.  [file_size] throws when there is no such file.  [type] and
    [bad_length] are not assigned, and not read by [build_lbr]. *)
Fixpoint stat_inputs (env : Env) (fs : FS) (input : list (list Z))
    : outcome (list FileEntry) :=
  match input with
  | [] => Returned []
  | i :: r =>
    match fs i with
    | None => Aborted
    | Some d =>
      match stat_inputs env fs r with
      | Aborted => Aborted
      | Returned files =>
        Returned (mkFileEntry (filename i) i (to_unsigned (Z.of_nat (length d)))
                              [] (indet_flag env O) :: files)
      end
    end
  end.

(** The entry the padding inserts for the number [i]. *)
Definition filler (env : Env) (i : Z) : FileEntry :=
  mkFileEntry (to_string i) [] 0 [] (indet_flag env O).

Definition insert_at (n : nat) (f : FileEntry) (files : list FileEntry)
    : list FileEntry :=
  firstn n files ++ f :: skipn n files.

(** [while (i < cur) { files.insert(files.begin()+(i-first), f); ++i; }]
    runs [cur - i] times when that is positive. *)
Fixpoint pad_while (env : Env) (k : nat) (first i : Z) (files : list FileEntry)
    : list FileEntry :=
  match k with
  | O => files
  | S k' => pad_while env k' first (i + 1)
              (insert_at (Z.to_nat (i - first)) (filler env i) files)
  end.

(** [for (int i = first; i < last; i++)]: every round moves [i] up, so
    [last - first] rounds are enough; [fuel] counts them.  Reading
    [files[i-first]] past the end and [i++] at [INT_MAX] are undefined. *)
Fixpoint pad_loop (env : Env) (fuel : nat) (first last i : Z)
    (files : list FileEntry) : outcome (list FileEntry) :=
  if i <? last then
    match fuel with
    | O => Aborted
    | S fuel' =>
      match nth_error files (Z.to_nat (i - first)) with
      | None => Aborted
      | Some f =>
        let cur := atoi (fe_name f) in
        let files := pad_while env (Z.to_nat (cur - i)) first i files in
        let i := Z.max i cur in
        if i =? INT_MAX then Aborted
        else pad_loop env fuel' first last (i + 1) files
      end
    end
  else Returned files.

Inductive pad_result : Type :=
| PadFail                              (* "Error. unable to pad."; return 1 *)
| PadOk (files : list FileEntry).

Definition pad_sorted (env : Env) (files : list FileEntry) : outcome pad_result :=
  match files with
  | [] => Aborted                      (* files.front() of an empty vector *)
  | f0 :: _ =>
    let first := atoi (fe_name f0) in
    let last_ := atoi (fe_name (last files f0)) in
    if last_ <=? first then Returned PadFail
    else match pad_loop env (Z.to_nat (last_ - first)) first last_ first files with
         | Aborted => Aborted
         | Returned files => Returned (PadOk files)
         end
  end.

Definition ext_prg : list Z := bytes_of ".prg".
Definition ext_usr : list Z := bytes_of ".usr".
Definition ext_rel : list Z := bytes_of ".rel".

(** The type byte written for an entry. *)
Definition type_of (name : list Z) (length : Z) : Z :=
  let ext := map tolower (extension name) in
  if length =? 0 then 0x44
  else if list_eqb ext ext_prg then 0x50
  else if list_eqb ext ext_usr then 0x55
  else if list_eqb ext ext_rel then 0x52
  else 0x53.

(** The name written for an entry. *)
Definition written_name (env : Env) (strip_extension : bool) (name : list Z)
    : list Z :=
  if strip_extension then
    match find_last_of DOT name with
    | None => ascii2petscii env name
    | Some dot => ascii2petscii env (firstn dot name)
    end
  else ascii2petscii env name.

(** One round of the loop that writes the directory. *)
Definition write_entry (env : Env) (strip_extension : bool) (a : FileEntry)
    : list Z :=
  written_name env strip_extension (fe_name a) ++ [CR]
  ++ [type_of (fe_name a) (fe_length a)] ++ [CR]
  ++ [SP] ++ to_string (fe_length a) ++ [SP] ++ [CR].

(** One round of the loop that writes the payload: the buffer after
    [infile.read(buffer, f.length)].  A file that cannot be opened
    leaves the buffer as allocated. *)
Definition write_payload (env : Env) (fs : FS) (f : FileEntry) : list Z :=
  if fe_length f =? 0 then []
  else match fs (fe_path f) with
       | Some d => filled env (fe_length f) (fst (is_read (open d) (fe_length f)))
       | None => filled env (fe_length f) []
       end.

(** Opening [outfile] empties it; what is written to it is taken not to
    reach the file before it is closed, so an input that is the output
    file reads as empty. *)
Definition build_lbr (env : Env) (fs : FS) (outfile : list Z)
    (input : list (list Z))
    (numerical_sort numerical_padding strip_extension : bool)
    : outcome (Z * FS) :=
  match stat_inputs env fs input with
  | Aborted => Aborted
  | Returned files =>
    let padded :=
      if numerical_sort then
        let files := std_sort files in
        if numerical_padding then pad_sorted env files
        else Returned (PadOk files)
      else Returned (PadOk files) in
    match padded with
    | Aborted => Aborted
    | Returned PadFail => Returned (1, fs)
    | Returned (PadOk files) =>
      let fs1 := fs_write fs outfile [] in
      let out := [0x44; 0x57; 0x42] ++ [SP]
                 ++ to_string (Z.of_nat (length files)) ++ [SP] ++ [CR] in
      let out := out ++ flat_map (write_entry env strip_extension) files in
      let out := out ++ flat_map (write_payload env fs1) files in
      Returned (0, fs_write fs outfile out)
    end
  end.

(** ** list_lbr *)

(** The loop that reads the directory into [files]; [path] and
    [bad_length] are not assigned, and not read by [list_lbr]. *)
Fixpoint list_read (n : nat) (s : istream) : list FileEntry * istream :=
  match n with
  | O => ([], s)
  | S n' =>
    let '((name, type, len), s) := read_dirent s in
    let f := mkFileEntry (c_str name) [] (to_unsigned (atoi len)) (c_str type)
                         false in
    let (files, s) := list_read n' s in
    (f :: files, s)
  end.

Definition str_lparen : list Z := bytes_of " (".
Definition str_rparen : list Z := bytes_of ") ".
Definition str_bad : list Z := bytes_of " (bad)".
Definition str_deleted : list Z := bytes_of "[deleted]".
Definition str_entries : list Z := bytes_of " entries".
Definition str_invalid : list Z :=
  bytes_of "Error: invalid signature, not an LBR file?".

(** The loop that prints: [cout] is the lines ended by [std::endl] so
    far.  [f.length] is unsigned, so [f.length < 0] never holds. *)
Fixpoint list_print (env : Env) (skip_deleted : bool) (files : list FileEntry)
    (cout : list (list Z)) : list (list Z) :=
  match files with
  | [] => cout
  | f :: r =>
    if list_eqb (fe_type f) [0x44] && skip_deleted then
      if verbose env then list_print env skip_deleted r (cout ++ [str_deleted])
      else list_print env skip_deleted r cout
    else
      let line := petscii2ascii env (fe_name f) ++ str_lparen
                  ++ petscii2ascii env (fe_type f) ++ str_rparen
                  ++ to_string (fe_length f) in
      let line := if false || (MAX_SANE_LENGTH <? fe_length f)
                  then (if verbose env then line ++ str_bad else line)
                  else line in
      list_print env skip_deleted r (cout ++ [line])
  end.

(** Returns the status and the lines printed. *)
Definition list_lbr (env : Env) (file : list Z) (data : list Z)
    (skip_deleted sort_numerical : bool) : Z * list (list Z) :=
  let s := open data in
  let (signature, s) := read_signature env s in
  if negb (sig_ok signature) then (-1, [str_invalid])
  else
    let (count, s) := read_count s in
    let file_count := atoi count in
    let basename := filename file in
    let cout := if verbose env
                then [basename ++ [SP] ++ to_string file_count ++ str_entries]
                else [] in
    let (files, s) := list_read (Z.to_nat file_count) s in
    let files := if sort_numerical then std_sort files else files in
    (0, list_print env skip_deleted files cout).

(** *** The listing, as the specification words it *)

(** The length the directory declares for [f]: the [int] that [atoi]
    returned, which [f.length] holds as an unsigned number. *)
Definition declared_length (f : FileEntry) : Z := to_int (fe_length f).

(** [name (type) length], flagged when verbose and the length is bad. *)
Definition render_entry (env : Env) (f : FileEntry) : list Z :=
  petscii2ascii env (fe_name f) ++ bytes_of " ("
  ++ petscii2ascii env (fe_type f) ++ bytes_of ") "
  ++ to_string (fe_length f)
  ++ (if verbose env && bad_len (declared_length f) then bytes_of " (bad)" else []).

Definition survives (skip_deleted : bool) (f : FileEntry) : bool :=
  negb (list_eqb (fe_type f) (bytes_of "D") && skip_deleted).

Definition render_listing (env : Env) (skip_deleted : bool)
    (files : list FileEntry) : list (list Z) :=
  flat_map (fun f => if survives skip_deleted f then [render_entry env f]
                     else if verbose env then [bytes_of "[deleted]"] else [])
           files.

(** The entries [list_lbr] reads from an archive, in the order it
    prints them. *)
Definition listed_entries (env : Env) (data : list Z) (sort_numerical : bool)
    : list FileEntry :=
  let (_, s) := read_signature env (open data) in
  let (count, s) := read_count s in
  let files := fst (list_read (Z.to_nat (atoi count)) s) in
  if sort_numerical then std_sort files else files.

(** The line [list_lbr] starts with when verbose. *)
Definition listing_head (env : Env) (file data : list Z) : list (list Z) :=
  let (_, s) := read_signature env (open data) in
  let (count, s) := read_count s in
  if verbose env
  then [filename file ++ bytes_of " " ++ to_string (atoi count) ++ bytes_of " entries"]
  else [].

Definition valid_signature (env : Env) (data : list Z) : bool :=
  sig_ok (fst (read_signature env (open data))).

Definition length_in_range (f : FileEntry) : Prop := 0 <= fe_length f < 2 ^ 32.

(** *** What the builder derives from a source file *)

Definition source_length (fs : FS) (i : list Z) : Z :=
  match fs i with
  | Some d => Z.of_nat (length d)
  | None => 0
  end.

Definition source_type (fs : FS) (i : list Z) : Z :=
  type_of (filename i) (source_length fs i).

(** A source file the builder can take: it exists, its size fits an
    [unsigned int], its name has 1 to 255 bytes and, when the codec is
    off, no CR and no NUL (the codec replaces both). *)
Definition source_ok (env : Env) (fs : FS) (i : list Z) : bool :=
  match fs i with
  | Some d => Z.of_nat (length d) <? 2 ^ 32
  | None => false
  end
  && (1 <=? Z.of_nat (length (filename i)))
  && (Z.of_nat (length (filename i)) <=? 255)
  && (convert_petscii env
      || (no_byte CR (filename i) && no_byte NUL (filename i))).

(** The entry the builder makes of a source file and the record it
    writes for it. *)
Definition source_entry (env : Env) (fs : FS) (i : list Z) : FileEntry :=
  mkFileEntry (filename i) i (source_length fs i) [] (indet_flag env O).

Definition source_dirent (env : Env) (fs : FS) (i : list Z) : DirEnt :=
  mkDirEnt (ascii2petscii env (filename i)) (source_type fs i) (source_length fs i).

(** The line the lister prints for the entry of a source file. *)
Definition source_line (env : Env) (fs : FS) (i : list Z) : list Z :=
  petscii2ascii env (ascii2petscii env (filename i)) ++ bytes_of " ("
  ++ [source_type fs i] ++ bytes_of ") "
  ++ to_string (source_length fs i)
  ++ (if verbose env && (MAX_SANE_LENGTH <? source_length fs i)
      then bytes_of " (bad)" else []).

(** The entry the lister makes of a directory record. *)
Definition listed_of (e : DirEnt) : FileEntry :=
  mkFileEntry (c_str (d_name e)) [] (to_unsigned (atoi (to_string (d_len e))))
              (c_str [d_type e]) false.

(** A small file system: [BB.PRG] is empty, [WW.TXT] has 8 bytes,
    [HELLO.DAT] has 12, and [dir/a.prg] has one. *)
Definition ex_fs : FS := fun p =>
  if list_eqb p (bytes_of "BB.PRG") then Some []
  else if list_eqb p (bytes_of "WW.TXT") then Some (bytes_of "wwwwwwww")
  else if list_eqb p (bytes_of "HELLO.DAT") then Some (bytes_of "hello, world") 
  else if list_eqb p (bytes_of "dir/a.prg") then Some (bytes_of "x")
  else None.

(** The entry the first loop of [build_lbr] makes of an input. *)
Definition stat_entry (env : Env) (fs : FS) (i : list Z) : FileEntry :=
  mkFileEntry (filename i) i (to_unsigned (source_length fs i)) []
              (indet_flag env O).

Definition exists_in (fs : FS) (i : list Z) : bool :=
  match fs i with Some _ => true | None => false end.

(** The entries of the inputs after [std::sort]. *)
Definition sorted_entries (env : Env) (fs : FS) (input : list (list Z))
    : list FileEntry :=
  std_sort (map (stat_entry env fs) input).

(** The integer value the padding takes for a name. *)
Definition name_value (f : FileEntry) : Z := atoi (fe_name f).

Definition entry0 : FileEntry := mkFileEntry [] [] 0 [] false.

(** [i; i+1; ...] of length [k] *)
Fixpoint zseq (i : Z) (k : nat) : list Z :=
  match k with
  | O => []
  | S k' => i :: zseq (i + 1) k'
  end.

(** A file system with the files [0] and [5]. *)
Definition ex_fs_pad : FS := fun p =>
  if list_eqb p (bytes_of "0") then Some (bytes_of "a")
  else if list_eqb p (bytes_of "5") then Some (bytes_of "b")
  else None.

(** ** extract_lbr

    The archive is read from its content [data]; the files written go
    to the file system, which is taken not to hold the archive among
    them. *)

(** The loop that reads the directory: [bad_length] is assigned for a
    bad length only, and otherwise keeps what the storage held. *)
Fixpoint extract_read (env : Env) (n : nat) (i : nat) (s : istream)
    : list FileEntry * istream :=
  match n with
  | O => ([], s)
  | S n' =>
    let '((name, type, length), s) := read_dirent s in
    let len := atoi length in
    let f := mkFileEntry (c_str name) [] (to_unsigned len) (c_str type)
               (if bad_len len then true else indet_flag env i) in
    let (files, s) := extract_read env n' (S i) s in
    (f :: files, s)
  end.

(** The extension added for a type. *)
Definition type_extension (type : list Z) : list Z :=
  if list_eqb type (bytes_of "P") then bytes_of ".prg"
  else if list_eqb type (bytes_of "S") then bytes_of ".seq"
  else if list_eqb type (bytes_of "U") then bytes_of ".usr"
  else if list_eqb type (bytes_of "R") then bytes_of ".rel"
  else [].

(** "Just glob up everything": the rest of the stream goes to one file.
    [new char[length]] throws for a negative [length]. *)
Definition glob_rest (env : Env) (dest_folder : list Z) (f : FileEntry)
    (s : istream) (fs : FS) : outcome (istream * FS) :=
  let fp := path_append dest_folder (fe_name f) in
  let fs := fs_write fs fp [] in
  let (pos, s) := is_tellg s in
  let s := is_seekg_end s in
  let (e, s) := is_tellg s in
  let length := to_int (e - pos) in
  let s := is_seekg s pos in
  if length <? 0 then Aborted
  else
    let (b, s) := is_read s length in
    Returned (s, fs_write fs fp (filled env length b)).

(** The loop that extracts, over the stream and the file system. *)
Fixpoint extract_loop (env : Env) (dest_folder : list Z)
    (targets : list (list Z)) (skip_deleted add_extension : bool)
    (files : list FileEntry) (s : istream) (fs : FS)
    : outcome (istream * FS) :=
  match files with
  | [] => Returned (s, fs)
  | f :: r =>
    if bad_length f then glob_rest env dest_folder f s fs          (* break *)
    else if fe_length f =? 0 then
      extract_loop env dest_folder targets skip_deleted add_extension r s fs
    else if list_eqb (fe_type f) (bytes_of "D") && skip_deleted then
      extract_loop env dest_folder targets skip_deleted add_extension r
                   (is_ignore s (fe_length f)) fs
    else
      let s :=
        match targets with
        | [] => s
        | _ :: _ =>
          let found := existsb (list_eqb (petscii2ascii env (fe_name f))) targets in
          if negb found then is_ignore s (fe_length f) else s
        end in
      let ascii_name := petscii2ascii env (fe_name f) in
      let ascii_name := if add_extension
                        then ascii_name ++ type_extension (fe_type f)
                        else ascii_name in
      let fp := path_append dest_folder ascii_name in
      let (b, s) := is_read s (fe_length f) in
      extract_loop env dest_folder targets skip_deleted add_extension r s
                   (fs_write fs fp (filled env (fe_length f) b))
  end.

(** The entries [extract_lbr] reads and the stream after them. *)
Definition extract_directory (env : Env) (data : list Z)
    : list FileEntry * istream :=
  let (_, s) := read_signature env (open data) in
  let (count, s) := read_count s in
  extract_read env (Z.to_nat (atoi count)) O s.

Definition extract_lbr (env : Env) (fs : FS) (data : list Z)
    (dest_folder : list Z) (targets : list (list Z))
    (skip_deleted add_extension : bool) : outcome (Z * FS) :=
  let (signature, _) := read_signature env (open data) in
  if negb (sig_ok signature) then Returned (1, fs)
  else
    let (files, s) := extract_directory env data in
    match extract_loop env dest_folder targets skip_deleted add_extension
                       files s fs with
    | Aborted => Aborted
    | Returned (_, fs) => Returned (0, fs)
    end.

Definition no_files : FS := fun _ => None.

(** The get position of a stream that was only read lies within the file. *)
Definition in_bounds (s : istream) : Prop := (pos s <= length (buf s))%nat.

Definition not_flagged (f : FileEntry) : Prop := bad_length f = false.

(** The archive of the C7 examples: the second of three entries declares
    9999999 bytes. *)
Definition ex_bad : list Z :=
  archive [mkDirEnt (bytes_of "A") 0x53 1; mkDirEnt (bytes_of "BB") 0x53 9999999;
           mkDirEnt (bytes_of "C") 0x53 2]
          (bytes_of "xrest of it").

(** An archive whose first entry declares 9999999 bytes and whose second
    record has an empty name. *)
Definition ex_bad_empty_name : list Z :=
  bytes_of "DWB 2 " ++ [CR] ++ bytes_of "A" ++ [CR] ++ bytes_of "S" ++ [CR]
  ++ bytes_of " 9999999 " ++ [CR] ++ [CR] ++ bytes_of "xyz".

(** ** add_lbr

    The archive is read from its content [data] and the new files from
    the file system; the function returns the status and the content the
    archive is left with. *)

Definition ULONG_MOD : Z := 2 ^ 64.

(** The loop that copies the directory, over the stream, the temporary
    file and [offset].  [None] is the [return -1] for a bad length. *)
Fixpoint add_copy_dir (env : Env) (n : nat) (s : istream) (tmpf : list Z)
    (offset : Z) : option (istream * list Z * Z) :=
  match n with
  | O => Some (s, tmpf, offset)
  | S n' =>
    let c := indet_byte env in
    let '(c, o, s) := is_get_while not_cr s c in (* name *)
    let tmpf := tmpf ++ o ++ [CR] in
    let '(c, o, s) := is_get_while not_cr s c in (* type *)
    let tmpf := tmpf ++ o ++ [CR] in
    let (sp1, s) := is_get_int s in
    let tmpf := tmpf ++ [sp1] in
    let (len, s) := is_get_str s 256 SP in
    let tmpf := tmpf ++ c_str len in
    let (sp2, s) := is_get_int s in
    let (cr, s) := is_get_int s in
    let tmpf := tmpf ++ [sp2; cr] in
    let l := atoi len in
    let offset := offset + l in
    if bad_len l then None
    else add_copy_dir env n' s tmpf offset
  end.

(** One round of the loop that writes the records of the new files:
    [fputs] stops at a NUL. *)
Definition add_entry (env : Env) (strip_extension : bool) (f : FileEntry)
    : list Z :=
  c_str (written_name env strip_extension (fe_name f)) ++ [CR]
  ++ [type_of (fe_name f) (fe_length f)] ++ [CR]
  ++ [SP] ++ c_str (to_string (fe_length f)) ++ [SP] ++ [CR].

Definition add_lbr (env : Env) (fs : FS) (data : list Z)
    (targets : list (list Z)) (strip_extension : bool)
    : outcome (Z * list Z) :=
  let offset := 0 in
  let s := open data in
  let (signature, s) := read_signature env s in
  if negb (sig_ok signature) then Returned (-1, data)
  else
    let tmpf := c_str signature in
    let (sp1, s) := is_get_int s in
    let tmpf := tmpf ++ [sp1] in
    let (count, s) := is_get_str s 256 SP in
    let file_count := atoi count in
    let tmpf := tmpf ++ to_string ((file_count + Z.of_nat (length targets))
                                   mod ULONG_MOD) in
    let (sp2, s) := is_get_int s in
    let (cr, s) := is_get_int s in
    let tmpf := tmpf ++ [sp2; cr] in
    match stat_inputs env fs targets with
    | Aborted => Aborted
    | Returned files =>
      match add_copy_dir env (Z.to_nat file_count) s tmpf offset with
      | None => Returned (-1, data)
      | Some (s, tmpf, offset) =>
        let (p, s) := is_tellg s in
        let offset := offset + p in
        let tmpf := tmpf ++ flat_map (add_entry env strip_extension) files in
        let '(c, o, s) := is_get_while (upto offset) s (indet_byte env) in
        let tmpf := tmpf ++ o in
        let tmpf := tmpf ++ flat_map (write_payload env fs) files in
        let '(c, o, s) := is_get_while always s c in
        let tmpf := tmpf ++ o in
        Returned (0, tmpf)
      end
    end.

(** The member [add_lbr] and [build_lbr] make of a source file. *)
Definition source_data (fs : FS) (i : list Z) : list Z :=
  match fs i with
  | Some d => d
  | None => []
  end.

Definition source_member (env : Env) (fs : FS) (strip_extension : bool)
    (i : list Z) : Member :=
  mkMember (written_name env strip_extension (filename i))
           (source_type fs i) (source_data fs i).

(** ** Bytes *)

Definition is_byte (b : Z) : bool := (0 <=? b) && (b <? 256).

(** An environment that differs from the initial one in the sign of
    [char] only; the codec looks at nothing else when it converts. *)
Definition sign_env (signed : bool) : Env :=
  mkEnv false true signed (fun _ => false) 0.

(** A record the readers read back whose length is above the sane
    bound. *)
Definition bad_dirent (e : DirEnt) : bool :=
  readable_dirent e && (MAX_SANE_LENGTH <? d_len e) && (d_len e <=? INT_MAX).

(** ** Listing and extracting the members of an archive *)

(** The entry the readers make of a member. *)
Definition member_entry (m : Member) : FileEntry :=
  mkFileEntry (m_name m) [] (Z.of_nat (length (m_data m))) [m_type m] false.

(** The line for a member: [name (type) length]. *)
Definition member_line (env : Env) (m : Member) : list Z :=
  petscii2ascii env (m_name m) ++ bytes_of " ("
  ++ petscii2ascii env [m_type m] ++ bytes_of ") "
  ++ to_string (Z.of_nat (length (m_data m))).

(** The lines for the members, deleted ones skipped when asked. *)
Definition member_lines (env : Env) (skip_deleted : bool) (ms : list Member)
    : list (list Z) :=
  flat_map (fun m => if (m_type m =? 0x44) && skip_deleted
                     then (if verbose env then [bytes_of "[deleted]"] else [])
                     else [member_line env m]) ms.

(** What extracting one member without targets does to the file system:
    nothing for an empty member or a deleted one that is skipped. *)
Definition extract_member (env : Env) (dest_folder : list Z)
    (skip_deleted add_extension : bool) (fs : FS) (m : Member) : FS :=
  if (Z.of_nat (length (m_data m)) =? 0) || ((m_type m =? 0x44) && skip_deleted)
  then fs
  else fs_write fs
         (path_append dest_folder
            (petscii2ascii env (m_name m)
             ++ (if add_extension then type_extension [m_type m] else [])))
         (m_data m).

(** The storage of a [bad_length] that is not assigned reads as false. *)
Definition flags_read_false (env : Env) : Prop :=
  forall i, indet_flag env i = false.

(** A source file within the sane bound. *)
Definition source_small (env : Env) (fs : FS) (i : list Z) : bool :=
  source_ok env fs i && (source_length fs i <=? MAX_SANE_LENGTH).


(** ** The order of [num_cmp] *)

(** [f] is not after [g]. *)
Definition num_le (f g : FileEntry) : Prop := num_cmp g f = false.

(** The entry of a file whose name is the decimal form of [n]. *)
Definition numbered (n : Z) (path : list Z) (length : Z) : FileEntry :=
  mkFileEntry (to_string n) path length [] false.

(** Ten to the number of characters of [l]. *)
Definition pow10 (l : list Z) : Z := 10 ^ Z.of_nat (length l).

(** ** Padding, as a function of the sorted entries *)

(** The entries from [i] on: before each entry the fillers for the
    numbers from [i] up to its own, then the entry. *)
Fixpoint pad_fill (env : Env) (i : Z) (rest : list FileEntry) : list FileEntry :=
  match rest with
  | [] => []
  | x :: r => map (filler env) (zseq i (Z.to_nat (name_value x - i)))
              ++ x :: pad_fill env (name_value x + 1) r
  end.

(** The values of the names go up strictly, starting at [i] or above. *)
Fixpoint increasing_from (i : Z) (rest : list FileEntry) : bool :=
  match rest with
  | [] => true
  | x :: r => (i <=? name_value x) && increasing_from (name_value x + 1) r
  end.

(** The name is the decimal form of a number from 0 to [INT_MAX] - 1. *)
Definition canonical (f : FileEntry) : bool :=
  (0 <=? name_value f) && (name_value f <? INT_MAX)
  && list_eqb (fe_name f) (to_string (name_value f)).

(** The bytes [build_lbr] writes for the entries [files]. *)
Definition built_archive (env : Env) (fs : FS) (strip_extension : bool)
    (files : list FileEntry) : list Z :=
  (([0x44; 0x57; 0x42] ++ [SP] ++ to_string (Z.of_nat (length files))
    ++ [SP] ++ [CR])
   ++ flat_map (write_entry env strip_extension) files)
  ++ flat_map (write_payload env fs) files.


(** ** The argument of [--type] in [main]

    [str.find_last_of(":")] is [find_last_of 0x3A str], [None] for
    [npos]. *)

(** [target_file = str.substr(0, cln); new_type = str.substr(cln+1)];
    [None] is the exit with 1 on a missing separator. *)
Definition type_argument (str : list Z) : option (list Z * list Z) :=
  match find_last_of 0x3A str with
  | None => None
  | Some cln => Some (firstn cln str, skipn (cln + 1) str)
  end.
(** * Theorems *)

Ltac zbool :=
  repeat match goal with
  | |- context [?a <? ?b] => destruct (Z.ltb_spec a b)
  | |- context [?a <=? ?b] => destruct (Z.leb_spec a b)
  | |- context [?a =? ?b] => destruct (Z.eqb_spec a b)
  end; cbn [andb orb negb].

Section Codec.

Variable env : Env.

Lemma char_val_ascii b : 0 <= b < 128 -> char_val env b = b.
Proof.
  intros H. unfold char_val.
  destruct (Z.leb_spec 128 b); [lia|]. now rewrite andb_false_r.
Qed.

Lemma roundtrip_char b :
  roundtrip_stable b = true ->
  petscii2ascii_char env (ascii2petscii_char env b) = b.
Proof.
  unfold roundtrip_stable. intros H.
  assert (Hb : 0x20 <= b <= 0x5D /\ b <> 0x5C) by lia.
  assert (He : ascii2petscii_char env b = b).
  { unfold ascii2petscii_char. rewrite char_val_ascii by lia.
    cbv zeta. zbool; lia. }
  rewrite He. unfold petscii2ascii_char. rewrite char_val_ascii by lia.
  cbv zeta. zbool; lia.
Qed.

End Codec.

(** ** Decimal numbers *)

Section Numbers.

Lemma dec_digits_acc fuel : forall n acc,
  dec_digits fuel n acc = dec_digits fuel n [] ++ acc.
Proof.
  induction fuel as [|f IH]; intros n acc; cbn [dec_digits]; [reflexivity|].
  destruct (n <? 10); [reflexivity|].
  rewrite (IH _ (_ :: acc)), (IH _ [_]), <- app_assoc. reflexivity.
Qed.

Lemma isdigit_digit d : 0 <= d < 10 -> isdigit (0x30 + d) = true.
Proof. intros H. unfold isdigit. zbool; lia. Qed.

Lemma dec_digits_isdigit fuel : forall n acc,
  0 <= n -> forallb isdigit acc = true ->
  forallb isdigit (dec_digits fuel n acc) = true.
Proof.
  induction fuel as [|f IH]; intros n acc Hn Hacc; cbn [dec_digits]; [exact Hacc|].
  assert (Hd : forallb isdigit ((0x30 + n mod 10) :: acc) = true).
  { cbn [forallb]. rewrite isdigit_digit, Hacc; [reflexivity|].
    apply Z.mod_pos_bound; lia. }
  destruct (n <? 10); [exact Hd|].
  apply IH; [apply Z.div_pos; lia | exact Hd].
Qed.

Lemma dec_digits_nonempty fuel n : dec_digits (S fuel) n [] <> [].
Proof.
  cbn [dec_digits]. destruct (n <? 10); [discriminate|].
  rewrite dec_digits_acc. intros H. apply app_eq_nil in H. now destruct H.
Qed.

Lemma dec_digits_length fuel : forall n acc,
  (length (dec_digits fuel n acc) <= fuel + length acc)%nat.
Proof.
  induction fuel as [|f IH]; intros n acc; cbn [dec_digits]; [lia|].
  destruct (n <? 10); [cbn [length]; lia|].
  specialize (IH (n / 10) ((0x30 + n mod 10) :: acc)). cbn [length] in IH. lia.
Qed.

Lemma digits_val_dec fuel : forall n r,
  0 <= n < 2 ^ Z.of_nat fuel ->
  digits_val (dec_digits fuel n [] ++ r) 0 = digits_val r n.
Proof.
  induction fuel as [|f IH]; intros n r Hn.
  - cbn in Hn. cbn [dec_digits app]. f_equal. lia.
  - cbn [dec_digits].
    assert (Hd : 0 <= n mod 10 < 10) by (apply Z.mod_pos_bound; lia).
    destruct (Z.ltb_spec n 10) as [Hlt|Hge].
    + cbn [app digits_val]. rewrite isdigit_digit by exact Hd.
      f_equal. rewrite Z.mod_small by lia. lia.
    + rewrite dec_digits_acc, <- app_assoc. cbn [app].
      rewrite IH.
      * cbn [digits_val]. rewrite isdigit_digit by exact Hd. f_equal.
        pose proof (Z.div_mod n 10). lia.
      * rewrite Nat2Z.inj_succ, Z.pow_succ_r in Hn by lia.
        split; [apply Z.div_pos; lia|].
        apply Z.div_lt_upper_bound; lia.
Qed.

Lemma log2_fuel n : 0 <= n -> n < 2 ^ Z.of_nat (S (Z.to_nat (Z.log2 n))).
Proof.
  intros Hn. rewrite Nat2Z.inj_succ, Z2Nat.id by apply Z.log2_nonneg.
  destruct (Z.eq_dec n 0) as [->|Hz]; [reflexivity|].
  apply Z.log2_spec. lia.
Qed.

Lemma to_string_nonneg n :
  0 <= n -> to_string n = dec_digits (S (Z.to_nat (Z.log2 n))) n [].
Proof. intros Hn. unfold to_string. destruct (Z.ltb_spec n 0); [lia|reflexivity]. Qed.

Lemma to_string_isdigit n : 0 <= n -> forallb isdigit (to_string n) = true.
Proof.
  intros Hn. rewrite to_string_nonneg by exact Hn.
  now apply dec_digits_isdigit.
Qed.

Lemma to_string_nonempty n : to_string n <> [].
Proof.
  unfold to_string. destruct (n <? 0); [discriminate|apply dec_digits_nonempty].
Qed.

Lemma to_string_length_long n :
  0 <= n <= LONG_MAX -> (length (to_string n) <= 64)%nat.
Proof.
  intros Hn. rewrite to_string_nonneg by lia.
  pose proof (dec_digits_length (S (Z.to_nat (Z.log2 n))) n []) as H.
  cbn [length] in H.
  assert (Z.log2 n <= 62).
  { destruct (Z.eq_dec n 0) as [->|Hz]; [cbn; lia|].
    assert (Z.log2 n < 63); [|lia].
    apply Z.log2_lt_pow2; [lia|]. unfold LONG_MAX in Hn. lia. }
  pose proof (Z.log2_nonneg n). lia.
Qed.

Lemma int_max_long : INT_MAX <= LONG_MAX.
Proof. unfold INT_MAX, LONG_MAX. lia. Qed.

Lemma digits_val_to_string n r :
  0 <= n -> digits_val (to_string n ++ r) 0 = digits_val r n.
Proof.
  intros Hn. rewrite to_string_nonneg by exact Hn.
  apply digits_val_dec. split; [exact Hn|now apply log2_fuel].
Qed.

Lemma isdigit_props c :
  isdigit c = true ->
  isspace c = false /\ (c =? 0x2D) = false /\ (c =? 0x2B) = false
  /\ (c =? SP) = false /\ (c =? NUL) = false /\ (c =? CR) = false.
Proof. unfold isdigit, isspace, SP, NUL, CR. zbool; intros; repeat split; lia. Qed.

Lemma atoi_to_string n : 0 <= n <= INT_MAX -> atoi (to_string n) = n.
Proof.
  intros Hn. unfold atoi, strtol.
  pose proof (to_string_isdigit n (proj1 Hn)) as Hd.
  pose proof (digits_val_to_string n [] (proj1 Hn)) as Hv.
  rewrite app_nil_r in Hv. cbn [digits_val] in Hv.
  destruct (to_string n) as [|c r] eqn:E; [now apply to_string_nonempty in E|].
  cbn [forallb] in Hd. apply andb_prop in Hd. destruct Hd as [Hc _].
  destruct (isdigit_props c Hc) as (Hs & Hm & Hp & _).
  cbn [skip_space]. rewrite Hs, Hm, Hp, Hv.
  unfold INT_MAX, LONG_MIN, LONG_MAX, to_int in *.
  rewrite Z.min_r, Z.max_r by lia. rewrite Z.mod_small by lia. lia.
Qed.

Lemma no_byte_digits b l :
  isdigit b = false -> forallb isdigit l = true -> no_byte b l = true.
Proof.
  intros Hb. unfold no_byte. induction l as [|c l IH]; [reflexivity|].
  cbn [forallb]. intros H. apply andb_prop in H. destruct H as [Hc Hl].
  rewrite IH by exact Hl. rewrite andb_true_r.
  destruct (Z.eqb_spec c b) as [->|]; [congruence|reflexivity].
Qed.

End Numbers.

(** ** Streams positioned inside a known byte sequence *)

Section Streams.

Lemma rest_St pre post : rest (St pre post) = post.
Proof.
  unfold rest, St. cbn [pos buf].
  rewrite skipn_app, skipn_all, Nat.sub_diag. reflexivity.
Qed.

Lemma St_adv pre a b :
  mkIS (pre ++ a ++ b) (length pre + length a) false false = St (pre ++ a) b.
Proof. unfold St. now rewrite length_app, app_assoc. Qed.

Lemma open_St data : open data = St [] data.
Proof. reflexivity. Qed.

Lemma take_field_delim d f r : forall n,
  no_byte d f = true -> (length f <= n)%nat ->
  take_field n d (f ++ d :: r) = (f, false).
Proof.
  unfold no_byte. induction f as [|c f IH]; intros n Hf Hn.
  - destruct n; [reflexivity|]. cbn. now rewrite Z.eqb_refl.
  - destruct n; [cbn in Hn; lia|]. cbn [forallb] in Hf.
    apply andb_prop in Hf. destruct Hf as [Hc Hf].
    cbn [app take_field]. apply negb_true_iff in Hc. rewrite Hc.
    rewrite IH; [reflexivity|exact Hf|cbn in Hn; lia].
Qed.

Lemma is_get_str_St pre f d r :
  f <> [] -> (length f <= 255)%nat -> no_byte d f = true ->
  is_get_str (St pre (f ++ d :: r)) 256 d = (f, St (pre ++ f) (d :: r)).
Proof.
  intros Hne Hlen Hd. unfold is_get_str.
  change (good (St pre (f ++ d :: r))) with true. cbv iota.
  rewrite rest_St.
  rewrite take_field_delim; [|exact Hd|change (256 - 1)%nat with 255%nat; lia].
  change (buf (St pre (f ++ d :: r))) with (pre ++ f ++ d :: r).
  change (pos (St pre (f ++ d :: r))) with (length pre).
  rewrite <- St_adv. destruct f; [contradiction|reflexivity].
Qed.

Lemma is_get_str_St1 pre x d r :
  x <> d ->
  is_get_str (St pre (x :: d :: r)) 256 d = ([x], St (pre ++ [x]) (d :: r)).
Proof.
  intros Hx. apply (is_get_str_St pre [x] d r).
  - discriminate.
  - cbn. lia.
  - cbn. apply Z.eqb_neq in Hx. now rewrite Hx.
Qed.

Lemma is_ignore_St pre a r :
  is_ignore (St pre (a ++ r)) (Z.of_nat (length a)) = St (pre ++ a) r.
Proof.
  unfold is_ignore. change (good (St pre (a ++ r))) with true. cbv iota.
  rewrite rest_St, length_app.
  destruct (Z.leb_spec (Z.of_nat (length a)) (Z.of_nat (length a + length r))); [|lia].
  rewrite Nat2Z.id. apply St_adv.
Qed.

Lemma is_ignore1_St pre x r :
  is_ignore (St pre (x :: r)) 1 = St (pre ++ [x]) r.
Proof. apply (is_ignore_St pre [x] r). Qed.

Lemma is_tellg_St pre post :
  is_tellg (St pre post) = (Z.of_nat (length pre), St pre post).
Proof. reflexivity. Qed.

Lemma is_get_St pre x r :
  is_get (St pre (x :: r)) = (Some x, St (pre ++ [x]) r).
Proof.
  unfold is_get. change (good (St pre (x :: r))) with true. cbv iota.
  rewrite rest_St. rewrite <- (St_adv pre [x] r). cbn [length app].
  unfold St. cbn [buf pos]. f_equal. f_equal. lia.
Qed.

Lemma is_get_St_end pre :
  is_get (St pre []) = (None, mkIS (pre ++ []) (length pre) true true).
Proof.
  unfold is_get. change (good (St pre [])) with true. cbv iota.
  now rewrite rest_St.
Qed.

Lemma is_read_St pre a r :
  is_read (St pre (a ++ r)) (Z.of_nat (length a)) = (a, St (pre ++ a) r).
Proof.
  unfold is_read. change (good (St pre (a ++ r))) with true. cbv iota.
  rewrite rest_St, length_app.
  destruct (Z.leb_spec (Z.of_nat (length a)) (Z.of_nat (length a + length r))); [|lia].
  rewrite Nat2Z.id, firstn_app, firstn_all, Nat.sub_diag, firstn_0, app_nil_r.
  f_equal. apply St_adv.
Qed.

Lemma c_str_no_nul l : no_byte NUL l = true -> c_str l = l.
Proof.
  unfold no_byte. induction l as [|c l IH]; [reflexivity|].
  cbn [forallb c_str]. intros H. apply andb_prop in H. destruct H as [Hc Hl].
  apply negb_true_iff in Hc. rewrite Hc, IH by exact Hl. reflexivity.
Qed.

Lemma list_eqb_eq a : forall b, list_eqb a b = true <-> a = b.
Proof.
  induction a as [|x a IH]; intros [|y b]; cbn [list_eqb]; split;
    try discriminate; try reflexivity.
  - intros H. apply andb_prop in H. destruct H as [Hx Hl].
    apply Z.eqb_eq in Hx. apply IH in Hl. congruence.
  - intros H. injection H as -> ->. rewrite Z.eqb_refl. now apply IH.
Qed.

End Streams.

(** ** Reading back what the format prescribes *)

Section Format.

Lemma wf_dirent_spec e :
  wf_dirent e = true ->
  d_name e <> [] /\ (length (d_name e) <= 255)%nat /\
  no_byte CR (d_name e) = true /\ no_byte NUL (d_name e) = true /\
  d_type e <> CR /\ d_type e <> NUL /\ 0 <= d_len e <= MAX_SANE_LENGTH.
Proof.
  unfold wf_dirent. intros H.
  repeat (apply andb_prop in H; destruct H as [H ?]).
  repeat match goal with
  | H : negb _ = true |- _ => apply negb_true_iff in H
  | H : (_ =? _) = false |- _ => apply Z.eqb_neq in H
  | H : (_ <=? _) = true |- _ => apply Z.leb_le in H
  end.
  repeat split; try assumption; try lia.
  intros E. rewrite E in H. cbn in H. lia.
Qed.

Lemma max_sane_int : MAX_SANE_LENGTH <= INT_MAX.
Proof. unfold MAX_SANE_LENGTH, INT_MAX. lia. Qed.

Lemma to_string_field_long n :
  0 <= n <= LONG_MAX ->
  to_string n <> [] /\ (length (to_string n) <= 255)%nat /\
  no_byte SP (to_string n) = true.
Proof.
  intros Hn. split; [apply to_string_nonempty|]. split.
  - pose proof (to_string_length_long n Hn). lia.
  - apply no_byte_digits; [reflexivity|apply to_string_isdigit; lia].
Qed.

Lemma to_string_field n :
  0 <= n <= INT_MAX ->
  to_string n <> [] /\ (length (to_string n) <= 255)%nat /\
  no_byte SP (to_string n) = true.
Proof.
  intros Hn. apply to_string_field_long. pose proof int_max_long. lia.
Qed.

Lemma readable_dirent_spec e :
  readable_dirent e = true ->
  d_name e <> [] /\ (length (d_name e) <= 255)%nat /\
  no_byte CR (d_name e) = true /\ d_type e <> CR /\ 0 <= d_len e <= LONG_MAX.
Proof.
  unfold readable_dirent. intros H.
  repeat (apply andb_prop in H; destruct H as [H ?]).
  repeat match goal with
  | H : negb _ = true |- _ => apply negb_true_iff in H
  | H : (_ =? _) = false |- _ => apply Z.eqb_neq in H
  | H : (_ <=? _) = true |- _ => apply Z.leb_le in H
  end.
  repeat split; try assumption; try lia.
  intros E. rewrite E in H. cbn in H. lia.
Qed.

Lemma wf_readable e : wf_dirent e = true -> readable_dirent e = true.
Proof.
  intros H. apply wf_dirent_spec in H.
  destruct H as (Hne & Hlen & Hcr & Hnul & Htcr & Htnul & Hl).
  unfold readable_dirent. rewrite Hcr. cbn [andb].
  apply Z.eqb_neq in Htcr. rewrite Htcr. cbn [negb andb].
  pose proof max_sane_int. pose proof int_max_long.
  destruct (d_name e); [contradiction|]. cbn [length] in *.
  zbool; lia.
Qed.

Lemma read_dirent_readable pre e r :
  readable_dirent e = true ->
  read_dirent (St pre (dir_record e ++ r)) =
  ((d_name e, [d_type e], to_string (d_len e)), St (pre ++ dir_record e) r).
Proof.
  intros Hrd. apply readable_dirent_spec in Hrd.
  destruct Hrd as (Hne & Hlen & Hcr & Htcr & Hl).
  destruct (to_string_field_long (d_len e)) as (Lne & Llen & Lsp); [lia|].
  unfold read_dirent, dir_record. rewrite <- !app_assoc. cbn [app].
  rewrite is_get_str_St by assumption.
  rewrite is_ignore1_St.
  rewrite is_get_str_St1 by assumption.
  rewrite !is_ignore1_St.
  rewrite is_get_str_St by assumption.
  rewrite !is_ignore1_St.
  rewrite <- !app_assoc. cbn [app]. reflexivity.
Qed.

Lemma read_dirent_St pre e r :
  wf_dirent e = true ->
  read_dirent (St pre (dir_record e ++ r)) =
  ((d_name e, [d_type e], to_string (d_len e)), St (pre ++ dir_record e) r).
Proof. intros H. now apply read_dirent_readable, wf_readable. Qed.

Lemma read_header_St env n r :
  0 <= n <= INT_MAX ->
  read_signature env (open (header n ++ r)) =
    ([0x44; 0x57; 0x42], St [0x44; 0x57; 0x42] (SP :: to_string n ++ [SP; CR] ++ r)) /\
  read_count (St [0x44; 0x57; 0x42] (SP :: to_string n ++ [SP; CR] ++ r)) =
    (to_string n, St (header n) r).
Proof.
  intros Hn. destruct (to_string_field n Hn) as (Lne & Llen & Lsp). split.
  - unfold read_signature, header. rewrite open_St.
    rewrite <- !app_assoc.
    change ([0x44; 0x57; 0x42; SP] ++ to_string n ++ [SP; CR] ++ r)
      with ([0x44; 0x57; 0x42] ++ SP :: to_string n ++ [SP; CR] ++ r).
    rewrite (is_read_St [] [0x44; 0x57; 0x42]). reflexivity.
  - unfold read_count. rewrite is_ignore1_St.
    cbn [app]. rewrite is_get_str_St by assumption.
    rewrite !is_ignore1_St. unfold header.
    rewrite <- !app_assoc. reflexivity.
Qed.

End Format.

(** ** The entry locator *)

Section Locator.

Variable env : Env.
Variable target : list Z.
Variable skip_deleted : bool.

Lemma directory_cons e es : directory (e :: es) = dir_record e ++ directory es.
Proof. reflexivity. Qed.

Lemma sum_len_cons e es : sum_len (e :: es) = d_len e + sum_len es.
Proof. reflexivity. Qed.

Lemma bad_len_wf e : wf_dirent e = true -> bad_len (d_len e) = false.
Proof.
  intros H. apply wf_dirent_spec in H. unfold bad_len. zbool; lia.
Qed.

Lemma atoi_len_wf e : wf_dirent e = true -> atoi (to_string (d_len e)) = d_len e.
Proof.
  intros H. apply wf_dirent_spec in H. pose proof max_sane_int.
  apply atoi_to_string. lia.
Qed.

Lemma find_loop_step e es pre r coff found len doff :
  wf_dirent e = true ->
  find_loop env (S (length es)) target skip_deleted
    (St pre (directory (e :: es) ++ r)) coff found len doff =
  let take := negb found && is_match env target skip_deleted e in
  find_loop env (length es) target skip_deleted
    (St (pre ++ dir_record e) (directory es ++ r))
    (if negb (found || take) then coff + d_len e else coff)
    (found || take)
    (if take then d_len e else len)
    (if take then Z.of_nat (length pre) else doff).
Proof.
  intros Hwf. cbn [find_loop].
  rewrite is_tellg_St, directory_cons, <- app_assoc.
  rewrite read_dirent_St by exact Hwf.
  rewrite atoi_len_wf, bad_len_wf by exact Hwf.
  rewrite c_str_no_nul by (apply wf_dirent_spec in Hwf; tauto).
  cbn [hd]. unfold is_match. rewrite <- andb_assoc. reflexivity.
Qed.

Lemma find_loop_found : forall es pre r coff len doff,
  forallb wf_dirent es = true ->
  find_loop env (length es) target skip_deleted
    (St pre (directory es ++ r)) coff true len doff =
  inr (St (pre ++ directory es) r, coff, true, len, doff).
Proof.
  induction es as [|e es IH]; intros pre r coff len doff Hwf.
  - cbn. now rewrite app_nil_r.
  - cbn [forallb] in Hwf. apply andb_prop in Hwf. destruct Hwf as [He Hes].
    cbn [length]. rewrite find_loop_step by exact He.
    cbn [negb andb orb]. cbv zeta.
    rewrite IH by exact Hes. now rewrite directory_cons, app_assoc.
Qed.

Lemma find_loop_scan : forall es pre r coff len doff,
  forallb wf_dirent es = true ->
  find_loop env (length es) target skip_deleted
    (St pre (directory es ++ r)) coff false len doff =
  inr match first_match env target skip_deleted es with
      | Some i =>
        (St (pre ++ directory es) r, coff + sum_len (firstn i es), true,
         d_len (nth i es dirent0),
         Z.of_nat (length (pre ++ directory (firstn i es))))
      | None =>
        (St (pre ++ directory es) r, coff + sum_len es, false, len, doff)
      end.
Proof.
  induction es as [|e es IH]; intros pre r coff len doff Hwf.
  - cbn. rewrite app_nil_r. do 5 f_equal. lia.
  - cbn [forallb] in Hwf. apply andb_prop in Hwf. destruct Hwf as [He Hes].
    cbn [length]. rewrite find_loop_step by exact He.
    cbn [first_match negb andb orb]. cbv zeta.
    destruct (is_match env target skip_deleted e) eqn:Em.
    + cbn [negb]. rewrite find_loop_found by exact Hes.
      cbn [firstn nth sum_len fold_right].
      change (directory []) with (@nil Z).
      rewrite !app_nil_r, directory_cons, app_assoc. do 5 f_equal. lia.
    + cbn [negb]. rewrite IH by exact Hes.
      rewrite directory_cons, app_assoc.
      destruct (first_match env target skip_deleted es) as [i|]; cbn [option_map].
      * cbn [firstn nth].
        rewrite directory_cons, app_assoc, sum_len_cons, Z.add_assoc.
        reflexivity.
      * rewrite sum_len_cons, Z.add_assoc. reflexivity.
Qed.

End Locator.

Lemma find_in_lbr_wf
    (env : Env) (es : list DirEnt) (payload target : list Z)
    (length0 offset0 diroffset0 : Z) (skip_deleted : bool) :
  wf_directory es = true ->
  find_in_lbr env (archive es payload) target length0 offset0 diroffset0
              skip_deleted =
  match first_match env target skip_deleted es with
  | Some i =>
    (0, (d_len (nth i es dirent0),
         Z.of_nat (length (header (Z.of_nat (length es)) ++ directory es))
           + sum_len (firstn i es),
         Z.of_nat (length (header (Z.of_nat (length es))
                             ++ directory (firstn i es)))))
  | None => (-1, (length0, offset0, diroffset0))
  end.
Proof.
  intros Hwf. unfold wf_directory in Hwf.
  apply andb_prop in Hwf. destruct Hwf as [Hn Hes]. apply Z.leb_le in Hn.
  unfold find_in_lbr, archive.
  destruct (read_header_St env (Z.of_nat (length es)) (directory es ++ payload))
    as [Hsig Hcnt]; [lia|].
  rewrite Hsig. cbn [sig_ok Z.eqb Pos.eqb andb negb].
  cbv iota. rewrite Hcnt.
  rewrite atoi_to_string, Nat2Z.id by lia.
  rewrite find_loop_scan by exact Hes.
  destruct (first_match env target skip_deleted es) as [i|]; [|reflexivity].
  rewrite is_tellg_St. cbn [fst snd]. reflexivity.
Qed.

(** ** The copy loops on known byte sequences *)

Section CopyLoops.

Lemma last_indep (l : list Z) a b : l <> [] -> last l a = last l b.
Proof.
  induction l as [|x l IH]; intros H; [contradiction|].
  destruct l; [reflexivity|]. cbn [last] in *. apply IH. discriminate.
Qed.

Lemma last_cons (l : list Z) x c : last (x :: l) c = last l x.
Proof.
  destruct l as [|y l]; [reflexivity|].
  change (last (x :: y :: l) c) with (last (y :: l) c).
  apply last_indep. discriminate.
Qed.

Lemma get_while_before : forall X Y p c,
  X <> [] ->
  get_while (before (p + Z.of_nat (length X))) (X ++ Y) p c =
  (last X c, removelast X, length X, false).
Proof.
  induction X as [|x X IH]; intros Y p c Hne; [contradiction|].
  destruct X as [|x' X].
  - cbn [app get_while length]. unfold before at 1.
    destruct (Z.ltb_spec (p + 1) (p + Z.of_nat 1)); [lia|reflexivity].
  - change ((x :: x' :: X) ++ Y) with (x :: (x' :: X) ++ Y).
    cbn [get_while]. unfold before at 1.
    destruct (Z.ltb_spec (p + 1) (p + Z.of_nat (length (x :: x' :: X))));
      [|cbn [length] in *; lia].
    replace (p + Z.of_nat (length (x :: x' :: X)))
      with (p + 1 + Z.of_nat (length (x' :: X))) by (cbn [length]; lia).
    rewrite IH by discriminate. rewrite (last_cons (x' :: X) x c). reflexivity.
Qed.

Lemma get_while_not_cr : forall f r p c,
  no_byte CR f = true ->
  get_while not_cr (f ++ CR :: r) p c = (CR, f, S (length f), false).
Proof.
  unfold no_byte. induction f as [|x f IH]; intros r p c Hf.
  - reflexivity.
  - cbn [forallb] in Hf. apply andb_prop in Hf. destruct Hf as [Hx Hf].
    cbn [app get_while]. unfold not_cr at 1. rewrite Hx.
    rewrite IH by exact Hf. reflexivity.
Qed.

Lemma get_while_upto : forall A B p c,
  get_while (upto (p + Z.of_nat (length A))) (A ++ B) p c =
  match B with
  | [] => (last A c, A, length A, true)
  | b :: _ => (b, A, S (length A), false)
  end.
Proof.
  induction A as [|a A IH]; intros B p c.
  - destruct B as [|b B]; [reflexivity|].
    cbn [app get_while length]. unfold upto.
    destruct (Z.leb_spec (p + 1) (p + Z.of_nat 0)); [lia|reflexivity].
  - cbn [app get_while]. unfold upto at 1.
    destruct (Z.leb_spec (p + 1) (p + Z.of_nat (length (a :: A))));
      [|cbn [length] in *; lia].
    replace (p + Z.of_nat (length (a :: A)))
      with (p + 1 + Z.of_nat (length A)) by (cbn [length]; lia).
    rewrite IH. destruct B; [|reflexivity].
    now rewrite last_cons.
Qed.

Lemma get_while_always : forall r p c,
  get_while always r p c = (last r c, r, length r, true).
Proof.
  induction r as [|x r IH]; intros p c; [reflexivity|].
  cbn [get_while]. unfold always at 1. rewrite IH.
  now rewrite last_cons.
Qed.

Lemma is_get_while_before pre X Y c :
  X <> [] ->
  is_get_while (before (Z.of_nat (length (pre ++ X)))) (St pre (X ++ Y)) c =
  (last X c, removelast X, St (pre ++ X) Y).
Proof.
  intros Hne. unfold is_get_while.
  change (good (St pre (X ++ Y))) with true. cbv iota.
  rewrite rest_St. change (pos (St pre (X ++ Y))) with (length pre).
  rewrite length_app, Nat2Z.inj_add, get_while_before by exact Hne.
  change (buf (St pre (X ++ Y))) with (pre ++ X ++ Y).
  now rewrite St_adv.
Qed.

Lemma is_get_while_not_cr pre f r c :
  no_byte CR f = true ->
  is_get_while not_cr (St pre (f ++ CR :: r)) c =
  (CR, f, St (pre ++ f ++ [CR]) r).
Proof.
  intros Hf. unfold is_get_while.
  change (good (St pre (f ++ CR :: r))) with true. cbv iota.
  rewrite rest_St, get_while_not_cr by exact Hf.
  change (buf (St pre (f ++ CR :: r))) with (pre ++ f ++ CR :: r).
  change (pos (St pre (f ++ CR :: r))) with (length pre).
  rewrite <- (St_adv pre (f ++ [CR]) r), <- app_assoc, length_app.
  cbn [app length]. do 2 f_equal. f_equal. lia.
Qed.

Lemma is_get_while_upto_more pre A b B c :
  is_get_while (upto (Z.of_nat (length (pre ++ A)))) (St pre (A ++ b :: B)) c =
  (b, A, St (pre ++ A ++ [b]) B).
Proof.
  unfold is_get_while.
  change (good (St pre (A ++ b :: B))) with true. cbv iota.
  rewrite rest_St. change (pos (St pre (A ++ b :: B))) with (length pre).
  rewrite length_app, Nat2Z.inj_add, get_while_upto.
  change (buf (St pre (A ++ b :: B))) with (pre ++ A ++ b :: B).
  rewrite <- (St_adv pre (A ++ [b]) B), <- app_assoc, length_app.
  cbn [app length]. do 2 f_equal. f_equal. lia.
Qed.

Lemma is_get_while_upto_end pre A c :
  is_get_while (upto (Z.of_nat (length (pre ++ A)))) (St pre A) c =
  (last A c, A, mkIS (pre ++ A) (length (pre ++ A)) true true).
Proof.
  unfold is_get_while. change (good (St pre A)) with true. cbv iota.
  rewrite rest_St. change (pos (St pre A)) with (length pre).
  rewrite length_app, Nat2Z.inj_add.
  rewrite <- (app_nil_r A) at 2. rewrite get_while_upto.
  reflexivity.
Qed.

Lemma is_get_while_always pre r c :
  is_get_while always (St pre r) c =
  (last r c, r, mkIS (pre ++ r) (length (pre ++ r)) true true).
Proof.
  unfold is_get_while. change (good (St pre r)) with true. cbv iota.
  rewrite rest_St, get_while_always, length_app. reflexivity.
Qed.

Lemma is_get_while_failed cond b p e c :
  is_get_while cond (mkIS b p e true) c = (c, [], mkIS b p e true).
Proof.
  unfold is_get_while, good. cbn [eofbit failbit negb]. now rewrite andb_false_r.
Qed.

Lemma is_seekg_St pre post pre' post' :
  pre ++ post = pre' ++ post' ->
  is_seekg (St pre post) (Z.of_nat (length pre')) = St pre' post'.
Proof.
  intros H. unfold is_seekg, St. cbn [failbit buf pos].
  destruct (Z.ltb_spec (Z.of_nat (length pre')) 0); [lia|].
  now rewrite Nat2Z.id, H.
Qed.

Lemma removelast_last (X : list Z) c : X <> [] -> removelast X ++ [last X c] = X.
Proof. intros H. symmetry. now apply app_removelast_last. Qed.

End CopyLoops.

(** ** Archives with their members *)

Section Members.

Lemma directory_app a b : directory (a ++ b) = directory a ++ directory b.
Proof. apply flat_map_app. Qed.

Lemma payload_app a b : payload_of (a ++ b) = payload_of a ++ payload_of b.
Proof. apply flat_map_app. Qed.

Lemma payload_cons m ms : payload_of (m :: ms) = m_data m ++ payload_of ms.
Proof. reflexivity. Qed.

Lemma sum_len_members ms :
  sum_len (map dirent_of ms) = Z.of_nat (length (payload_of ms)).
Proof.
  induction ms as [|m ms IH]; [reflexivity|].
  cbn [map]. rewrite sum_len_cons, payload_cons, length_app, IH.
  cbn [dirent_of d_len]. lia.
Qed.

Lemma lbr_bytes_split ms1 m ms2 :
  lbr_bytes (ms1 ++ m :: ms2) =
  header (Z.of_nat (length (ms1 ++ m :: ms2)))
  ++ (directory (map dirent_of ms1) ++ dir_record (dirent_of m)
      ++ directory (map dirent_of ms2))
  ++ payload_of ms1 ++ m_data m ++ payload_of ms2.
Proof.
  unfold lbr_bytes, archive.
  rewrite length_map, map_app, directory_app, payload_app. reflexivity.
Qed.

Lemma wf_members_app ms1 m ms2 :
  wf_members (ms1 ++ m :: ms2) = true ->
  0 <= Z.of_nat (length (ms1 ++ m :: ms2)) <= INT_MAX /\
  forallb wf_dirent (map dirent_of ms1) = true /\
  wf_dirent (dirent_of m) = true /\
  forallb wf_dirent (map dirent_of ms2) = true.
Proof.
  unfold wf_members, wf_directory. rewrite length_map, map_app, forallb_app.
  cbn [map forallb]. intros H.
  apply andb_prop in H. destruct H as [Hn H].
  apply andb_prop in H. destruct H as [H1 H].
  apply andb_prop in H. destruct H as [Hm H2].
  apply Z.leb_le in Hn. repeat split; try assumption; lia.
Qed.

Lemma find_in_members env target skip_deleted ms1 m ms2 :
  wf_members (ms1 ++ m :: ms2) = true ->
  first_match env target skip_deleted (map dirent_of (ms1 ++ m :: ms2))
    = Some (length ms1) ->
  find_in_lbr env (lbr_bytes (ms1 ++ m :: ms2)) target 0 0 0 skip_deleted =
  (0, (Z.of_nat (length (m_data m)),
       Z.of_nat (length ((header (Z.of_nat (length (ms1 ++ m :: ms2)))
                          ++ directory (map dirent_of ms1)
                          ++ dir_record (dirent_of m)
                          ++ directory (map dirent_of ms2))
                         ++ payload_of ms1)),
       Z.of_nat (length (header (Z.of_nat (length (ms1 ++ m :: ms2)))
                         ++ directory (map dirent_of ms1))))).
Proof.
  intros Hwf Hfm. unfold lbr_bytes.
  rewrite find_in_lbr_wf by exact Hwf. rewrite Hfm.
  rewrite length_map.
  assert (Hf : firstn (length ms1) (map dirent_of (ms1 ++ m :: ms2))
               = map dirent_of ms1).
  { rewrite map_app. rewrite <- (length_map dirent_of ms1) at 1.
    rewrite firstn_app, firstn_all, Nat.sub_diag, firstn_0. apply app_nil_r. }
  assert (Hn : nth (length ms1) (map dirent_of (ms1 ++ m :: ms2)) dirent0
               = dirent_of m).
  { rewrite map_app. cbn [map]. rewrite <- (length_map dirent_of ms1) at 1.
    rewrite nth_middle. reflexivity. }
  rewrite Hf, Hn, sum_len_members. cbn [dirent_of d_len].
  rewrite map_app, directory_app. cbn [map]. rewrite directory_cons.
  do 3 f_equal. rewrite (length_app (_ ++ _) (payload_of ms1)). lia.
Qed.

End Members.

(** ** The mutators on well-formed archives *)

Section Mutators.

Variable env : Env.
Variable target : list Z.
Variable skip_deleted : bool.

Lemma no_byte_app b x y : no_byte b (x ++ y) = no_byte b x && no_byte b y.
Proof. apply forallb_app. Qed.

Lemma size_field_no_cr n :
  0 <= n <= INT_MAX -> no_byte CR (SP :: to_string n ++ [SP]) = true.
Proof.
  intros Hn. change (SP :: to_string n ++ [SP]) with ([SP] ++ to_string n ++ [SP]).
  rewrite !no_byte_app.
  rewrite (no_byte_digits CR (to_string n)); [reflexivity|reflexivity|].
  apply to_string_isdigit. lia.
Qed.

(** The three loops that pass over a directory record, the first one
    copying the name. *)
Lemma pass_record pre e r c :
  wf_dirent e = true ->
  exists s1 s2 c1 c2,
  is_get_while not_cr (St pre (dir_record e ++ r)) c = (c1, d_name e, s1) /\
  is_get_while not_cr s1 c1 = (c2, [d_type e], s2) /\
  is_get_while not_cr s2 c2 =
    (CR, SP :: to_string (d_len e) ++ [SP], St (pre ++ dir_record e) r).
Proof.
  intros Hwf. apply wf_dirent_spec in Hwf.
  destruct Hwf as (Hne & Hlen & Hcr & Hnul & Htcr & Htnul & Hl).
  pose proof max_sane_int as Hmax.
  unfold dir_record. rewrite <- !app_assoc. cbn [app].
  do 4 eexists. split; [|split].
  - apply is_get_while_not_cr. exact Hcr.
  - apply (is_get_while_not_cr _ [d_type e]).
    cbn. apply Z.eqb_neq in Htcr. now rewrite Htcr.
  - replace (SP :: to_string (d_len e) ++ SP :: CR :: r)
      with ((SP :: to_string (d_len e) ++ [SP]) ++ CR :: r)
      by (cbn [app]; rewrite <- app_assoc; reflexivity).
    rewrite is_get_while_not_cr by (apply size_field_no_cr; lia).
    rewrite <- !app_assoc. cbn [app]. rewrite <- !app_assoc. cbn [app].
    reflexivity.
Qed.

(** Copying up to the payload of the target, seeking past it and
    copying the rest. *)
Lemma copy_around pre A Pm P2 c :
  exists c1 s1 c2 s2,
  is_get_while (upto (Z.of_nat (length (pre ++ A))))
    (St pre (A ++ Pm ++ P2)) c = (c1, A, s1) /\
  is_get_while always
    (is_seekg s1 (Z.of_nat (length (pre ++ A)) + Z.of_nat (length Pm))) c1
    = (c2, P2, s2).
Proof.
  destruct (Pm ++ P2) as [|b B] eqn:EB.
  - apply app_eq_nil in EB. destruct EB as [-> ->].
    rewrite app_nil_r. do 4 eexists. split.
    + apply is_get_while_upto_end.
    + unfold is_seekg. cbn [failbit]. apply is_get_while_failed.
  - do 4 eexists. split.
    + apply is_get_while_upto_more.
    + rewrite <- Nat2Z.inj_add, <- length_app.
      rewrite (is_seekg_St _ _ ((pre ++ A) ++ Pm) P2).
      * apply is_get_while_always.
      * rewrite <- !app_assoc. cbn [app]. now rewrite EB.
Qed.

Lemma delete_keep ms1 m ms2 :
  wf_members (ms1 ++ m :: ms2) = true ->
  first_match env target skip_deleted (map dirent_of (ms1 ++ m :: ms2))
    = Some (length ms1) ->
  delete_lbr env (lbr_bytes (ms1 ++ m :: ms2)) target skip_deleted false =
  (0, lbr_bytes (ms1 ++ tombstone m :: ms2)).
Proof.
  intros Hwf Hfm. unfold delete_lbr.
  rewrite find_in_members by assumption.
  change (negb (0 =? 0)) with false. cbv iota.
  rewrite !lbr_bytes_split.
  destruct (wf_members_app _ _ _ Hwf) as (Hn & H1 & Hm & H2).
  replace (length (ms1 ++ tombstone m :: ms2)) with (length (ms1 ++ m :: ms2))
    by (rewrite !length_app; reflexivity).
  set (n := Z.of_nat (length (ms1 ++ m :: ms2))) in *.
  set (D1 := directory (map dirent_of ms1)).
  set (D2 := directory (map dirent_of ms2)).
  set (P1 := payload_of ms1). set (P2 := payload_of ms2).
  set (R := dir_record (dirent_of m)).
  destruct (read_header_St env n ((D1 ++ R ++ D2) ++ P1 ++ m_data m ++ P2))
    as [Hsig _]; [exact Hn|].
  rewrite Hsig. cbn [c_str Z.eqb NUL Pos.eqb]. clear Hsig.
  set (X := SP :: to_string n ++ [SP; CR] ++ D1).
  assert (EX : header n ++ D1 = [0x44; 0x57; 0x42] ++ X).
  { unfold header, X. rewrite <- !app_assoc. reflexivity. }
  replace (SP :: to_string n ++ [SP; CR] ++ (D1 ++ R ++ D2) ++ P1 ++ m_data m ++ P2)
    with (X ++ R ++ D2 ++ P1 ++ m_data m ++ P2)
    by (unfold X; cbn [app]; rewrite <- !app_assoc; reflexivity).
  rewrite EX at 1.
  rewrite is_get_while_before by discriminate.
  rewrite <- EX.
  destruct (pass_record (header n ++ D1) (dirent_of m)
              (D2 ++ P1 ++ m_data m ++ P2) (last X (indet_byte env)) Hm)
    as (s1 & s2 & c1 & c2 & E1 & E2 & E3).
  fold R in E1, E3. rewrite E1, E2, E3. clear E1 E2 E3 s1 s2 c1 c2.
  replace (length ((header n ++ D1 ++ R ++ D2) ++ P1))
    with (length (((header n ++ D1) ++ R) ++ D2 ++ P1))
    by (f_equal; rewrite <- !app_assoc; reflexivity).
  rewrite (app_assoc D2 P1).
  destruct (copy_around ((header n ++ D1) ++ R) (D2 ++ P1) (m_data m) P2 CR)
    as (c1 & s1 & c2 & s2 & E1 & E2).
  rewrite E1, E2. clear E1 E2.
  rewrite removelast_last by discriminate. rewrite <- EX.
  f_equal. unfold dir_record. cbn [tombstone dirent_of d_name d_type d_len m_name m_type m_data length Z.of_nat].
  change (to_string 0) with [0x30].
  rewrite <- !app_assoc. reflexivity.
Qed.

Lemma is_get_int_St pre x r : is_get_int (St pre (x :: r)) = (x, St (pre ++ [x]) r).
Proof. unfold is_get_int. now rewrite is_get_St. Qed.

Lemma directory_nonempty m ms : directory (map dirent_of (m :: ms)) <> [].
Proof.
  cbn [map]. rewrite directory_cons. unfold dir_record.
  destruct (d_name (dirent_of m)); discriminate.
Qed.

Lemma delete_wipe m1 ms1 m ms2 :
  wf_members ((m1 :: ms1) ++ m :: ms2) = true ->
  first_match env target skip_deleted (map dirent_of ((m1 :: ms1) ++ m :: ms2))
    = Some (length (m1 :: ms1)) ->
  delete_lbr env (lbr_bytes ((m1 :: ms1) ++ m :: ms2)) target skip_deleted true =
  (0, lbr_bytes ((m1 :: ms1) ++ ms2)).
Proof.
  intros Hwf Hfm. unfold delete_lbr.
  rewrite find_in_members by assumption.
  change (negb (0 =? 0)) with false. cbv iota.
  rewrite lbr_bytes_split.
  destruct (wf_members_app _ _ _ Hwf) as (Hn & H1 & Hm & H2).
  pose proof (directory_nonempty m1 ms1) as HD1.
  assert (Hlen : Z.of_nat (length ((m1 :: ms1) ++ ms2))
                 = Z.of_nat (length ((m1 :: ms1) ++ m :: ms2)) - 1).
  { rewrite !length_app. cbn [length]. lia. }
  unfold lbr_bytes, archive. rewrite length_map, Hlen. clear Hlen.
  rewrite map_app, directory_app, payload_app.
  set (n := Z.of_nat (length ((m1 :: ms1) ++ m :: ms2))) in *.
  set (D1 := directory (map dirent_of (m1 :: ms1))) in *.
  set (D2 := directory (map dirent_of ms2)).
  set (P1 := payload_of (m1 :: ms1)). set (P2 := payload_of ms2).
  set (R := dir_record (dirent_of m)).
  destruct (read_header_St env n ((D1 ++ R ++ D2) ++ P1 ++ m_data m ++ P2))
    as [Hsig _]; [exact Hn|].
  rewrite Hsig. cbn [c_str Z.eqb NUL Pos.eqb]. clear Hsig.
  destruct (to_string_field n Hn) as (Lne & Llen & Lsp).
  rewrite is_get_int_St. cbn [app].
  rewrite is_get_str_St by assumption.
  rewrite !is_get_int_St.
  rewrite atoi_to_string by exact Hn.
  replace ((([0x44; 0x57; 0x42; SP] ++ to_string n) ++ [SP]) ++ [CR])
    with (header n) by (unfold header; rewrite <- !app_assoc; reflexivity).
  rewrite <- (app_assoc D1).
  rewrite is_get_while_before by exact HD1.
  destruct (pass_record (header n ++ D1) (dirent_of m)
              (D2 ++ P1 ++ m_data m ++ P2) (last D1 (indet_byte env)) Hm)
    as (s1 & s2 & c1 & c2 & E1 & E2 & E3).
  fold R in E1, E3. rewrite <- !app_assoc. rewrite E1, E2, E3.
  clear E1 E2 E3 s1 s2 c1 c2.
  replace (header n ++ D1 ++ R ++ D2 ++ P1)
    with (((header n ++ D1) ++ R) ++ (D2 ++ P1))
    by (rewrite <- !app_assoc; reflexivity).
  replace (D2 ++ P1 ++ m_data m ++ P2) with ((D2 ++ P1) ++ m_data m ++ P2)
    by (rewrite <- !app_assoc; reflexivity).
  destruct (copy_around ((header n ++ D1) ++ R) (D2 ++ P1) (m_data m) P2 CR)
    as (c1 & s1 & c2 & s2 & E1 & E2).
  rewrite E1, E2. clear E1 E2.
  rewrite removelast_last by exact HD1.
  f_equal. unfold header. cbn [app]. rewrite <- !app_assoc. reflexivity.
Qed.

Lemma dir_record_fields e r :
  dir_record e ++ r = d_name e ++ CR :: [d_type e] ++ CR :: size_field e ++ r.
Proof.
  unfold dir_record, size_field. rewrite <- !app_assoc. reflexivity.
Qed.

Lemma chtype_any ms1 m ms2 new_type :
  wf_members (ms1 ++ m :: ms2) = true ->
  first_match env target skip_deleted (map dirent_of (ms1 ++ m :: ms2))
    = Some (length ms1) ->
  chtype_lbr env (lbr_bytes (ms1 ++ m :: ms2)) target new_type skip_deleted =
  (0, (header (Z.of_nat (length (ms1 ++ m :: ms2)))
       ++ directory (map dirent_of ms1) ++ m_name m ++ [CR])
      ++ c_str (ascii2petscii env new_type)
      ++ [CR] ++ size_field (dirent_of m)
      ++ directory (map dirent_of ms2) ++ payload_of (ms1 ++ m :: ms2)).
Proof.
  intros Hwf Hfm. unfold chtype_lbr.
  rewrite find_in_members by assumption.
  change (negb (0 =? 0)) with false. cbv iota.
  rewrite lbr_bytes_split.
  destruct (wf_members_app _ _ _ Hwf) as (Hn & H1 & Hm & H2).
  rewrite payload_app, payload_cons.
  set (n := Z.of_nat (length (ms1 ++ m :: ms2))) in *.
  set (D1 := directory (map dirent_of ms1)).
  set (D2 := directory (map dirent_of ms2)).
  set (P := payload_of ms1 ++ m_data m ++ payload_of ms2).
  destruct (read_header_St env n ((D1 ++ dir_record (dirent_of m) ++ D2) ++ P))
    as [Hsig _]; [exact Hn|].
  rewrite Hsig. cbn [c_str Z.eqb NUL Pos.eqb]. clear Hsig.
  set (X := SP :: to_string n ++ [SP; CR] ++ D1).
  assert (EX : header n ++ D1 = [0x44; 0x57; 0x42] ++ X).
  { unfold header, X. rewrite <- !app_assoc. reflexivity. }
  replace (SP :: to_string n ++ [SP; CR] ++ (D1 ++ dir_record (dirent_of m) ++ D2) ++ P)
    with (X ++ dir_record (dirent_of m) ++ D2 ++ P)
    by (unfold X; cbn [app]; rewrite <- !app_assoc; reflexivity).
  rewrite EX at 1.
  rewrite is_get_while_before by discriminate.
  rewrite <- EX.
  apply wf_dirent_spec in Hm.
  destruct Hm as (Hne & Hlen & Hcr & Hnul & Htcr & Htnul & Hl).
  rewrite <- !app_assoc, dir_record_fields.
  rewrite is_get_while_not_cr by exact Hcr.
  rewrite (is_get_while_not_cr _ [d_type (dirent_of m)]);
    [|unfold no_byte; cbn [forallb]; apply Z.eqb_neq in Htcr; now rewrite Htcr].
  rewrite is_get_while_always.
  rewrite removelast_last by discriminate. rewrite <- EX.
  f_equal. cbn [dirent_of d_name]. rewrite <- !app_assoc. reflexivity.
Qed.

End Mutators.

Section Sizes.

Lemma declared_count_archive env es payload :
  0 <= Z.of_nat (length es) <= INT_MAX ->
  declared_count env (archive es payload) = Z.of_nat (length es).
Proof.
  intros Hn. unfold declared_count, archive.
  destruct (read_header_St env (Z.of_nat (length es)) (directory es ++ payload))
    as [Hsig Hcnt]; [exact Hn|].
  rewrite Hsig, Hcnt. cbn [fst]. now apply atoi_to_string.
Qed.

Lemma declared_count_members env ms :
  0 <= Z.of_nat (length ms) <= INT_MAX ->
  declared_count env (lbr_bytes ms) = Z.of_nat (length ms).
Proof.
  intros Hn. unfold lbr_bytes.
  rewrite declared_count_archive; rewrite length_map; [reflexivity|exact Hn].
Qed.

Lemma lbr_bytes_length ms :
  length (lbr_bytes ms) =
  (length (header (Z.of_nat (length ms)))
   + length (directory (map dirent_of ms)) + length (payload_of ms))%nat.
Proof.
  unfold lbr_bytes, archive. rewrite !length_app, length_map. lia.
Qed.

Lemma header_length n : length (header n) = (6 + length (to_string n))%nat.
Proof. unfold header. rewrite !length_app. cbn [length]. lia. Qed.

Lemma dir_record_length e :
  length (dir_record e) = (length (d_name e) + length (to_string (d_len e)) + 6)%nat.
Proof. unfold dir_record. rewrite !length_app. cbn [length]. lia. Qed.

End Sizes.

(** ** The lister *)

Section Lister.

Variable env : Env.

Lemma to_unsigned_range v : 0 <= to_unsigned v < 2 ^ 32.
Proof. unfold to_unsigned. apply Z.mod_pos_bound. lia. Qed.

Lemma bad_len_unsigned u :
  0 <= u < 2 ^ 32 -> bad_len (to_int u) = (MAX_SANE_LENGTH <? u).
Proof.
  intros Hu. unfold bad_len, to_int, MAX_SANE_LENGTH.
  destruct (Z_lt_ge_dec u (2 ^ 31)) as [Hlo|Hhi].
  - rewrite Z.mod_small by lia. zbool; lia.
  - replace (u + 2 ^ 31) with (u - 2 ^ 31 + 1 * 2 ^ 32) by lia.
    rewrite Z.mod_add, Z.mod_small by lia. zbool; lia.
Qed.

Lemma list_read_range : forall n s,
  Forall length_in_range (fst (list_read n s)).
Proof.
  induction n as [|n IH]; intros s; cbn [list_read]; [constructor|].
  destruct (read_dirent s) as [[[name type] len] s1].
  specialize (IH s1). destruct (list_read n s1) as [files s2]. cbn [fst] in *.
  constructor; [apply to_unsigned_range|exact IH].
Qed.

Lemma sort_insert_Forall (P : FileEntry -> Prop) f : forall l,
  P f -> Forall P l -> Forall P (sort_insert f l).
Proof.
  induction l as [|g l IH]; intros Hf Hl; cbn [sort_insert].
  - now constructor.
  - inversion Hl; subst. destruct (num_cmp f g); constructor; auto.
Qed.

Lemma std_sort_Forall (P : FileEntry -> Prop) l :
  Forall P l -> Forall P (std_sort l).
Proof.
  unfold std_sort. intros H.
  assert (G : forall acc, Forall P acc ->
            Forall P (fold_left (fun acc f => sort_insert f acc) l acc)).
  { induction H as [|f l Hf _ IH]; intros acc Hacc; cbn [fold_left]; [exact Hacc|].
    apply IH. now apply sort_insert_Forall. }
  apply G. constructor.
Qed.

Lemma list_print_spec skip_deleted : forall files cout,
  Forall length_in_range files ->
  list_print env skip_deleted files cout =
  cout ++ render_listing env skip_deleted files.
Proof.
  induction files as [|f files IH]; intros cout Hr; cbn [list_print].
  - cbn. now rewrite app_nil_r.
  - inversion Hr as [|? ? Hf Hfs]; subst.
    unfold render_listing. cbn [flat_map]. fold (render_listing env skip_deleted files).
    unfold survives.
    change (bytes_of "D") with [0x44].
    destruct (list_eqb (fe_type f) [0x44] && skip_deleted); cbn [negb].
    + destruct (verbose env); rewrite IH by exact Hfs;
        [rewrite <- app_assoc|]; reflexivity.
    + rewrite IH by exact Hfs. rewrite <- app_assoc. f_equal. cbn [app]. f_equal.
      unfold render_entry, declared_length.
      rewrite bad_len_unsigned by exact Hf. cbn [orb].
      unfold str_lparen, str_rparen, str_bad.
      destruct (MAX_SANE_LENGTH <? fe_length f), (verbose env); cbn [andb];
        rewrite <- ?app_assoc, ?app_nil_r; reflexivity.
Qed.

Lemma list_lbr_spec file data skip_deleted sort_numerical :
  valid_signature env data = true ->
  list_lbr env file data skip_deleted sort_numerical =
  (0, listing_head env file data
      ++ render_listing env skip_deleted (listed_entries env data sort_numerical)).
Proof.
  unfold valid_signature, list_lbr, listed_entries, listing_head.
  destruct (read_signature env (open data)) as [sg s]. cbn [fst].
  intros ->. cbn [negb].
  destruct (read_count s) as [count s1].
  pose proof (list_read_range (Z.to_nat (atoi count)) s1) as Hr.
  destruct (list_read (Z.to_nat (atoi count)) s1) as [files s2]. cbn [fst] in *.
  f_equal. rewrite list_print_spec.
  - unfold str_entries. destruct (verbose env); reflexivity.
  - destruct sort_numerical; [now apply std_sort_Forall|exact Hr].
Qed.

End Lister.

(** ** Building and listing *)

Section BuildList.

Variable env : Env.
Variable fs : FS.

Lemma strtol_to_string n : 0 <= n <= LONG_MAX -> strtol (to_string n) = n.
Proof.
  intros Hn. unfold strtol.
  pose proof (to_string_isdigit n (proj1 Hn)) as Hd.
  pose proof (digits_val_to_string n [] (proj1 Hn)) as Hv.
  rewrite app_nil_r in Hv. cbn [digits_val] in Hv.
  destruct (to_string n) as [|c r] eqn:E; [now apply to_string_nonempty in E|].
  cbn [forallb] in Hd. apply andb_prop in Hd. destruct Hd as [Hc _].
  destruct (isdigit_props c Hc) as (Hs & Hm & Hp & _).
  cbn [skip_space]. rewrite Hs, Hm, Hp, Hv.
  unfold LONG_MIN, LONG_MAX in *. lia.
Qed.

Lemma unsigned_atoi_to_string n :
  0 <= n < 2 ^ 32 -> to_unsigned (atoi (to_string n)) = n.
Proof.
  intros Hn. unfold atoi. rewrite strtol_to_string by (unfold LONG_MAX; lia).
  unfold to_unsigned, to_int.
  destruct (Z_lt_ge_dec n (2 ^ 31)) as [Hlo|Hhi].
  - rewrite (Z.mod_small (n + 2 ^ 31)) by lia.
    rewrite Z.mod_small by lia. lia.
  - replace (n + 2 ^ 31) with (n - 2 ^ 31 + 1 * 2 ^ 32) by lia.
    rewrite Z.mod_add, (Z.mod_small (n - 2 ^ 31)) by lia.
    replace (n - 2 ^ 31 - 2 ^ 31) with (n + (-1) * 2 ^ 32) by lia.
    rewrite Z.mod_add by lia. apply Z.mod_small. lia.
Qed.

Lemma list_read_directory : forall es pre r,
  forallb readable_dirent es = true ->
  list_read (length es) (St pre (directory es ++ r)) =
  (map listed_of es, St (pre ++ directory es) r).
Proof.
  induction es as [|e es IH]; intros pre r Hes.
  - cbn. now rewrite app_nil_r.
  - cbn [forallb] in Hes. apply andb_prop in Hes. destruct Hes as [He Hes].
    cbn [length list_read]. rewrite directory_cons, <- app_assoc.
    rewrite read_dirent_readable by exact He.
    rewrite IH by exact Hes. rewrite app_assoc. reflexivity.
Qed.

Lemma encoded_char_plain b :
  ascii2petscii_char env b <> CR /\ ascii2petscii_char env b <> NUL.
Proof.
  unfold ascii2petscii_char, char_val, char_store, CR, NUL.
  destruct (char_signed env); cbn [andb]; cbv zeta.
  - destruct (Z.leb_spec 128 b); zbool; try lia;
      try (rewrite Z.mod_small by lia; lia).
  - zbool; try lia; rewrite Z.mod_small by lia; lia.
Qed.

Lemma encoded_plain name :
  convert_petscii env = true ->
  no_byte CR (ascii2petscii env name) = true /\
  no_byte NUL (ascii2petscii env name) = true.
Proof.
  intros Hc. unfold ascii2petscii, no_byte. rewrite Hc. cbn [negb].
  induction name as [|b name [IH1 IH2]]; [split; reflexivity|].
  cbn [map forallb]. rewrite IH1, IH2, !andb_true_r.
  destruct (encoded_char_plain b) as [H1 H2].
  apply Z.eqb_neq in H1, H2. now rewrite H1, H2.
Qed.

Lemma encoded_length name : length (ascii2petscii env name) = length name.
Proof.
  unfold ascii2petscii. destruct (convert_petscii env); cbn [negb];
    [apply length_map|reflexivity].
Qed.

Lemma type_of_cases name len :
  In (type_of name len) [0x44; 0x50; 0x55; 0x52; 0x53].
Proof.
  unfold type_of. cbv zeta.
  repeat match goal with
  | |- context [if ?c then _ else _] => destruct c
  end; cbn; tauto.
Qed.

Lemma type_of_decoded name len :
  petscii2ascii env [type_of name len] = [type_of name len].
Proof.
  unfold petscii2ascii. destruct (convert_petscii env); cbn [negb map]; [|reflexivity].
  f_equal. unfold petscii2ascii_char.
  pose proof (type_of_cases name len) as H. cbn [In] in H.
  rewrite char_val_ascii by lia. cbv zeta. zbool; lia.
Qed.

Lemma source_ok_spec i :
  source_ok env fs i = true ->
  0 <= source_length fs i < 2 ^ 32 /\
  fs i <> None /\
  (1 <= length (filename i) <= 255)%nat /\
  no_byte CR (ascii2petscii env (filename i)) = true /\
  no_byte NUL (ascii2petscii env (filename i)) = true.
Proof.
  unfold source_ok, source_length. intros H.
  apply andb_prop in H. destruct H as [H Hc].
  apply andb_prop in H. destruct H as [H Hhi].
  apply andb_prop in H. destruct H as [Hf Hlo].
  apply Z.leb_le in Hhi, Hlo.
  destruct (fs i) as [d|]; [|discriminate]. apply Z.ltb_lt in Hf.
  split; [lia|]. split; [discriminate|]. split; [lia|].
  destruct (convert_petscii env) eqn:Ec.
  - now apply encoded_plain.
  - cbn [orb] in Hc. apply andb_prop in Hc.
    unfold ascii2petscii. rewrite Ec. exact Hc.
Qed.

Lemma stat_inputs_ok : forall input,
  forallb (source_ok env fs) input = true ->
  stat_inputs env fs input = Returned (map (source_entry env fs) input).
Proof.
  induction input as [|i input IH]; intros H; [reflexivity|].
  cbn [forallb] in H. apply andb_prop in H. destruct H as [Hi H].
  cbn [stat_inputs map]. rewrite IH by exact H.
  destruct (source_ok_spec i Hi) as (Hlen & Hex & _).
  unfold source_entry, source_length in *.
  destruct (fs i) as [d|]; [|contradiction].
  unfold to_unsigned. rewrite Z.mod_small by exact Hlen. reflexivity.
Qed.

Lemma write_entry_source i :
  write_entry env false (source_entry env fs i) =
  dir_record (source_dirent env fs i).
Proof. reflexivity. Qed.

Lemma source_readable i :
  source_ok env fs i = true -> readable_dirent (source_dirent env fs i) = true.
Proof.
  intros H. destruct (source_ok_spec i H) as (Hlen & _ & Hn & Hcr & _).
  unfold readable_dirent, source_dirent. cbn [d_name d_type d_len].
  rewrite encoded_length, Hcr.
  assert (Ht : source_type fs i <> CR).
  { unfold source_type.
    pose proof (type_of_cases (filename i) (source_length fs i)) as Hc.
    cbn [In] in Hc. unfold CR. lia. }
  apply Z.eqb_neq in Ht. rewrite Ht. unfold LONG_MAX. cbn [negb].
  zbool; lia.
Qed.

Lemma build_lbr_plain outfile input :
  forallb (source_ok env fs) input = true ->
  build_lbr env fs outfile input false false false =
  Returned (0, fs_write fs outfile
                 (archive (map (source_dirent env fs) input)
                    (flat_map (write_payload env (fs_write fs outfile []))
                              (map (source_entry env fs) input)))).
Proof.
  intros H. unfold build_lbr. rewrite stat_inputs_ok by exact H.
  unfold archive, header, directory. rewrite !length_map.
  assert (E : flat_map (write_entry env false) (map (source_entry env fs) input)
              = flat_map dir_record (map (source_dirent env fs) input)).
  { clear H. induction input as [|i input IH]; [reflexivity|].
    cbn [map flat_map]. now rewrite IH, write_entry_source. }
  rewrite E, <- !app_assoc. reflexivity.
Qed.

Lemma render_source i :
  source_ok env fs i = true ->
  render_entry env (listed_of (source_dirent env fs i)) = source_line env fs i.
Proof.
  intros H. destruct (source_ok_spec i H) as (Hlen & _ & _ & _ & Hnul).
  unfold render_entry, listed_of, source_line, declared_length.
  cbn [fe_name fe_type fe_length source_dirent d_name d_type d_len].
  rewrite c_str_no_nul by exact Hnul.
  rewrite unsigned_atoi_to_string by exact Hlen.
  rewrite bad_len_unsigned by exact Hlen.
  assert (Ht : c_str [source_type fs i] = [source_type fs i]).
  { apply c_str_no_nul. unfold no_byte, source_type. cbn [forallb].
    pose proof (type_of_cases (filename i) (source_length fs i)) as Hc.
    cbn [In] in Hc.
    destruct (Z.eqb_spec (type_of (filename i) (source_length fs i)) NUL) as [E|];
      [unfold NUL in E; lia|reflexivity]. }
  rewrite Ht. unfold source_type. rewrite type_of_decoded. reflexivity.
Qed.

Lemma list_lbr_built file input payload :
  forallb (source_ok env fs) input = true ->
  Z.of_nat (length input) <= INT_MAX ->
  list_lbr env file (archive (map (source_dirent env fs) input) payload)
           false false =
  (0, (if verbose env
       then [filename file ++ bytes_of " "
             ++ to_string (Z.of_nat (length input)) ++ bytes_of " entries"]
       else [])
      ++ map (source_line env fs) input).
Proof.
  intros Hok Hn.
  assert (Hrd : forallb readable_dirent (map (source_dirent env fs) input) = true).
  { rewrite forallb_forall in *. intros e He. apply in_map_iff in He.
    destruct He as (i & <- & Hi). apply source_readable. now apply Hok. }
  set (es := map (source_dirent env fs) input) in *.
  destruct (read_header_St env (Z.of_nat (length es)) (directory es ++ payload))
    as [Hsig Hcnt]; [unfold es; rewrite length_map; lia|].
  rewrite list_lbr_spec;
    [|unfold valid_signature, archive; now rewrite Hsig].
  unfold listing_head, listed_entries, archive. rewrite Hsig, Hcnt.
  rewrite atoi_to_string by (unfold es; rewrite length_map; lia).
  rewrite Nat2Z.id, list_read_directory by exact Hrd. cbn [fst].
  unfold es at 1 2. rewrite length_map. f_equal. f_equal.
  unfold render_listing, es. clear Hrd Hsig Hcnt es Hn.
  induction input as [|i input IH]; [reflexivity|].
  cbn [forallb] in Hok. apply andb_prop in Hok. destruct Hok as [Hi Hok].
  cbn [map flat_map]. unfold survives at 1. rewrite andb_false_r. cbn [negb app].
  rewrite render_source by exact Hi. now rewrite IH.
Qed.

End BuildList.

(** ** Numeric padding *)

Section Padding.

Variable env : Env.

Lemma last_any {A} (l : list A) a b : l <> [] -> last l a = last l b.
Proof.
  induction l as [|x l IH]; intros H; [contradiction|].
  destruct l; [reflexivity|]. cbn [last] in *. apply IH. discriminate.
Qed.

Lemma insert_at_app prefix f rest :
  insert_at (length prefix) f (prefix ++ rest) = prefix ++ f :: rest.
Proof.
  unfold insert_at.
  rewrite firstn_app, firstn_all, Nat.sub_diag, firstn_0, app_nil_r.
  rewrite skipn_app, skipn_all, Nat.sub_diag. reflexivity.
Qed.

Lemma pad_while_app first : forall k i prefix rest,
  Z.of_nat (length prefix) = i - first ->
  pad_while env k first i (prefix ++ rest) =
  prefix ++ map (filler env) (zseq i k) ++ rest.
Proof.
  induction k as [|k IH]; intros i prefix rest Hp; [reflexivity|].
  cbn [pad_while zseq map].
  replace (Z.to_nat (i - first)) with (length prefix) by lia.
  rewrite insert_at_app.
  change (prefix ++ filler env i :: rest) with (prefix ++ [filler env i] ++ rest).
  rewrite app_assoc, IH.
  - rewrite <- app_assoc. reflexivity.
  - rewrite length_app. cbn [length]. lia.
Qed.

Lemma zseq_length : forall k i, length (zseq i k) = k.
Proof. induction k as [|k IH]; intros i; cbn [zseq length]; [|rewrite IH]; reflexivity. Qed.

Lemma pad_loop_done fuel first last_ i files :
  last_ <= i -> pad_loop env fuel first last_ i files = Returned files.
Proof.
  intros H. destruct fuel; cbn [pad_loop];
    destruct (Z.ltb_spec i last_); try lia; reflexivity.
Qed.

Lemma pad_loop_returns first last_ d : forall fuel i prefix rest,
  rest <> [] ->
  name_value (last rest d) = last_ ->
  Forall (fun f => name_value f < INT_MAX) rest ->
  Z.of_nat (length prefix) = i - first ->
  last_ - i <= Z.of_nat fuel ->
  exists files, pad_loop env fuel first last_ i (prefix ++ rest) = Returned files.
Proof.
  induction fuel as [|fuel IH]; intros i prefix rest Hne Hlast Hmax Hp Hfuel.
  - eexists. apply pad_loop_done. cbn in Hfuel. lia.
  - destruct (Z_lt_ge_dec i last_) as [Hlt|Hge];
      [|eexists; apply pad_loop_done; lia].
    destruct rest as [|x rest]; [contradiction|].
    cbn [pad_loop]. destruct (Z.ltb_spec i last_); [|lia].
    replace (Z.to_nat (i - first)) with (length prefix) by lia.
    rewrite nth_error_app2, Nat.sub_diag by lia. cbn [nth_error].
    fold (name_value x).
    assert (Hl : last_ < INT_MAX).
    { rewrite Forall_forall in Hmax. rewrite <- Hlast. apply Hmax.
      destruct (exists_last Hne) as (l' & a & E). rewrite E, last_last.
      apply in_or_app. right. now left. }
    apply Forall_cons_iff in Hmax. destruct Hmax as [Hx Hrest].
    destruct (Z.eqb_spec (Z.max i (name_value x)) INT_MAX) as [E|_]; [lia|].
    rewrite pad_while_app by exact Hp.
    set (k := Z.to_nat (name_value x - i)).
    destruct rest as [|y rest].
    + cbn [last] in Hlast. eexists. apply pad_loop_done. lia.
    + replace (prefix ++ map (filler env) (zseq i k) ++ x :: y :: rest)
        with ((prefix ++ map (filler env) (zseq i k) ++ [x]) ++ y :: rest)
        by (rewrite <- !app_assoc; reflexivity).
      apply IH.
      * discriminate.
      * exact Hlast.
      * exact Hrest.
      * rewrite !length_app, length_map, zseq_length. cbn [length]. lia.
      * lia.
Qed.

Lemma sort_insert_nonempty f l : sort_insert f l <> [].
Proof. destruct l as [|g l]; cbn [sort_insert]; [|destruct (num_cmp f g)]; discriminate. Qed.

Lemma std_sort_nonempty l : l <> [] -> std_sort l <> [].
Proof.
  unfold std_sort. intros H.
  assert (G : forall l acc, acc <> [] ->
            fold_left (fun acc f => sort_insert f acc) l acc <> []).
  { clear. induction l as [|f l IH]; intros acc Hacc; cbn [fold_left]; [exact Hacc|].
    apply IH, sort_insert_nonempty. }
  destruct l as [|f l]; [contradiction|]. cbn [fold_left].
  apply G, sort_insert_nonempty.
Qed.

Lemma stat_inputs_exists fs : forall input,
  forallb (exists_in fs) input = true ->
  stat_inputs env fs input = Returned (map (stat_entry env fs) input).
Proof.
  induction input as [|i input IH]; intros H; [reflexivity|].
  cbn [forallb] in H. apply andb_prop in H. destruct H as [Hi H].
  cbn [stat_inputs map]. rewrite IH by exact H.
  unfold exists_in, stat_entry, source_length in *.
  destruct (fs i); [reflexivity|discriminate].
Qed.

Lemma pad_sorted_spec files f0 :
  files <> [] ->
  let first := name_value (hd f0 files) in
  let last_ := name_value (last files f0) in
  (last_ <= first -> pad_sorted env files = Returned PadFail) /\
  (first < last_ ->
   (forall r, pad_sorted env files = Returned r -> r <> PadFail) /\
   (Forall (fun f => name_value f < INT_MAX) files ->
    exists padded, pad_sorted env files = Returned (PadOk padded))).
Proof.
  intros Hne first last_. destruct files as [|f files]; [contradiction|].
  assert (El : last (f :: files) f = last (f :: files) f0).
  { apply last_any. discriminate. }
  unfold pad_sorted. rewrite El. fold (name_value (last (f :: files) f0)).
  fold (name_value f). cbn [hd] in first. fold first last_.
  split.
  - intros H. destruct (Z.leb_spec last_ first); [reflexivity|lia].
  - intros H. destruct (Z.leb_spec last_ first); [lia|]. split.
    + intros r. destruct (pad_loop _ _ _ _ _ _); intros E; inversion E; discriminate.
    + intros Hmax.
      destruct (pad_loop_returns first last_ f0 (Z.to_nat (last_ - first)) first
                  [] (f :: files)) as [padded E].
      * discriminate.
      * reflexivity.
      * exact Hmax.
      * cbn [length]. lia.
      * lia.
      * cbn [app] in E. rewrite E. now eexists.
Qed.

End Padding.

(** ** Extraction *)

Section Extract.

Variable env : Env.

Lemma rest_length s : in_bounds s -> (pos s + length (rest s) = length (buf s))%nat.
Proof. unfold in_bounds, rest. rewrite length_skipn. lia. Qed.

Lemma take_field_length d : forall n l,
  (length (fst (take_field n d l)) <= length l)%nat.
Proof.
  induction n as [|n IH]; intros l; cbn [take_field]; [cbn; lia|].
  destruct l as [|c r]; [cbn; lia|].
  destruct (c =? d); [cbn; lia|].
  specialize (IH r). destruct (take_field n d r) as [f e]. cbn [fst length] in *. lia.
Qed.

Lemma is_get_str_bounds s n d : in_bounds s -> in_bounds (snd (is_get_str s n d)).
Proof.
  intros H. unfold is_get_str. destruct (good s); [|exact H].
  pose proof (take_field_length d (n - 1) (rest s)) as Hl.
  pose proof (rest_length s H) as Hr.
  destruct (take_field (n - 1) d (rest s)) as [f e]. cbn [fst snd] in *.
  unfold in_bounds. cbn [pos buf]. lia.
Qed.

Lemma is_ignore_bounds s n : in_bounds s -> in_bounds (is_ignore s n).
Proof.
  intros H. unfold is_ignore. destruct (good s); [|exact H].
  pose proof (rest_length s H) as Hr.
  destruct (Z.leb_spec n (Z.of_nat (length (rest s)))); unfold in_bounds; cbn [pos buf]; lia.
Qed.

Lemma is_read_bounds s n : in_bounds s -> in_bounds (snd (is_read s n)).
Proof.
  intros H. unfold is_read. destruct (good s); [|exact H].
  pose proof (rest_length s H) as Hr.
  destruct (Z.leb_spec n (Z.of_nat (length (rest s)))); unfold in_bounds; cbn [snd pos buf]; lia.
Qed.

Lemma read_dirent_bounds s : in_bounds s -> in_bounds (snd (read_dirent s)).
Proof.
  intros H. unfold read_dirent.
  pose proof (is_get_str_bounds s 256 CR H) as H1.
  destruct (is_get_str s 256 CR) as [name s1]. cbn [snd] in H1.
  apply (is_ignore_bounds _ 1) in H1.
  pose proof (is_get_str_bounds _ 256 CR H1) as H2.
  destruct (is_get_str (is_ignore s1 1) 256 CR) as [type s2]. cbn [snd] in H2.
  apply (is_ignore_bounds _ 1), (is_ignore_bounds _ 1) in H2.
  pose proof (is_get_str_bounds _ 256 SP H2) as H3.
  destruct (is_get_str (is_ignore (is_ignore s2 1) 1) 256 SP) as [len s3].
  cbn [snd] in *.
  now apply (is_ignore_bounds _ 1), (is_ignore_bounds _ 1) in H3.
Qed.

Lemma extract_read_bounds : forall n i s,
  in_bounds s -> in_bounds (snd (extract_read env n i s)).
Proof.
  induction n as [|n IH]; intros i s H; cbn [extract_read]; [exact H|].
  pose proof (read_dirent_bounds s H) as H1.
  destruct (read_dirent s) as [[[name type] len] s1]. cbn [snd] in H1.
  specialize (IH (S i) s1 H1).
  destruct (extract_read env n (S i) s1) as [files s2]. exact IH.
Qed.

Lemma extract_directory_bounds data : in_bounds (snd (extract_directory env data)).
Proof.
  unfold extract_directory, read_signature, read_count.
  assert (H0 : in_bounds (open data)) by (unfold in_bounds; cbn; lia).
  pose proof (is_read_bounds _ 3 H0) as H1.
  destruct (is_read (open data) 3) as [sg s1]. cbn [snd] in H1.
  apply (is_ignore_bounds _ 1) in H1.
  pose proof (is_get_str_bounds _ 256 SP H1) as H2.
  destruct (is_get_str (is_ignore s1 1) 256 SP) as [count s2]. cbn [snd] in H2.
  apply (is_ignore_bounds _ 1), (is_ignore_bounds _ 1) in H2.
  now apply extract_read_bounds.
Qed.

Variable dest_folder : list Z.
Variable targets : list (list Z).
Variable skip_deleted add_extension : bool.

Lemma extract_loop_bounds : forall files s fs s' fs',
  Forall not_flagged files ->
  in_bounds s ->
  extract_loop env dest_folder targets skip_deleted add_extension files s fs
    = Returned (s', fs') ->
  in_bounds s'.
Proof.
  induction files as [|f files IH]; intros s fs s' fs' Hnf Hb E.
  - cbn in E. now inversion E; subst.
  - apply Forall_cons_iff in Hnf. destruct Hnf as [Hf Hnf].
    unfold not_flagged in Hf. cbn [extract_loop] in E. rewrite Hf in E.
    destruct (fe_length f =? 0); [now apply (IH _ _ _ _ Hnf Hb E)|].
    destruct (list_eqb (fe_type f) (bytes_of "D") && skip_deleted).
    { apply (IH _ _ _ _ Hnf) in E; [exact E|now apply is_ignore_bounds]. }
    match type of E with
    | (let (_, _) := is_read ?s0 _ in _) = _ =>
      assert (Hs0 : in_bounds s0);
        [|pose proof (is_read_bounds s0 (fe_length f) Hs0) as Hr;
          destruct (is_read s0 (fe_length f)) as [b s1]; cbn [snd] in Hr;
          now apply (IH _ _ _ _ Hnf Hr E)]
    end.
    destruct targets; [exact Hb|].
    destruct (negb _); [now apply is_ignore_bounds|exact Hb].
Qed.

Lemma extract_loop_reaches : forall pre f post s fs s1 fs1,
  Forall not_flagged pre ->
  extract_loop env dest_folder targets skip_deleted add_extension pre s fs
    = Returned (s1, fs1) ->
  bad_length f = true ->
  extract_loop env dest_folder targets skip_deleted add_extension
               (pre ++ f :: post) s fs
  = glob_rest env dest_folder f s1 fs1.
Proof.
  induction pre as [|e pre IH]; intros f post s fs s1 fs1 Hnf E Hf.
  - cbn in E. inversion E; subst. cbn [app extract_loop]. now rewrite Hf.
  - apply Forall_cons_iff in Hnf. destruct Hnf as [He Hnf].
    unfold not_flagged in He. cbn [app extract_loop] in *. rewrite He in *.
    destruct (fe_length e =? 0); [now apply IH|].
    destruct (list_eqb (fe_type e) (bytes_of "D") && skip_deleted); [now apply IH|].
    match type of E with
    | (let (_, _) := is_read ?s0 _ in _) = _ =>
      destruct (is_read s0 (fe_length e)) as [b s2]
    end.
    now apply IH.
Qed.

Lemma to_int_small v : 0 <= v < 2 ^ 31 -> to_int v = v.
Proof. intros H. unfold to_int. rewrite Z.mod_small by lia. lia. Qed.

Lemma glob_rest_good f s fs :
  good s = true -> in_bounds s -> Z.of_nat (length (rest s)) < 2 ^ 31 ->
  exists s',
  glob_rest env dest_folder f s fs =
  Returned (s', fs_write (fs_write fs (path_append dest_folder (fe_name f)) [])
                         (path_append dest_folder (fe_name f)) (rest s)).
Proof.
  intros Hg Hb Hlen. pose proof (rest_length s Hb) as Hr.
  destruct s as [b p e fl]. unfold good in Hg. cbn [eofbit failbit] in Hg.
  apply andb_prop in Hg. destruct Hg as [He Hf].
  apply negb_true_iff in He, Hf. subst e fl.
  unfold glob_rest, is_tellg, is_seekg_end, is_seekg, good.
  cbn [eofbit failbit negb andb pos buf] in *.
  destruct (Z.ltb_spec (Z.of_nat p) 0); [lia|].
  rewrite to_int_small by lia.
  destruct (Z.ltb_spec (Z.of_nat (length b) - Z.of_nat p) 0); [lia|].
  unfold is_read, good. cbn [eofbit failbit negb andb pos buf].
  rewrite Nat2Z.id.
  destruct (Z.leb_spec (Z.of_nat (length b) - Z.of_nat p)
              (Z.of_nat (length (rest (mkIS b p false false))))); [|lia].
  unfold filled.
  replace (Z.to_nat (Z.of_nat (length b) - Z.of_nat p))
    with (length (rest (mkIS b p false false))) by lia.
  rewrite firstn_all. rewrite Nat.sub_diag. cbn [repeat].
  rewrite app_nil_r. now eexists.
Qed.

Lemma list_eqb_refl a : list_eqb a a = true.
Proof. now apply list_eqb_eq. Qed.

Lemma fs_write_same fs p d : fs_write fs p d p = Some d.
Proof. unfold fs_write. now rewrite list_eqb_refl. Qed.

Lemma fs_write_other fs p d q : q <> p -> fs_write fs p d q = fs q.
Proof.
  intros H. unfold fs_write. destruct (list_eqb q p) eqn:E; [|reflexivity].
  apply list_eqb_eq in E. contradiction.
Qed.

Lemma extract_lbr_glob fs data pre f post s0 s1 fs1 :
  valid_signature env data = true ->
  extract_directory env data = (pre ++ f :: post, s0) ->
  Forall not_flagged pre ->
  bad_length f = true ->
  extract_loop env dest_folder targets skip_deleted add_extension pre s0 fs
    = Returned (s1, fs1) ->
  good s1 = true ->
  Z.of_nat (length (rest s1)) < 2 ^ 31 ->
  exists fs2,
    extract_lbr env fs data dest_folder targets skip_deleted add_extension
      = Returned (0, fs2) /\
    fs2 (path_append dest_folder (fe_name f)) = Some (rest s1) /\
    forall p, p <> path_append dest_folder (fe_name f) -> fs2 p = fs1 p.
Proof.
  intros Hsig Hdir Hnf Hf Hpre Hg Hlen.
  assert (Hb1 : in_bounds s1).
  { apply (extract_loop_bounds pre s0 fs s1 fs1 Hnf); [|exact Hpre].
    pose proof (extract_directory_bounds data) as H. now rewrite Hdir in H. }
  destruct (glob_rest_good f s1 fs1 Hg Hb1 Hlen) as [s2 Eg].
  unfold extract_lbr. unfold valid_signature in Hsig.
  destruct (read_signature env (open data)) as [sg s]. cbn [fst] in Hsig.
  rewrite Hsig, Hdir. cbn [negb].
  rewrite (extract_loop_reaches pre f post s0 fs s1 fs1 Hnf Hpre Hf), Eg.
  eexists. split; [reflexivity|]. split.
  - apply fs_write_same.
  - intros p Hp. now rewrite !fs_write_other by exact Hp.
Qed.

End Extract.

(** ** Appending *)

Section Append.

Variable env : Env.
Variable fs : FS.

Lemma c_str_digits n : 0 <= n -> c_str (to_string n) = to_string n.
Proof.
  intros Hn. apply c_str_no_nul.
  apply no_byte_digits; [reflexivity|now apply to_string_isdigit].
Qed.

Lemma add_copy_record e pre r tmpf offset n :
  wf_dirent e = true ->
  add_copy_dir env (S n) (St pre (dir_record e ++ r)) tmpf offset =
  add_copy_dir env n (St (pre ++ dir_record e) r) (tmpf ++ dir_record e)
               (offset + d_len e).
Proof.
  intros Hwf. pose proof (atoi_len_wf e Hwf) as Hat.
  pose proof (bad_len_wf e Hwf) as Hbad.
  apply wf_dirent_spec in Hwf.
  destruct Hwf as (Hne & Hlen & Hcr & Hnul & Htcr & Htnul & Hl).
  pose proof max_sane_int as Hmax.
  destruct (to_string_field (d_len e)) as (Lne & Llen & Lsp); [lia|].
  cbn [add_copy_dir]. rewrite dir_record_fields.
  rewrite is_get_while_not_cr by exact Hcr.
  rewrite (is_get_while_not_cr _ [d_type e]);
    [|unfold no_byte; cbn [forallb]; apply Z.eqb_neq in Htcr; now rewrite Htcr].
  unfold size_field. rewrite <- !app_assoc. cbn [app].
  rewrite is_get_int_St, is_get_str_St by assumption.
  rewrite !is_get_int_St, Hat, Hbad, c_str_digits by lia.
  f_equal.
  - f_equal. unfold dir_record. rewrite <- !app_assoc. reflexivity.
  - unfold dir_record. rewrite <- !app_assoc. reflexivity.
Qed.

Lemma add_copy_dir_wf : forall es pre r tmpf offset,
  forallb wf_dirent es = true ->
  add_copy_dir env (length es) (St pre (directory es ++ r)) tmpf offset =
  Some (St (pre ++ directory es) r, tmpf ++ directory es, offset + sum_len es).
Proof.
  induction es as [|e es IH]; intros pre r tmpf offset Hes.
  - cbn. rewrite !app_nil_r. do 2 f_equal. lia.
  - cbn [forallb] in Hes. apply andb_prop in Hes. destruct Hes as [He Hes].
    cbn [length]. rewrite directory_cons, <- app_assoc.
    rewrite add_copy_record by exact He. rewrite IH by exact Hes.
    rewrite sum_len_cons, <- !app_assoc, Z.add_assoc. reflexivity.
Qed.

Lemma no_byte_firstn b k l : no_byte b l = true -> no_byte b (firstn k l) = true.
Proof.
  unfold no_byte. revert k. induction l as [|c l IH]; intros k H.
  - now rewrite firstn_nil.
  - destruct k; [reflexivity|]. cbn [firstn forallb] in *.
    apply andb_prop in H. destruct H as [Hc Hl]. now rewrite Hc, IH.
Qed.

Lemma written_name_no_nul strip i :
  source_ok env fs i = true ->
  no_byte NUL (written_name env strip (filename i)) = true.
Proof.
  intros H. unfold source_ok in H.
  apply andb_prop in H. destruct H as [_ Hc].
  unfold written_name.
  destruct (convert_petscii env) eqn:Ec.
  - destruct strip; [destruct (find_last_of DOT (filename i))|];
      now apply encoded_plain.
  - cbn [orb] in Hc. apply andb_prop in Hc. destruct Hc as [_ Hn].
    unfold ascii2petscii. rewrite Ec. cbn [negb].
    destruct strip; [destruct (find_last_of DOT (filename i))|];
      try exact Hn. now apply no_byte_firstn.
Qed.

Lemma source_data_length i :
  source_ok env fs i = true ->
  Z.of_nat (length (source_data fs i)) = source_length fs i.
Proof.
  intros H. destruct (source_ok_spec env fs i H) as (_ & Hex & _).
  unfold source_data, source_length. destruct (fs i); [reflexivity|contradiction].
Qed.

Lemma add_entry_source strip i :
  source_ok env fs i = true ->
  add_entry env strip (source_entry env fs i) =
  dir_record (dirent_of (source_member env fs strip i)).
Proof.
  intros H. destruct (source_ok_spec env fs i H) as (Hlen & _).
  unfold add_entry, dir_record, dirent_of, source_member, source_entry.
  cbn [fe_name fe_length d_name d_type d_len m_name m_type m_data].
  rewrite c_str_no_nul by now apply written_name_no_nul.
  rewrite c_str_digits by lia.
  rewrite source_data_length by exact H. reflexivity.
Qed.

Lemma write_payload_source i :
  source_ok env fs i = true ->
  write_payload env fs (source_entry env fs i) = source_data fs i.
Proof.
  intros H. pose proof (source_data_length i H) as Hl.
  destruct (source_ok_spec env fs i H) as (_ & Hex & _).
  unfold write_payload, source_entry. cbn [fe_length fe_path].
  unfold source_data in *. rewrite <- Hl.
  destruct (fs i) as [d|]; [|contradiction].
  destruct (Z.eqb_spec (Z.of_nat (length d)) 0) as [E|E].
  - destruct d; [reflexivity|cbn [length] in E; lia].
  - rewrite open_St. rewrite <- (app_nil_r d) at 2.
    rewrite is_read_St. cbn [fst]. unfold filled.
    rewrite Nat2Z.id, Nat.sub_diag. apply app_nil_r.
Qed.

Lemma add_lbr_members ms targets strip :
  wf_members ms = true ->
  forallb (source_ok env fs) targets = true ->
  Z.of_nat (length ms + length targets) <= INT_MAX ->
  add_lbr env fs (lbr_bytes ms) targets strip =
  Returned (0, lbr_bytes (ms ++ map (source_member env fs strip) targets)).
Proof.
  intros Hwf Hok Hcount. unfold wf_members, wf_directory in Hwf.
  apply andb_prop in Hwf. destruct Hwf as [Hn Hes]. apply Z.leb_le in Hn.
  rewrite length_map in Hn.
  unfold add_lbr, lbr_bytes, archive. rewrite !length_map.
  set (es := map dirent_of ms) in *.
  set (n := Z.of_nat (length ms)) in *.
  destruct (read_header_St env n (directory es ++ payload_of ms))
    as [Hsig _]; [lia|].
  rewrite Hsig. cbn [sig_ok Z.eqb Pos.eqb andb negb c_str NUL]. cbv iota.
  destruct (to_string_field n ltac:(lia)) as (Lne & Llen & Lsp).
  rewrite is_get_int_St. cbn [app].
  rewrite is_get_str_St by assumption.
  rewrite !is_get_int_St, atoi_to_string by lia.
  rewrite stat_inputs_ok by exact Hok.
  replace ((([0x44; 0x57; 0x42; SP] ++ to_string n) ++ [SP]) ++ [CR])
    with (header n) by (unfold header; rewrite <- !app_assoc; reflexivity).
  replace (Z.to_nat n) with (length es)
    by (unfold n, es; rewrite length_map; lia).
  rewrite add_copy_dir_wf by exact Hes.
  rewrite is_tellg_St.
  replace (sum_len es) with (Z.of_nat (length (payload_of ms)))
    by (unfold es; now rewrite sum_len_members).
  replace (0 + Z.of_nat (length (payload_of ms))
           + Z.of_nat (length (header n ++ directory es)))
    with (Z.of_nat (length ((header n ++ directory es) ++ payload_of ms)))
    by (rewrite (length_app (_ ++ _)); lia).
  rewrite is_get_while_upto_end, is_get_while_failed.
  f_equal. f_equal.
  rewrite length_app, length_map, Nat2Z.inj_add. fold n.
  rewrite Z.mod_small by (unfold ULONG_MOD, INT_MAX in *; lia).
  rewrite map_app, directory_app, payload_app. fold es.
  assert (E1 : flat_map (add_entry env strip) (map (source_entry env fs) targets)
               = directory (map dirent_of (map (source_member env fs strip) targets))
          /\ flat_map (write_payload env fs) (map (source_entry env fs) targets)
               = payload_of (map (source_member env fs strip) targets)).
  { clear -Hok. induction targets as [|i targets IH]; [split; reflexivity|].
    cbn [forallb] in Hok. apply andb_prop in Hok. destruct Hok as [Hi Hok].
    destruct (IH Hok) as [IH1 IH2]. cbn [map flat_map].
    rewrite directory_cons, payload_cons, IH1, IH2.
    rewrite add_entry_source, write_payload_source by exact Hi.
    split; reflexivity. }
  destruct E1 as [-> ->].
  unfold header. rewrite <- !app_assoc. cbn [app]. rewrite app_nil_r.
  rewrite <- !app_assoc. reflexivity.
Qed.

End Append.

(** ** The codec on all bytes *)

Section CodecBytes.

Lemma In_zseq : forall k i b, i <= b < i + Z.of_nat k -> In b (zseq i k).
Proof.
  induction k as [|k IH]; intros i b H; [lia|].
  cbn [zseq]. destruct (Z.eq_dec i b) as [->|Hne]; [now left|].
  right. apply IH. lia.
Qed.

Lemma byte_cases (P : Z -> bool) :
  forallb P (zseq 0 256) = true -> forall b, is_byte b = true -> P b = true.
Proof.
  intros H b Hb. rewrite forallb_forall in H. apply H, In_zseq.
  unfold is_byte in Hb. apply andb_prop in Hb. destruct Hb as [H0 H1].
  apply Z.leb_le in H0. apply Z.ltb_lt in H1.
  change (Z.of_nat 256) with 256. lia.
Qed.

Variable env : Env.

Lemma encode_char_sign b :
  ascii2petscii_char env b = ascii2petscii_char (sign_env (char_signed env)) b.
Proof. reflexivity. Qed.

Lemma decode_char_sign b :
  petscii2ascii_char env b = petscii2ascii_char (sign_env (char_signed env)) b.
Proof. reflexivity. Qed.

(** A property of the two conversions of one byte that holds on every
    byte, whatever the sign of [char]. *)
Lemma codec_byte_cases (P : Env -> Z -> bool) :
  (forall e b, P e b = P (sign_env (char_signed e)) b) ->
  forallb (P (sign_env true)) (zseq 0 256) = true ->
  forallb (P (sign_env false)) (zseq 0 256) = true ->
  forall b, is_byte b = true -> P env b = true.
Proof.
  intros HP Ht Hf b Hb. rewrite HP.
  destruct (char_signed env); now apply byte_cases.
Qed.

Lemma encode_char_idem b :
  is_byte b = true ->
  ascii2petscii_char env (ascii2petscii_char env b) = ascii2petscii_char env b.
Proof.
  intros Hb. apply Z.eqb_eq.
  apply (codec_byte_cases
           (fun e b => ascii2petscii_char e (ascii2petscii_char e b)
                       =? ascii2petscii_char e b));
    [reflexivity|vm_compute; reflexivity|vm_compute; reflexivity|exact Hb].
Qed.

Lemma decode_char_idem b :
  is_byte b = true ->
  petscii2ascii_char env (petscii2ascii_char env b) = petscii2ascii_char env b.
Proof.
  intros Hb. apply Z.eqb_eq.
  apply (codec_byte_cases
           (fun e b => petscii2ascii_char e (petscii2ascii_char e b)
                       =? petscii2ascii_char e b));
    [reflexivity|vm_compute; reflexivity|vm_compute; reflexivity|exact Hb].
Qed.

Lemma roundtrip_char_stable b :
  is_byte b = true ->
  roundtrip_stable (petscii2ascii_char env (ascii2petscii_char env b)) = true.
Proof.
  intros Hb.
  apply (codec_byte_cases
           (fun e b => roundtrip_stable
                         (petscii2ascii_char e (ascii2petscii_char e b))));
    [reflexivity|vm_compute; reflexivity|vm_compute; reflexivity|exact Hb].
Qed.

Lemma roundtrip_char_iff b :
  is_byte b = true ->
  (petscii2ascii_char env (ascii2petscii_char env b) =? b) = roundtrip_stable b.
Proof.
  intros Hb. apply Bool.eqb_prop.
  apply (codec_byte_cases
           (fun e b => Bool.eqb (petscii2ascii_char e (ascii2petscii_char e b) =? b)
                                (roundtrip_stable b)));
    [reflexivity|vm_compute; reflexivity|vm_compute; reflexivity|exact Hb].
Qed.

Lemma encode_char_tolower b :
  is_byte b = true ->
  ascii2petscii_char env (tolower b) = ascii2petscii_char env b.
Proof.
  intros Hb. apply Z.eqb_eq.
  apply (codec_byte_cases
           (fun e b => ascii2petscii_char e (tolower b) =? ascii2petscii_char e b));
    [reflexivity|vm_compute; reflexivity|vm_compute; reflexivity|exact Hb].
Qed.

Lemma map_char_ext (f g : Z -> Z) t :
  forallb is_byte t = true ->
  (forall b, is_byte b = true -> f b = g b) -> map f t = map g t.
Proof.
  intros Ht H. induction t as [|b t IH]; [reflexivity|].
  cbn [forallb] in Ht. apply andb_prop in Ht. destruct Ht as [Hb Ht].
  cbn [map]. now rewrite H, IH.
Qed.

End CodecBytes.

(** ** Failures: signature, missing name, bad length *)

Section Failures.

Variable env : Env.

Lemma valid_signature_firstn data :
  (3 <= length data)%nat ->
  valid_signature env data = list_eqb (firstn 3 data) (bytes_of "DWB").
Proof.
  intros H. destruct data as [|a [|b [|c r]]]; cbn [length] in H; try lia.
  unfold valid_signature, read_signature.
  change (open (a :: b :: c :: r)) with (St [] ([a; b; c] ++ r)).
  pose proof (is_read_St [] [a; b; c] r) as E.
  change (Z.of_nat (length [a; b; c])) with 3 in E. rewrite E.
  cbn. now rewrite andb_true_r, andb_assoc.
Qed.

Lemma find_in_lbr_invalid data target l o d skip :
  valid_signature env data = false ->
  find_in_lbr env data target l o d skip = (-1, (l, o, d)).
Proof.
  unfold valid_signature, find_in_lbr.
  destruct (read_signature env (open data)) as [sg s]. cbn [fst].
  now intros ->.
Qed.

Lemma delete_lbr_failed data target skip wipe v :
  fst (find_in_lbr env data target 0 0 0 skip) = -1 ->
  v = delete_lbr env data target skip wipe -> v = (-1, data).
Proof.
  unfold delete_lbr.
  destruct (find_in_lbr env data target 0 0 0 skip) as [res [[l o] d]].
  cbn [fst]. intros -> ->. reflexivity.
Qed.

Lemma chtype_lbr_failed data target new_type skip v :
  fst (find_in_lbr env data target 0 0 0 skip) = -1 ->
  v = chtype_lbr env data target new_type skip -> v = (-1, data).
Proof.
  unfold chtype_lbr.
  destruct (find_in_lbr env data target 0 0 0 skip) as [res [[l o] d]].
  cbn [fst]. intros -> ->. reflexivity.
Qed.

Variable target : list Z.
Variable skip_deleted : bool.

(** One round of the locator's loop over a record it can read. *)
Lemma find_loop_readable e pre r n coff found len doff :
  readable_dirent e = true ->
  d_len e <= INT_MAX ->
  find_loop env (S n) target skip_deleted (St pre (dir_record e ++ r))
            coff found len doff =
  let take := negb found
              && list_eqb (petscii2ascii env (c_str (d_name e))) target
              && (negb (d_type e =? 0x44) || negb skip_deleted) in
  if bad_len (d_len e)
  then inl (if take then d_len e else len,
            if take then Z.of_nat (length pre) else doff)
  else find_loop env n target skip_deleted (St (pre ++ dir_record e) r)
         (if negb (found || take) then coff + d_len e else coff)
         (found || take)
         (if take then d_len e else len)
         (if take then Z.of_nat (length pre) else doff).
Proof.
  intros Hrd Hmax. cbn [find_loop]. rewrite is_tellg_St.
  rewrite read_dirent_readable by exact Hrd.
  rewrite atoi_to_string; [reflexivity|].
  apply readable_dirent_spec in Hrd. lia.
Qed.

Lemma find_loop_bad_length : forall es1 e r n pre coff found len doff,
  forallb wf_dirent es1 = true ->
  bad_dirent e = true ->
  exists v,
  find_loop env (length es1 + S n) target skip_deleted
            (St pre (directory es1 ++ dir_record e ++ r)) coff found len doff
  = inl v.
Proof.
  induction es1 as [|e1 es1 IH]; intros e r n pre coff found len doff Hes He.
  - unfold bad_dirent in He.
    apply andb_prop in He. destruct He as [He Hmax].
    apply andb_prop in He. destruct He as [Hrd Hbad].
    apply Z.leb_le in Hmax.
    cbn [length Nat.add directory flat_map app].
    rewrite find_loop_readable by assumption. cbv zeta.
    unfold bad_len. rewrite Hbad, orb_true_r. now eexists.
  - cbn [forallb] in Hes. apply andb_prop in Hes. destruct Hes as [He1 Hes].
    cbn [length Nat.add]. rewrite directory_cons, <- app_assoc.
    rewrite find_loop_readable;
      [|now apply wf_readable
       |apply wf_dirent_spec in He1; pose proof max_sane_int; lia].
    cbv zeta. rewrite bad_len_wf by exact He1. apply IH; assumption.
Qed.

Lemma find_in_lbr_bad_length es1 e es2 payload l o d :
  forallb wf_dirent es1 = true ->
  bad_dirent e = true ->
  Z.of_nat (length (es1 ++ e :: es2)) <= INT_MAX ->
  fst (find_in_lbr env (archive (es1 ++ e :: es2) payload) target l o d
                   skip_deleted) = -1.
Proof.
  intros Hes He Hn. unfold find_in_lbr, archive.
  destruct (read_header_St env (Z.of_nat (length (es1 ++ e :: es2)))
              (directory (es1 ++ e :: es2) ++ payload)) as [Hsig Hcnt]; [lia|].
  rewrite Hsig. cbn [sig_ok Z.eqb Pos.eqb andb negb]. cbv iota. rewrite Hcnt.
  rewrite atoi_to_string, Nat2Z.id by lia.
  rewrite length_app. cbn [length].
  rewrite directory_app, directory_cons, <- !app_assoc.
  destruct (find_loop_bad_length es1 e (directory es2 ++ payload) (length es2)
              (header (Z.of_nat (length es1 + S (length es2)))) 0 false l d Hes He)
    as [[l' d'] E].
  rewrite length_app in Hsig. cbn [length] in *.
  rewrite E. reflexivity.
Qed.

End Failures.

Section AppendFailures.

Variable env : Env.
Variable fs : FS.

Lemma add_copy_bad e pre r tmpf offset n :
  bad_dirent e = true ->
  add_copy_dir env (S n) (St pre (dir_record e ++ r)) tmpf offset = None.
Proof.
  unfold bad_dirent. intros He.
  apply andb_prop in He. destruct He as [He Hmax].
  apply andb_prop in He. destruct He as [Hrd Hbad].
  apply Z.leb_le in Hmax. apply readable_dirent_spec in Hrd.
  destruct Hrd as (Hne & Hlen & Hcr & Htcr & Hl).
  destruct (to_string_field_long (d_len e)) as (Lne & Llen & Lsp); [lia|].
  cbn [add_copy_dir]. rewrite dir_record_fields.
  rewrite is_get_while_not_cr by exact Hcr.
  rewrite (is_get_while_not_cr _ [d_type e]);
    [|unfold no_byte; cbn [forallb]; apply Z.eqb_neq in Htcr; now rewrite Htcr].
  unfold size_field. rewrite <- !app_assoc. cbn [app].
  rewrite is_get_int_St, is_get_str_St by assumption.
  rewrite !is_get_int_St, atoi_to_string by lia.
  unfold bad_len. now rewrite Hbad, orb_true_r.
Qed.

Lemma add_copy_dir_bad : forall es1 e r n pre tmpf offset,
  forallb wf_dirent es1 = true ->
  bad_dirent e = true ->
  add_copy_dir env (length es1 + S n)
               (St pre (directory es1 ++ dir_record e ++ r)) tmpf offset = None.
Proof.
  induction es1 as [|e1 es1 IH]; intros e r n pre tmpf offset Hes He.
  - cbn [length Nat.add directory flat_map app]. now apply add_copy_bad.
  - cbn [forallb] in Hes. apply andb_prop in Hes. destruct Hes as [He1 Hes].
    cbn [length Nat.add]. rewrite directory_cons, <- app_assoc.
    rewrite add_copy_record by exact He1. now apply IH.
Qed.

Lemma add_lbr_bad_length es1 e es2 payload targets strip :
  forallb wf_dirent es1 = true ->
  bad_dirent e = true ->
  Z.of_nat (length (es1 ++ e :: es2)) <= INT_MAX ->
  forallb (exists_in fs) targets = true ->
  add_lbr env fs (archive (es1 ++ e :: es2) payload) targets strip =
  Returned (-1, archive (es1 ++ e :: es2) payload).
Proof.
  intros Hes He Hn Hex. unfold add_lbr.
  set (data := archive (es1 ++ e :: es2) payload).
  unfold data at 1. unfold archive.
  set (n := Z.of_nat (length (es1 ++ e :: es2))) in *.
  destruct (read_header_St env n (directory (es1 ++ e :: es2) ++ payload))
    as [Hsig _]; [lia|].
  rewrite Hsig. cbn [sig_ok Z.eqb Pos.eqb andb negb c_str NUL]. cbv iota.
  destruct (to_string_field n ltac:(lia)) as (Lne & Llen & Lsp).
  rewrite is_get_int_St. cbn [app].
  rewrite is_get_str_St by assumption.
  rewrite !is_get_int_St, atoi_to_string by lia.
  rewrite stat_inputs_exists by exact Hex.
  unfold n. rewrite Nat2Z.id, length_app. cbn [length].
  rewrite directory_app, directory_cons, <- !app_assoc.
  rewrite add_copy_dir_bad by assumption. reflexivity.
Qed.

Lemma add_lbr_invalid data targets strip :
  valid_signature env data = false ->
  add_lbr env fs data targets strip = Returned (-1, data).
Proof.
  unfold valid_signature, add_lbr.
  destruct (read_signature env (open data)) as [sg s]. cbn [fst].
  now intros ->.
Qed.

End AppendFailures.

(** ** Listing and extracting well-formed archives *)

Section ReadMembers.

Variable env : Env.

Lemma listed_entries_archive es payload sort :
  forallb readable_dirent es = true ->
  Z.of_nat (length es) <= INT_MAX ->
  listed_entries env (archive es payload) sort =
  (if sort then std_sort (map listed_of es) else map listed_of es) /\
  valid_signature env (archive es payload) = true /\
  forall file,
  listing_head env file (archive es payload) =
  if verbose env
  then [filename file ++ bytes_of " " ++ to_string (Z.of_nat (length es))
        ++ bytes_of " entries"]
  else [].
Proof.
  intros Hrd Hn. unfold listed_entries, valid_signature, listing_head, archive.
  destruct (read_header_St env (Z.of_nat (length es)) (directory es ++ payload))
    as [Hsig Hcnt]; [lia|].
  rewrite Hsig, Hcnt. rewrite atoi_to_string, Nat2Z.id by lia.
  rewrite list_read_directory by exact Hrd. cbn [fst].
  repeat split.
Qed.

Lemma wf_members_readable ms :
  wf_members ms = true ->
  forallb readable_dirent (map dirent_of ms) = true /\
  Z.of_nat (length (map dirent_of ms)) <= INT_MAX /\
  forallb wf_dirent (map dirent_of ms) = true.
Proof.
  unfold wf_members, wf_directory. intros H.
  apply andb_prop in H. destruct H as [Hn Hes]. apply Z.leb_le in Hn.
  split; [|split; assumption].
  rewrite forallb_forall in *. intros e He. apply wf_readable. now apply Hes.
Qed.

Lemma listed_of_member m :
  wf_dirent (dirent_of m) = true ->
  listed_of (dirent_of m) = member_entry m.
Proof.
  intros Hwf. pose proof (atoi_len_wf _ Hwf) as Hat.
  apply wf_dirent_spec in Hwf.
  destruct Hwf as (Hne & Hlen & Hcr & Hnul & Htcr & Htnul & Hl).
  unfold listed_of, member_entry. cbn [dirent_of d_name d_type d_len] in *.
  rewrite Hat, c_str_no_nul by exact Hnul.
  unfold to_unsigned. rewrite Z.mod_small by (unfold MAX_SANE_LENGTH in Hl; lia).
  f_equal. cbn [c_str]. apply Z.eqb_neq in Htnul. now rewrite Htnul.
Qed.

Lemma map_listed_of_members ms :
  forallb wf_dirent (map dirent_of ms) = true ->
  map listed_of (map dirent_of ms) = map member_entry ms.
Proof.
  induction ms as [|m ms IH]; [reflexivity|].
  cbn [map forallb]. intros H. apply andb_prop in H. destruct H as [Hm H].
  now rewrite listed_of_member, IH.
Qed.

Lemma render_member skip_deleted m :
  wf_dirent (dirent_of m) = true ->
  (if survives skip_deleted (member_entry m)
   then [render_entry env (member_entry m)]
   else if verbose env then [bytes_of "[deleted]"] else [])
  = (if (m_type m =? 0x44) && skip_deleted
     then (if verbose env then [bytes_of "[deleted]"] else [])
     else [member_line env m]).
Proof.
  intros Hwf. apply wf_dirent_spec in Hwf.
  destruct Hwf as (_ & _ & _ & _ & _ & _ & Hl).
  cbn [dirent_of d_len] in Hl.
  unfold survives, member_entry. cbn [fe_type fe_name fe_length].
  change (bytes_of "D") with [0x44]. cbn [list_eqb].
  rewrite andb_true_r.
  destruct ((m_type m =? 0x44) && skip_deleted); cbn [negb]; [reflexivity|].
  f_equal. unfold render_entry, member_line, declared_length.
  cbn [fe_type fe_name fe_length].
  rewrite to_int_small by (unfold MAX_SANE_LENGTH in Hl; lia).
  assert (Hb : bad_len (Z.of_nat (length (m_data m))) = false)
    by (unfold bad_len; zbool; lia).
  rewrite Hb, andb_false_r, app_nil_r. reflexivity.
Qed.

Lemma render_listing_members skip_deleted ms :
  forallb wf_dirent (map dirent_of ms) = true ->
  render_listing env skip_deleted (map member_entry ms)
  = member_lines env skip_deleted ms.
Proof.
  unfold render_listing, member_lines.
  induction ms as [|m ms IH]; [reflexivity|].
  cbn [map forallb flat_map]. intros H. apply andb_prop in H.
  destruct H as [Hm H]. now rewrite render_member, IH.
Qed.

Lemma list_lbr_members file ms skip_deleted :
  wf_members ms = true ->
  list_lbr env file (lbr_bytes ms) skip_deleted false =
  (0, (if verbose env
       then [filename file ++ bytes_of " " ++ to_string (Z.of_nat (length ms))
             ++ bytes_of " entries"]
       else [])
      ++ member_lines env skip_deleted ms).
Proof.
  intros Hwf. destruct (wf_members_readable ms Hwf) as (Hrd & Hn & Hes).
  destruct (listed_entries_archive (map dirent_of ms) (payload_of ms) false Hrd Hn)
    as (Hle & Hv & Hh).
  unfold lbr_bytes. rewrite list_lbr_spec by exact Hv.
  rewrite Hle, Hh, length_map, map_listed_of_members by exact Hes.
  now rewrite render_listing_members.
Qed.

End ReadMembers.

Section ExtractMembers.

Variable env : Env.
Variable dest_folder : list Z.
Variable skip_deleted add_extension : bool.

Lemma extract_read_directory : forall es i pre r,
  forallb wf_dirent es = true ->
  flags_read_false env ->
  extract_read env (length es) i (St pre (directory es ++ r)) =
  (map listed_of es, St (pre ++ directory es) r).
Proof.
  induction es as [|e es IH]; intros i pre r Hes Hfl.
  - cbn. now rewrite app_nil_r.
  - cbn [forallb] in Hes. apply andb_prop in Hes. destruct Hes as [He Hes].
    cbn [length extract_read]. rewrite directory_cons, <- app_assoc.
    rewrite read_dirent_St by exact He.
    rewrite IH by assumption.
    rewrite atoi_len_wf, bad_len_wf, Hfl by exact He.
    rewrite app_assoc. cbn [map]. unfold listed_of at 2.
    rewrite atoi_len_wf by exact He. reflexivity.
Qed.

Lemma filled_all d : filled env (Z.of_nat (length d)) d = d.
Proof. unfold filled. rewrite Nat2Z.id, Nat.sub_diag. apply app_nil_r. Qed.

Lemma extract_loop_members : forall ms pre r fs,
  extract_loop env dest_folder [] skip_deleted add_extension
               (map member_entry ms) (St pre (payload_of ms ++ r)) fs =
  Returned (St (pre ++ payload_of ms) r,
            fold_left (extract_member env dest_folder skip_deleted add_extension)
                      ms fs).
Proof.
  induction ms as [|m ms IH]; intros pre r fs.
  - cbn. now rewrite app_nil_r.
  - cbn [map extract_loop fold_left]. unfold member_entry at 1 2 3 4 5 6 7.
    cbn [bad_length fe_length fe_type fe_name].
    rewrite payload_cons, <- app_assoc. unfold extract_member at 2.
    change (bytes_of "D") with [0x44]. cbn [list_eqb]. rewrite andb_true_r.
    destruct (Z.eqb_spec (Z.of_nat (length (m_data m))) 0) as [E|E].
    + cbn [orb]. destruct (m_data m); [|cbn [length] in E; lia].
      cbn [app]. apply IH.
    + cbn [orb]. destruct ((m_type m =? 0x44) && skip_deleted).
      * rewrite is_ignore_St, IH, <- app_assoc. reflexivity.
      * rewrite is_read_St. cbv beta iota.
        change (fe_length (member_entry m)) with (Z.of_nat (length (m_data m))).
        change (fe_name (member_entry m)) with (m_name m).
        change (fe_type (member_entry m)) with [m_type m].
        rewrite filled_all, IH, <- app_assoc.
        destruct add_extension; rewrite ?app_nil_r; reflexivity.
Qed.

Lemma extract_lbr_members fs ms :
  wf_members ms = true ->
  flags_read_false env ->
  extract_lbr env fs (lbr_bytes ms) dest_folder [] skip_deleted add_extension =
  Returned (0, fold_left (extract_member env dest_folder skip_deleted add_extension)
                         ms fs).
Proof.
  intros Hwf Hfl. destruct (wf_members_readable ms Hwf) as (Hrd & Hn & Hes).
  rewrite length_map in Hn.
  unfold extract_lbr, extract_directory, lbr_bytes, archive. rewrite length_map.
  destruct (read_header_St env (Z.of_nat (length ms))
              (directory (map dirent_of ms) ++ payload_of ms))
    as [Hsig Hcnt]; [lia|].
  rewrite Hsig, Hcnt. cbn [sig_ok Z.eqb Pos.eqb andb negb]. cbv iota.
  rewrite atoi_to_string, Nat2Z.id by lia.
  rewrite <- (length_map dirent_of ms).
  rewrite extract_read_directory by assumption.
  rewrite map_listed_of_members by exact Hes.
  rewrite <- (app_nil_r (payload_of ms)) at 1.
  rewrite extract_loop_members. reflexivity.
Qed.

End ExtractMembers.

(** ** Building, then reading back *)

Section BuildMembers.

Variable env : Env.
Variable fs : FS.

Lemma dirent_of_source i :
  source_ok env fs i = true ->
  dirent_of (source_member env fs false i) = source_dirent env fs i.
Proof.
  intros H. unfold dirent_of, source_member, source_dirent.
  cbn [m_name m_type m_data written_name].
  now rewrite (source_data_length env fs i H).
Qed.



Lemma wf_source_members input :
  forallb (source_small env fs) input = true ->
  Z.of_nat (length input) <= INT_MAX ->
  wf_members (map (source_member env fs false) input) = true /\
  forallb (source_ok env fs) input = true.
Proof.
  intros Hs Hn. unfold wf_members, wf_directory.
  rewrite !length_map. apply Z.leb_le in Hn. rewrite Hn. cbn [andb].
  induction input as [|i input IH]; [split; reflexivity|].
  cbn [forallb map] in *. apply andb_prop in Hs. destruct Hs as [Hi Hs].
  unfold source_small in Hi. apply andb_prop in Hi. destruct Hi as [Hok Hsm].
  apply Z.leb_le in Hsm.
  assert (Hn' : (Z.of_nat (length input) <=? INT_MAX) = true).
  { apply Z.leb_le. apply Z.leb_le in Hn. cbn [length] in Hn. lia. }
  destruct (IH Hs Hn') as [IH1 IH2].
  rewrite IH1, IH2, Hok, dirent_of_source by exact Hok. split; [|reflexivity].
  rewrite andb_true_r.
  destruct (source_ok_spec env fs i Hok) as (Hlen & _ & Hnm & Hcr & Hnul).
  unfold wf_dirent, source_dirent. cbn [d_name d_type d_len].
  rewrite encoded_length, Hcr, Hnul.
  pose proof (type_of_cases (filename i) (source_length fs i)) as Hc.
  cbn [In] in Hc. fold (source_type fs i) in Hc.
  assert (Ht1 : (source_type fs i =? CR) = false) by (apply Z.eqb_neq; unfold CR; lia).
  assert (Ht2 : (source_type fs i =? NUL) = false) by (apply Z.eqb_neq; unfold NUL; lia).
  rewrite Ht1, Ht2. cbn [negb andb]. zbool; lia.
Qed.

End BuildMembers.

Section AppendList.

Variable env : Env.
Variable fs : FS.

Lemma wf_members_append ms targets :
  wf_members ms = true ->
  forallb (source_small env fs) targets = true ->
  Z.of_nat (length ms + length targets) <= INT_MAX ->
  wf_members (ms ++ map (source_member env fs false) targets) = true.
Proof.
  intros Hms Hs Hn.
  destruct (wf_source_members env fs targets Hs ltac:(lia)) as [Hnew _].
  unfold wf_members, wf_directory in *.
  apply andb_prop in Hms. destruct Hms as [_ Hms].
  apply andb_prop in Hnew. destruct Hnew as [_ Hnew].
  rewrite map_app, forallb_app, Hms, Hnew, length_app, !length_map.
  cbn [andb]. rewrite andb_true_r. apply Z.leb_le. lia.
Qed.

Lemma member_lines_app skip a b :
  member_lines env skip (a ++ b) = member_lines env skip a ++ member_lines env skip b.
Proof. apply flat_map_app. Qed.

End AppendList.

(** ** The comparator and the sort *)

Section Order.

Lemma str_lt_irrefl : forall a, str_lt a a = false.
Proof.
  induction a as [|x a IH]; [reflexivity|].
  cbn [str_lt]. destruct (Z.ltb_spec x x); [lia|exact IH].
Qed.

Lemma str_lt_trans : forall a b c,
  str_lt a b = true -> str_lt b c = true -> str_lt a c = true.
Proof.
  induction a as [|x a IH]; intros [|y b] [|z c]; cbn [str_lt];
    try discriminate; try reflexivity.
  destruct (Z.ltb_spec x y), (Z.ltb_spec y x), (Z.ltb_spec y z),
    (Z.ltb_spec z y), (Z.ltb_spec x z), (Z.ltb_spec z x);
    try lia; try discriminate; try reflexivity.
  apply IH.
Qed.

Lemma str_lt_total : forall a b,
  length a = length b -> str_lt a b = false -> str_lt b a = false -> a = b.
Proof.
  induction a as [|x a IH]; intros [|y b] Hl; cbn [str_lt length] in *;
    try discriminate; try reflexivity.
  destruct (Z.ltb_spec x y), (Z.ltb_spec y x); try lia; try discriminate.
  intros H1 H2. assert (x = y) by lia. subst. f_equal. apply IH; [lia| |]; assumption.
Qed.

Lemma num_cmp_irrefl f : num_cmp f f = false.
Proof. unfold num_cmp. rewrite Nat.ltb_irrefl. apply str_lt_irrefl. Qed.

Lemma num_cmp_trans f g h :
  num_cmp f g = true -> num_cmp g h = true -> num_cmp f h = true.
Proof.
  unfold num_cmp.
  destruct (Nat.ltb_spec (length (fe_name f)) (length (fe_name g))),
    (Nat.ltb_spec (length (fe_name g)) (length (fe_name f))),
    (Nat.ltb_spec (length (fe_name g)) (length (fe_name h))),
    (Nat.ltb_spec (length (fe_name h)) (length (fe_name g))),
    (Nat.ltb_spec (length (fe_name f)) (length (fe_name h))),
    (Nat.ltb_spec (length (fe_name h)) (length (fe_name f)));
    try lia; try discriminate; try reflexivity.
  apply str_lt_trans.
Qed.

Lemma num_cmp_total f g :
  num_cmp f g = false -> num_cmp g f = false -> fe_name f = fe_name g.
Proof.
  unfold num_cmp.
  destruct (Nat.ltb_spec (length (fe_name f)) (length (fe_name g))),
    (Nat.ltb_spec (length (fe_name g)) (length (fe_name f)));
    try lia; try discriminate.
  apply str_lt_total. lia.
Qed.

Lemma num_cmp_asym f g : num_cmp f g = true -> num_cmp g f = false.
Proof.
  intros H. destruct (num_cmp g f) eqn:E; [|reflexivity].
  pose proof (num_cmp_trans f g f H E) as C. now rewrite num_cmp_irrefl in C.
Qed.

Lemma num_le_trans f g h : num_le f g -> num_le g h -> num_le f h.
Proof.
  unfold num_le. intros H1 H2.
  destruct (num_cmp h f) eqn:E; [|reflexivity].
  destruct (num_cmp g h) eqn:E2.
  - pose proof (num_cmp_trans g h f E2 E). congruence.
  - destruct (num_cmp f g) eqn:E3.
    + pose proof (num_cmp_trans h f g E E3). congruence.
    + pose proof (num_cmp_total f g E3 H1) as N1.
      pose proof (num_cmp_total g h E2 H2) as N2.
      unfold num_cmp in E. rewrite N1, N2 in E.
      rewrite Nat.ltb_irrefl, str_lt_irrefl in E. discriminate.
Qed.

Lemma sort_insert_perm f : forall l, Permutation (f :: l) (sort_insert f l).
Proof.
  induction l as [|g l IH]; cbn [sort_insert]; [reflexivity|].
  destruct (num_cmp f g); [reflexivity|].
  rewrite perm_swap. now constructor.
Qed.

Lemma std_sort_perm l : Permutation l (std_sort l).
Proof.
  unfold std_sort.
  assert (G : forall l acc, Permutation (acc ++ l)
              (fold_left (fun acc f => sort_insert f acc) l acc)).
  { clear. induction l as [|f l IH]; intros acc; cbn [fold_left].
    - now rewrite app_nil_r.
    - rewrite <- IH. rewrite <- sort_insert_perm.
      rewrite <- Permutation_middle. reflexivity. }
  apply (G l []).
Qed.

Lemma sort_insert_hd f l d :
  hd d (sort_insert f l) = f \/ (l <> [] /\ hd d (sort_insert f l) = hd d l).
Proof.
  destruct l as [|g l]; cbn [sort_insert]; [now left|].
  destruct (num_cmp f g); [now left|]. right. split; [discriminate|reflexivity].
Qed.

Lemma sort_insert_sorted f : forall l,
  Sorted num_le l -> Sorted num_le (sort_insert f l).
Proof.
  induction l as [|g l IH]; intros Hs; cbn [sort_insert].
  - repeat constructor.
  - destruct (num_cmp f g) eqn:E.
    + constructor; [exact Hs|]. constructor. unfold num_le.
      now apply num_cmp_asym.
    + inversion Hs as [|? ? Hl Hhd]; subst. constructor; [now apply IH|].
      destruct l as [|h l]; cbn [sort_insert].
      * constructor. exact E.
      * destruct (num_cmp f h); constructor; [exact E|].
        now inversion Hhd.
Qed.

Lemma std_sort_sorted l : Sorted num_le (std_sort l).
Proof.
  unfold std_sort.
  assert (G : forall l acc, Sorted num_le acc ->
              Sorted num_le (fold_left (fun acc f => sort_insert f acc) l acc)).
  { clear. induction l as [|f l IH]; intros acc Hacc; cbn [fold_left];
      [exact Hacc|]. apply IH. now apply sort_insert_sorted. }
  apply G. constructor.
Qed.

End Order.

(** ** Decimal names under the comparator *)

Section DecimalOrder.

Lemma pow10_cons c l : pow10 (c :: l) = 10 * pow10 l.
Proof.
  unfold pow10. cbn [length]. rewrite Nat2Z.inj_succ, Z.pow_succ_r by lia.
  reflexivity.
Qed.

Lemma pow10_pos l : 0 < pow10 l.
Proof. unfold pow10. apply Z.pow_pos_nonneg; lia. Qed.

Lemma digits_val_acc : forall l acc,
  forallb isdigit l = true ->
  digits_val l acc = acc * pow10 l + digits_val l 0.
Proof.
  induction l as [|c l IH]; intros acc H.
  - unfold pow10. cbn. lia.
  - cbn [forallb] in H. apply andb_prop in H. destruct H as [Hc Hl].
    cbn [digits_val]. rewrite Hc, pow10_cons.
    rewrite (IH (10 * acc + (c - 48)) Hl), (IH (10 * 0 + (c - 48)) Hl). ring.
Qed.

Lemma digits_val_bound : forall l,
  forallb isdigit l = true -> 0 <= digits_val l 0 < pow10 l.
Proof.
  induction l as [|c l IH]; intros H.
  - unfold pow10. cbn. lia.
  - cbn [forallb] in H. apply andb_prop in H. destruct H as [Hc Hl].
    specialize (IH Hl). cbn [digits_val]. rewrite Hc, pow10_cons.
    rewrite digits_val_acc by exact Hl.
    unfold isdigit in Hc. apply andb_prop in Hc. destruct Hc as [H0 H9].
    apply Z.leb_le in H0, H9. pose proof (pow10_pos l). nia.
Qed.

Lemma str_lt_digits : forall l1 l2,
  forallb isdigit l1 = true -> forallb isdigit l2 = true ->
  length l1 = length l2 ->
  str_lt l1 l2 = (digits_val l1 0 <? digits_val l2 0).
Proof.
  induction l1 as [|c1 l1 IH]; intros [|c2 l2] H1 H2 Hl;
    cbn [length] in Hl; try discriminate; [reflexivity|].
  cbn [forallb] in H1, H2.
  apply andb_prop in H1. destruct H1 as [Hc1 Hl1].
  apply andb_prop in H2. destruct H2 as [Hc2 Hl2].
  cbn [str_lt digits_val]. rewrite Hc1, Hc2.
  rewrite (digits_val_acc l1) by exact Hl1.
  rewrite (digits_val_acc l2) by exact Hl2.
  pose proof (digits_val_bound l1 Hl1) as B1.
  pose proof (digits_val_bound l2 Hl2) as B2.
  assert (Hp : pow10 l1 = pow10 l2) by (unfold pow10; congruence).
  rewrite Hp in *. pose proof (pow10_pos l2).
  destruct (Z.ltb_spec c1 c2).
  - symmetry. apply Z.ltb_lt. nia.
  - destruct (Z.ltb_spec c2 c1).
    + symmetry. apply Z.ltb_ge. nia.
    + assert (c1 = c2) by lia. subst c2.
      rewrite (IH l2 Hl1 Hl2) by lia.
      destruct (Z.ltb_spec (digits_val l1 0) (digits_val l2 0));
        symmetry; [apply Z.ltb_lt|apply Z.ltb_ge]; lia.
Qed.

Lemma dec_digits_lower fuel : forall n,
  1 <= n < 2 ^ Z.of_nat fuel ->
  pow10 (dec_digits fuel n []) <= 10 * n.
Proof.
  induction fuel as [|f IH]; intros n Hn.
  - change (2 ^ Z.of_nat 0) with 1 in Hn. lia.
  - cbn [dec_digits]. destruct (Z.ltb_spec n 10).
    + rewrite pow10_cons. change (pow10 []) with 1. lia.
    + rewrite dec_digits_acc. unfold pow10. rewrite length_app. cbn [length].
      rewrite Nat2Z.inj_add, Z.pow_add_r by lia. fold (pow10 (dec_digits f (n / 10) [])).
      assert (Hd : 1 <= n / 10 < 2 ^ Z.of_nat f).
      { rewrite Nat2Z.inj_succ, Z.pow_succ_r in Hn by lia.
        split; [apply Z.div_le_lower_bound; lia|apply Z.div_lt_upper_bound; lia]. }
      specialize (IH (n / 10) Hd).
      pose proof (Z.div_mod n 10 ltac:(lia)).
      pose proof (Z.mod_pos_bound n 10 ltac:(lia)).
      change (10 ^ Z.of_nat 1) with 10. lia.
Qed.

Lemma to_string_lower n : 1 <= n -> pow10 (to_string n) <= 10 * n.
Proof.
  intros Hn. rewrite to_string_nonneg by lia.
  apply dec_digits_lower. split; [exact Hn|apply log2_fuel; lia].
Qed.

Lemma to_string_value n : 0 <= n -> digits_val (to_string n) 0 = n.
Proof.
  intros Hn. pose proof (digits_val_to_string n [] Hn) as H.
  now rewrite app_nil_r in H.
Qed.

Lemma to_string_upper n : 0 <= n -> n < pow10 (to_string n).
Proof.
  intros Hn. pose proof (digits_val_bound (to_string n) (to_string_isdigit n Hn)).
  rewrite to_string_value in H by exact Hn. lia.
Qed.

Lemma pow10_mono l1 l2 :
  (length l1 < length l2)%nat -> 10 * pow10 l1 <= pow10 l2.
Proof.
  intros H. unfold pow10.
  replace (Z.of_nat (length l2))
    with (Z.of_nat (length l1) + 1 + (Z.of_nat (length l2) - Z.of_nat (length l1) - 1))
    by lia.
  rewrite !Z.pow_add_r by lia. change (10 ^ 1) with 10.
  assert (0 < 10 ^ (Z.of_nat (length l2) - Z.of_nat (length l1) - 1))
    by (apply Z.pow_pos_nonneg; lia).
  pose proof (pow10_pos l1) as Hp. unfold pow10 in Hp. nia.
Qed.

Lemma to_string_shorter a b :
  0 <= a -> 0 <= b ->
  (length (to_string a) < length (to_string b))%nat -> a < b.
Proof.
  intros Ha Hb Hl.
  pose proof (to_string_upper a Ha) as Ua.
  pose proof (pow10_mono _ _ Hl) as Hm.
  destruct (Z.eq_dec b 0) as [->|Hb0].
  - change (to_string 0) with [0x30] in Hl. cbn [length] in Hl.
    pose proof (to_string_nonempty a). destruct (to_string a); [contradiction|].
    cbn [length] in Hl. lia.
  - pose proof (to_string_lower b ltac:(lia)). lia.
Qed.

Lemma num_cmp_numbered a b pa la pb lb :
  0 <= a -> 0 <= b ->
  num_cmp (numbered a pa la) (numbered b pb lb) = (a <? b).
Proof.
  intros Ha Hb. unfold num_cmp, numbered. cbn [fe_name].
  destruct (Nat.ltb_spec (length (to_string a)) (length (to_string b))) as [H|H].
  - symmetry. apply Z.ltb_lt. now apply to_string_shorter.
  - destruct (Nat.ltb_spec (length (to_string b)) (length (to_string a))) as [H'|H'].
    + symmetry. apply Z.ltb_ge.
      pose proof (to_string_shorter b a Hb Ha H'). lia.
    + rewrite str_lt_digits by (try apply to_string_isdigit; lia).
      now rewrite !to_string_value.
Qed.

End DecimalOrder.

(** ** What the padding inserts *)

Section PadFill.

Variable env : Env.

Lemma increasing_last_bound : forall rest i d,
  rest <> [] -> increasing_from i rest = true ->
  i <= name_value (last rest d).
Proof.
  intros files. induction files as [|x rest IH]; intros i d Hne H;
    [contradiction|].
  cbn [increasing_from] in H. apply andb_prop in H. destruct H as [Hx Hr].
  apply Z.leb_le in Hx. destruct rest as [|y rest]; [exact Hx|].
  change (last (x :: y :: rest) d) with (last (y :: rest) d).
  assert (Hne2 : y :: rest <> []) by discriminate.
  specialize (IH (name_value x + 1) d Hne2 Hr). lia.
Qed.

Lemma pad_loop_fill first last_ d : forall fuel i prefix rest,
  rest <> [] ->
  name_value (last rest d) = last_ ->
  increasing_from i rest = true ->
  last_ < INT_MAX ->
  Z.of_nat (length prefix) = i - first ->
  last_ - i <= Z.of_nat fuel ->
  pad_loop env fuel first last_ i (prefix ++ rest) =
  Returned (prefix ++ pad_fill env i rest).
Proof.
  induction fuel as [|fuel IH]; intros i prefix rest Hne Hlast Hinc Hmax Hp Hfuel.
  - pose proof (increasing_last_bound rest i d Hne Hinc) as Hb.
    rewrite pad_loop_done by lia. do 2 f_equal.
    destruct rest as [|x [|y rest]]; [contradiction| |].
    + cbn [last] in Hlast, Hb. cbn [pad_fill].
      replace (name_value x - i) with 0 by lia. reflexivity.
    + cbn [increasing_from] in Hinc.
      apply andb_prop in Hinc. destruct Hinc as [Hx Hr]. apply Z.leb_le in Hx.
      assert (Hne2 : y :: rest <> []) by discriminate.
        pose proof (increasing_last_bound (y :: rest) _ d Hne2 Hr) as Hb2.
      change (last (x :: y :: rest) d) with (last (y :: rest) d) in Hlast.
      lia.
  - destruct rest as [|x rest]; [contradiction|].
    pose proof (increasing_last_bound (x :: rest) i d Hne Hinc) as Hb.
    cbn [increasing_from] in Hinc.
    apply andb_prop in Hinc. destruct Hinc as [Hx Hr]. apply Z.leb_le in Hx.
    destruct (Z_lt_ge_dec i last_) as [Hlt|Hge].
    + cbn [pad_loop]. destruct (Z.ltb_spec i last_); [|lia].
      replace (Z.to_nat (i - first)) with (length prefix) by lia.
      rewrite nth_error_app2, Nat.sub_diag by lia. cbn [nth_error].
      fold (name_value x).
      rewrite Z.max_r by lia.
      destruct rest as [|y rest].
      * cbn [last] in Hlast.
        destruct (Z.eqb_spec (name_value x) INT_MAX) as [E|_]; [lia|].
        rewrite pad_while_app by exact Hp.
        rewrite pad_loop_done by lia. reflexivity.
      * assert (Hne2 : y :: rest <> []) by discriminate.
        pose proof (increasing_last_bound (y :: rest) _ d Hne2 Hr) as Hb2.
        change (last (x :: y :: rest) d) with (last (y :: rest) d) in Hlast.
        destruct (Z.eqb_spec (name_value x) INT_MAX) as [E|_]; [lia|].
        rewrite pad_while_app by exact Hp.
        replace (prefix ++ map (filler env) (zseq i (Z.to_nat (name_value x - i)))
                 ++ x :: y :: rest)
          with ((prefix ++ map (filler env) (zseq i (Z.to_nat (name_value x - i)))
                 ++ [x]) ++ y :: rest)
          by (rewrite <- !app_assoc; reflexivity).
        rewrite (IH (name_value x + 1)); try assumption; try discriminate.
        -- cbn [pad_fill]. rewrite <- !app_assoc. reflexivity.
        -- rewrite !length_app, length_map, zseq_length. cbn [length]. lia.
        -- lia.
    + rewrite pad_loop_done by lia. do 2 f_equal.
      destruct rest as [|y rest].
      * cbn [last] in Hlast, Hb. cbn [pad_fill].
        replace (name_value x - i) with 0 by lia. reflexivity.
      * assert (Hne2 : y :: rest <> []) by discriminate.
        pose proof (increasing_last_bound (y :: rest) _ d Hne2 Hr) as Hb2.
        change (last (x :: y :: rest) d) with (last (y :: rest) d) in Hlast.
        lia.
Qed.

Lemma pad_sorted_fill files d :
  files <> [] ->
  increasing_from (name_value (hd d files)) files = true ->
  name_value (hd d files) < name_value (last files d) ->
  name_value (last files d) < INT_MAX ->
  pad_sorted env files =
  Returned (PadOk (pad_fill env (name_value (hd d files)) files)).
Proof.
  intros Hne Hinc Hlt Hmax. destruct files as [|f files]; [contradiction|].
  cbn [hd] in *. unfold pad_sorted.
  rewrite (last_any (f :: files) f d) by discriminate.
  fold (name_value f). fold (name_value (last (f :: files) d)).
  destruct (Z.leb_spec (name_value (last (f :: files) d)) (name_value f)); [lia|].
  pose proof (pad_loop_fill (name_value f) (name_value (last (f :: files) d)) d
                (Z.to_nat (name_value (last (f :: files) d) - name_value f))
                (name_value f) [] (f :: files)) as E.
  cbn [app length] in E.
  rewrite E; try reflexivity; try assumption; try lia; discriminate.
Qed.

End PadFill.

Section PadNames.

Variable env : Env.

Lemma zseq_app : forall a b i,
  zseq i (a + b) = zseq i a ++ zseq (i + Z.of_nat a) b.
Proof.
  induction a as [|a IH]; intros b i.
  - cbn [Nat.add zseq app]. f_equal. lia.
  - cbn [Nat.add zseq app]. rewrite IH. do 3 f_equal. lia.
Qed.

Lemma canonical_spec f :
  canonical f = true ->
  0 <= name_value f < INT_MAX /\ fe_name f = to_string (name_value f).
Proof.
  unfold canonical. intros H.
  apply andb_prop in H. destruct H as [H Hn].
  apply andb_prop in H. destruct H as [H0 H1].
  apply Z.leb_le in H0. apply Z.ltb_lt in H1. apply list_eqb_eq in Hn.
  split; [lia|exact Hn].
Qed.

Lemma filler_names l : map fe_name (map (filler env) l) = map to_string l.
Proof. rewrite map_map. reflexivity. Qed.

Lemma pad_fill_names d : forall files i,
  files <> [] ->
  increasing_from i files = true ->
  forallb canonical files = true ->
  map fe_name (pad_fill env i files) =
  map to_string (zseq i (Z.to_nat (name_value (last files d) - i + 1))).
Proof.
  intros files. induction files as [|x r IH]; intros i Hne Hinc Hcan;
    [contradiction|].
  pose proof (increasing_last_bound r) as Hlb.
  cbn [increasing_from forallb] in *.
  apply andb_prop in Hinc. destruct Hinc as [Hx Hr]. apply Z.leb_le in Hx.
  apply andb_prop in Hcan. destruct Hcan as [Hcx Hcr].
  destruct (canonical_spec x Hcx) as [_ Hnx].
  cbn [pad_fill]. rewrite map_app, filler_names. cbn [map]. rewrite Hnx.
  destruct r as [|y r].
  - cbn [last pad_fill map].
    replace (Z.to_nat (name_value x - i + 1))
      with (Z.to_nat (name_value x - i) + 1)%nat by lia.
    rewrite zseq_app, map_app. cbn [zseq map]. do 3 f_equal. lia.
  - assert (Hne2 : y :: r <> []) by discriminate.
    specialize (Hlb (name_value x + 1) d Hne2 Hr).
    change (last (x :: y :: r) d) with (last (y :: r) d).
    rewrite (IH (name_value x + 1) Hne2 Hr Hcr).
    replace (Z.to_nat (name_value (last (y :: r) d) - i + 1))
      with (Z.to_nat (name_value x - i)
            + S (Z.to_nat (name_value (last (y :: r) d) - (name_value x + 1) + 1)))%nat
      by lia.
    rewrite zseq_app, map_app. cbn [zseq map].
    replace (i + Z.of_nat (Z.to_nat (name_value x - i))) with (name_value x) by lia.
    reflexivity.
Qed.

Lemma pad_fill_entries : forall files i f,
  In f (pad_fill env i files) ->
  In f files \/ (exists j, f = filler env j).
Proof.
  intros files. induction files as [|x r IH]; intros i f H; [contradiction|].
  cbn [pad_fill] in H. apply in_app_or in H. destruct H as [H|[H|H]].
  - apply in_map_iff in H. destruct H as (j & <- & _). right. now exists j.
  - left. now left.
  - destruct (IH _ _ H) as [H'|H']; [left; now right|now right].
Qed.

Lemma num_cmp_canonical f g :
  canonical f = true -> canonical g = true ->
  num_cmp f g = (name_value f <? name_value g).
Proof.
  intros Hf Hg.
  destruct (canonical_spec f Hf) as [Bf Nf].
  destruct (canonical_spec g Hg) as [Bg Ng].
  rewrite <- (num_cmp_numbered (name_value f) (name_value g) [] 0 [] 0) by lia.
  unfold num_cmp, numbered. cbn [fe_name]. now rewrite Nf, Ng.
Qed.

Lemma sorted_increasing : forall files i,
  Sorted num_le files ->
  forallb canonical files = true ->
  NoDup (map name_value files) ->
  (forall d, files <> [] -> i <= name_value (hd d files)) ->
  increasing_from i files = true.
Proof.
  intros files. induction files as [|x r IH]; intros i Hs Hc Hnd Hi;
    [reflexivity|].
  cbn [increasing_from forallb map] in *.
  apply andb_prop in Hc. destruct Hc as [Hcx Hcr].
  inversion Hs as [|? ? Hsr Hhd]; subst. inversion Hnd as [|? ? Hnin Hndr]; subst.
  specialize (Hi x ltac:(discriminate)). cbn [hd] in Hi.
  apply andb_true_intro. split; [now apply Z.leb_le|].
  apply IH; try assumption. intros d Hne.
  destruct r as [|y r]; [contradiction|]. cbn [hd].
  inversion Hhd as [|? ? Hle]; subst. unfold num_le in Hle.
  cbn [forallb] in Hcr. apply andb_prop in Hcr. destruct Hcr as [Hcy _].
  rewrite num_cmp_canonical in Hle by assumption.
  apply Z.ltb_ge in Hle.
  assert (name_value x <> name_value y); [|lia].
  intros E. apply Hnin. cbn [map]. left. now symmetry.
Qed.

End PadNames.

Section Compose.

Variable env : Env.
Variable target : list Z.

Lemma last_forallb {A} (P : A -> bool) : forall l d,
  l <> [] -> forallb P l = true -> P (last l d) = true.
Proof.
  induction l as [|x l IH]; intros d Hne H; [contradiction|].
  cbn [forallb] in H. apply andb_prop in H. destruct H as [Hx Hl].
  destruct l as [|y l]; [exact Hx|].
  change (last (x :: y :: l) d) with (last (y :: l) d).
  apply IH; [discriminate|exact Hl].
Qed.

Lemma sorted_numeric : forall l,
  Sorted num_le l -> forallb canonical l = true ->
  Sorted (fun f g => name_value f <= name_value g) l.
Proof.
  induction l as [|x l IH]; intros Hs Hc; [constructor|].
  cbn [forallb] in Hc. apply andb_prop in Hc. destruct Hc as [Hx Hl].
  inversion Hs as [|? ? Hsl Hhd]; subst.
  constructor; [now apply IH|].
  destruct l as [|y l]; constructor.
  inversion Hhd as [|? ? Hle]; subst. unfold num_le in Hle.
  cbn [forallb] in Hl. apply andb_prop in Hl. destruct Hl as [Hy _].
  rewrite num_cmp_canonical in Hle by assumption.
  now apply Z.ltb_ge in Hle.
Qed.

Lemma wf_tombstone ms1 m ms2 :
  wf_members (ms1 ++ m :: ms2) = true ->
  wf_members (ms1 ++ tombstone m :: ms2) = true.
Proof.
  unfold wf_members, wf_directory. rewrite !map_app, !length_app. cbn [map length].
  rewrite !forallb_app. cbn [forallb]. intros H.
  apply andb_prop in H. destruct H as [Hn H].
  apply andb_prop in H. destruct H as [H1 H].
  apply andb_prop in H. destruct H as [Hm H2].
  rewrite Hn, H1, H2. cbn [andb]. rewrite andb_true_r.
  unfold wf_dirent in *. cbn [dirent_of tombstone m_name m_type m_data d_name d_type d_len length] in *.
  repeat (apply andb_prop in Hm; destruct Hm as [Hm ?]).
  repeat (apply andb_true_intro; split); try assumption; reflexivity.
Qed.



Lemma first_match_skip skip_deleted : forall es1 r,
  forallb (fun e => negb (is_match env target skip_deleted e)) es1 = true ->
  first_match env target skip_deleted (es1 ++ r) =
  option_map (fun k => (length es1 + k)%nat) (first_match env target skip_deleted r).
Proof.
  induction es1 as [|e es1 IH]; intros r H.
  - cbn [app length Nat.add]. now destruct (first_match _ _ _ r).
  - cbn [forallb] in H. apply andb_prop in H. destruct H as [He H].
    apply negb_true_iff in He.
    cbn [app first_match length]. rewrite He, (IH r H).
    now destruct (first_match _ _ _ r).
Qed.

Lemma first_match_prefix skip_deleted : forall es1 r,
  first_match env target skip_deleted (es1 ++ r) = Some (length es1) ->
  forallb (fun e => negb (is_match env target skip_deleted e)) es1 = true.
Proof.
  induction es1 as [|e es1 IH]; intros r H; [reflexivity|].
  cbn [app first_match length] in H. cbn [forallb].
  destruct (is_match env target skip_deleted e); [discriminate|].
  cbn [negb andb]. apply (IH r).
  destruct (first_match _ _ _ (es1 ++ r)); cbn [option_map] in H;
    [|discriminate]. inversion H. reflexivity.
Qed.

Lemma first_match_at skip_deleted es1 e r :
  first_match env target skip_deleted (es1 ++ e :: r) = Some (length es1) ->
  is_match env target skip_deleted e = true.
Proof.
  intros H. pose proof (first_match_prefix _ _ _ H) as Hp.
  rewrite (first_match_skip _ _ _ Hp) in H. cbn [first_match] in H.
  destruct (is_match env target skip_deleted e); [reflexivity|].
  destruct (first_match _ _ _ r); cbn [option_map] in H; [|discriminate].
  inversion H. lia.
Qed.

Lemma first_match_tombstone_kept ms1 m ms2 :
  first_match env target false (map dirent_of (ms1 ++ m :: ms2))
    = Some (length ms1) ->
  first_match env target false (map dirent_of (ms1 ++ tombstone m :: ms2))
    = Some (length ms1).
Proof.
  rewrite !map_app. cbn [map]. intros H.
  rewrite <- (length_map dirent_of ms1) in H.
  pose proof (first_match_prefix _ _ _ H) as Hp.
  pose proof (first_match_at _ _ _ _ H) as Hm.
  rewrite (first_match_skip _ _ _ Hp). cbn [first_match].
  unfold is_match in *. cbn [dirent_of tombstone m_name d_name] in *.
  apply andb_prop in Hm. destruct Hm as [-> _].
  cbn [negb orb andb option_map]. rewrite orb_true_r. cbn [option_map].
  rewrite length_map. f_equal. lia.
Qed.

Lemma first_match_tombstone_skipped ms1 m ms2 :
  first_match env target true (map dirent_of (ms1 ++ m :: ms2))
    = Some (length ms1) ->
  first_match env target true (map dirent_of ms2) = None ->
  first_match env target true (map dirent_of (ms1 ++ tombstone m :: ms2)) = None.
Proof.
  rewrite !map_app. cbn [map]. intros H Hn.
  rewrite <- (length_map dirent_of ms1) in H.
  pose proof (first_match_prefix _ _ _ H) as Hp.
  rewrite (first_match_skip _ _ _ Hp). cbn [first_match].
  unfold is_match at 1. cbn [dirent_of tombstone m_type d_type].
  change (0x44 =? 0x44) with true. cbn [negb orb]. rewrite andb_false_r.
  now rewrite Hn.
Qed.

End Compose.

Section TypeArgument.

Lemma find_last_of_none c : forall s,
  find_last_of c s = None <-> no_byte c s = true.
Proof.
  induction s as [|x s IH]; cbn [find_last_of no_byte forallb]; [tauto|].
  fold (no_byte c s).
  destruct (find_last_of c s) as [k|].
  - split; [discriminate|]. intros H. apply andb_prop in H.
    destruct H as [_ H]. apply IH in H. discriminate.
  - destruct (x =? c); cbn [negb andb].
    + split; discriminate.
    + split; [intros _; now apply IH|reflexivity].
Qed.

Lemma find_last_of_some c : forall s k,
  find_last_of c s = Some k ->
  s = firstn k s ++ c :: skipn (k + 1) s /\ no_byte c (skipn (k + 1) s) = true.
Proof.
  induction s as [|x s IH]; intros k H; cbn [find_last_of] in H; [discriminate|].
  destruct (find_last_of c s) as [j|] eqn:E.
  - inversion H; subst k. destruct (IH j eq_refl) as [Hs Hn].
    cbn [firstn Nat.add skipn app]. split; [now rewrite <- Hs|exact Hn].
  - destruct (Z.eqb_spec x c); [|discriminate]. inversion H; subst.
    cbn [firstn Nat.add skipn app]. split; [reflexivity|].
    now apply find_last_of_none.
Qed.

Lemma find_last_of_app c : forall a b,
  no_byte c b = true -> find_last_of c (a ++ c :: b) = Some (length a).
Proof.
  induction a as [|x a IH]; intros b Hb; cbn [app find_last_of length].
  - apply find_last_of_none in Hb. rewrite Hb. now rewrite Z.eqb_refl.
  - now rewrite (IH b Hb).
Qed.

End TypeArgument.

(** * The claims *)

(** C2 (as stated) fails: the lower-case letter [a] is encoded to [A] and
    decodes to [A]. *)
Lemma C2_lowercase_not_preserved :
  Forall (fun c => spec_stable c = true) [0x61] /\
  convert_petscii env0 = true /\
  petscii2ascii env0 (ascii2petscii env0 [0x61]) <> [0x61].
Proof.
  split; [repeat constructor|]. split; [reflexivity|].
  vm_compute. discriminate.
Qed.

(** C2 (amended): with or without conversion, decoding the encoding of a
    text gives the text back when every byte of it lies in 0x20..0x5B or
    is 0x5D: upper-case letters, digits, space and the punctuation of
    that range. *)
Theorem C2_roundtrip_stable_subset (env : Env) (t : list Z) :
  Forall (fun c => roundtrip_stable c = true) t ->
  petscii2ascii env (ascii2petscii env t) = t.
Proof.
  intros H. unfold petscii2ascii, ascii2petscii.
  destruct (convert_petscii env); cbn [negb]; [|reflexivity].
  induction H as [|c t Hc _ IH]; [reflexivity|].
  cbn [map]. rewrite roundtrip_char by exact Hc. now rewrite IH.
Qed.

Lemma C2_roundtrip_stable_subset_witness :
  Forall (fun c => roundtrip_stable c = true) [0x48; 0x49; 0x32] /\
  petscii2ascii env0 (ascii2petscii env0 [0x48; 0x49; 0x32]) = [0x48; 0x49; 0x32].
Proof.
  split.
  - repeat constructor.
  - apply (C2_roundtrip_stable_subset env0 [0x48; 0x49; 0x32]).
    repeat constructor.
Defined.

(** C6: on a well-formed archive the locator answers for the first entry
    whose decoded name is the target and that is not a deleted entry
    being skipped.  It returns that entry's declared length, the
    position where its directory record begins, and the position after
    the whole directory plus the declared lengths of the entries before
    it; without such an entry it returns -1 and leaves its outputs. *)
Theorem C6_find_in_lbr_first_match
    (env : Env) (es : list DirEnt) (payload target : list Z)
    (length0 offset0 diroffset0 : Z) (skip_deleted : bool) :
  wf_directory es = true ->
  find_in_lbr env (archive es payload) target length0 offset0 diroffset0
              skip_deleted =
  match first_match env target skip_deleted es with
  | Some i =>
    (0, (d_len (nth i es dirent0),
         Z.of_nat (length (header (Z.of_nat (length es)) ++ directory es))
           + sum_len (firstn i es),
         Z.of_nat (length (header (Z.of_nat (length es))
                             ++ directory (firstn i es)))))
  | None => (-1, (length0, offset0, diroffset0))
  end.
Proof. apply find_in_lbr_wf. Qed.

(** A deleted [A] of length 0 precedes a live [A] of 3 bytes: with
    skip-deleted the second one is found. *)
Lemma C6_find_in_lbr_first_match_witness :
  find_in_lbr env0
    (archive [mkDirEnt [0x41] 0x44 0; mkDirEnt [0x42] 0x53 2; mkDirEnt [0x41] 0x53 3]
             [1; 2; 3; 4; 5])
    [0x41] 0 0 0 true
  = (0, (3, 31 + 2, 23)).
Proof.
  exact (C6_find_in_lbr_first_match env0
    [mkDirEnt [0x41] 0x44 0; mkDirEnt [0x42] 0x53 2; mkDirEnt [0x41] 0x53 3]
    [1; 2; 3; 4; 5] [0x41] 0 0 0 true eq_refl).
Defined.

(** C4 (as stated) fails: deleting the 12-byte member [BB] also shortens
    its length field from [12] to [0], so the archive loses 13 bytes. *)
Lemma C4_delete_size_counterexample :
  wf_members [ex_A; ex_BB; ex_C] = true /\
  first_match env0 [0x42; 0x42] false (map dirent_of [ex_A; ex_BB; ex_C]) = Some 1%nat /\
  Z.of_nat (length (snd (delete_lbr env0 (lbr_bytes [ex_A; ex_BB; ex_C])
                            [0x42; 0x42] false false)))
  <> Z.of_nat (length (lbr_bytes [ex_A; ex_BB; ex_C]))
     - Z.of_nat (length (m_data ex_BB)).
Proof. vm_compute. repeat split; discriminate. Qed.

(** C4 (amended): deleting the located member [m] of a well-formed
    archive succeeds and leaves the archive in which the record of [m]
    has the same name, type D and length 0 and the payload of [m] is
    gone; the declared count is unchanged, and the archive is shorter by
    the payload length and by the digits the length field loses. *)
Theorem C4_delete_keeps_entry
    (env : Env) (target : list Z) (skip_deleted : bool)
    (ms1 : list Member) (m : Member) (ms2 : list Member) :
  wf_members (ms1 ++ m :: ms2) = true ->
  first_match env target skip_deleted (map dirent_of (ms1 ++ m :: ms2))
    = Some (length ms1) ->
  let data := lbr_bytes (ms1 ++ m :: ms2) in
  let out := lbr_bytes (ms1 ++ tombstone m :: ms2) in
  delete_lbr env data target skip_deleted false = (0, out) /\
  declared_count env out = declared_count env data /\
  Z.of_nat (length out) =
    Z.of_nat (length data) - Z.of_nat (length (m_data m))
    - (Z.of_nat (length (to_string (Z.of_nat (length (m_data m))))) - 1).
Proof.
  intros Hwf Hfm data out. subst data out.
  destruct (wf_members_app _ _ _ Hwf) as (Hn & _).
  split; [now apply delete_keep|]. split.
  - rewrite !declared_count_members; rewrite !length_app; cbn [length];
      rewrite !length_app in Hn; cbn [length] in Hn; try lia.
  - rewrite !lbr_bytes_length, !map_app, !directory_app, !payload_app.
    cbn [map]. rewrite !directory_cons, !payload_cons, !length_app.
    rewrite !dir_record_length. cbn [tombstone dirent_of d_name d_len m_name m_data length].
    change (length (to_string (Z.of_nat 0))) with 1%nat. lia.
Qed.

Lemma C4_delete_keeps_entry_witness :
  delete_lbr env0 (lbr_bytes [ex_A; ex_BB; ex_C]) [0x42; 0x42] false false
    = (0, lbr_bytes [ex_A; tombstone ex_BB; ex_C]) /\
  declared_count env0 (lbr_bytes [ex_A; tombstone ex_BB; ex_C])
    = declared_count env0 (lbr_bytes [ex_A; ex_BB; ex_C]) /\
  Z.of_nat (length (lbr_bytes [ex_A; tombstone ex_BB; ex_C])) =
    Z.of_nat (length (lbr_bytes [ex_A; ex_BB; ex_C])) - 12 - (2 - 1).
Proof.
  exact (C4_delete_keeps_entry env0 [0x42; 0x42] false [ex_A] ex_BB [ex_C]
           eq_refl eq_refl).
Defined.

(** C3 (as stated) fails: wiping [B] from an archive of ten members also
    shortens the count field from [10] to [9]. *)
Lemma C3_wipe_size_counterexample :
  wf_members ex_ten = true /\
  first_match env0 [0x42] false (map dirent_of ex_ten) = Some 1%nat /\
  Z.of_nat (length (snd (delete_lbr env0 (lbr_bytes ex_ten) [0x42] false true)))
  <> Z.of_nat (length (lbr_bytes ex_ten))
     - Z.of_nat (length (dir_record (dirent_of (nth 1 ex_ten member0))))
     - Z.of_nat (length (m_data (nth 1 ex_ten member0))).
Proof. vm_compute. repeat split; discriminate. Qed.

(** C3 (amended): wiping the located member [m] of a well-formed archive,
    when [m] is not the first entry, succeeds and leaves the archive of
    the other members; the declared count is one less, and the archive
    is shorter by the record of [m], by its payload and by the digits
    the count field loses. *)
Theorem C3_wipe_removes_entry
    (env : Env) (target : list Z) (skip_deleted : bool)
    (m1 : Member) (ms1 : list Member) (m : Member) (ms2 : list Member) :
  wf_members ((m1 :: ms1) ++ m :: ms2) = true ->
  first_match env target skip_deleted
    (map dirent_of ((m1 :: ms1) ++ m :: ms2)) = Some (length (m1 :: ms1)) ->
  let data := lbr_bytes ((m1 :: ms1) ++ m :: ms2) in
  let out := lbr_bytes ((m1 :: ms1) ++ ms2) in
  let n := Z.of_nat (length ((m1 :: ms1) ++ m :: ms2)) in
  delete_lbr env data target skip_deleted true = (0, out) /\
  declared_count env out = declared_count env data - 1 /\
  Z.of_nat (length out) =
    Z.of_nat (length data)
    - Z.of_nat (length (dir_record (dirent_of m)))
    - Z.of_nat (length (m_data m))
    - (Z.of_nat (length (to_string n)) - Z.of_nat (length (to_string (n - 1)))).
Proof.
  intros Hwf Hfm data out n. subst data out n.
  destruct (wf_members_app _ _ _ Hwf) as (Hn & _).
  split; [now apply delete_wipe|].
  assert (Hl : Z.of_nat (length ((m1 :: ms1) ++ ms2))
               = Z.of_nat (length ((m1 :: ms1) ++ m :: ms2)) - 1).
  { rewrite !length_app. cbn [length]. lia. }
  split.
  - rewrite !declared_count_members; lia.
  - rewrite !lbr_bytes_length, !header_length, Hl.
    rewrite !map_app, !directory_app, !payload_app.
    cbn [map]. rewrite !directory_cons, !payload_cons, !length_app.
    lia.
Qed.

Lemma C3_wipe_removes_entry_witness :
  delete_lbr env0 (lbr_bytes [ex_A; ex_BB; ex_C]) [0x42; 0x42] false true
    = (0, lbr_bytes [ex_A; ex_C]) /\
  declared_count env0 (lbr_bytes [ex_A; ex_C])
    = declared_count env0 (lbr_bytes [ex_A; ex_BB; ex_C]) - 1 /\
  Z.of_nat (length (lbr_bytes [ex_A; ex_C])) =
    Z.of_nat (length (lbr_bytes [ex_A; ex_BB; ex_C]))
    - Z.of_nat (length (dir_record (dirent_of ex_BB)))
    - 12 - (1 - 1).
Proof.
  exact (C3_wipe_removes_entry env0 [0x42; 0x42] false ex_A [] ex_BB [ex_C]
           eq_refl eq_refl).
Defined.

(** Wiping the first entry: the loop that copies up to the record reads
    one character too many, and the first byte of the wiped name stays
    in front of the next record. *)
Example wipe_first_entry_keeps_a_name_byte :
  delete_lbr env0 (lbr_bytes [ex_A; ex_BB; ex_C]) (bytes_of "A") false true
  = (0, header 2 ++ bytes_of "A" ++ directory (map dirent_of [ex_BB; ex_C])
        ++ payload_of [ex_BB; ex_C]).
Proof. vm_compute. reflexivity. Qed.

(** C5 (as stated) fails: the new type is written as given, so retyping
    [C] to [PRG] makes the archive two bytes longer. *)
Lemma C5_chtype_size_counterexample :
  wf_members [ex_A; ex_BB; ex_C] = true /\
  first_match env0 [0x43] false (map dirent_of [ex_A; ex_BB; ex_C]) = Some 2%nat /\
  length (snd (chtype_lbr env0 (lbr_bytes [ex_A; ex_BB; ex_C]) [0x43]
                 [0x50; 0x52; 0x47] false))
  <> length (lbr_bytes [ex_A; ex_BB; ex_C]).
Proof. vm_compute. repeat split; discriminate. Qed.

(** C5 (amended): when the new type, encoded, is the single byte [t],
    changing the type of the located member [m] of a well-formed archive
    succeeds and leaves an archive of the same size that differs from
    the original in the type byte of [m] only: the bytes [pre] before it
    (header, earlier records, the name of [m]) and the bytes [post]
    after it (length field, later records, all payload) are unchanged. *)
Theorem C5_chtype_changes_type_byte_only
    (env : Env) (target new_type : list Z) (t : Z) (skip_deleted : bool)
    (ms1 : list Member) (m : Member) (ms2 : list Member) :
  wf_members (ms1 ++ m :: ms2) = true ->
  first_match env target skip_deleted (map dirent_of (ms1 ++ m :: ms2))
    = Some (length ms1) ->
  c_str (ascii2petscii env new_type) = [t] ->
  let data := lbr_bytes (ms1 ++ m :: ms2) in
  let pre := header (Z.of_nat (length (ms1 ++ m :: ms2)))
             ++ directory (map dirent_of ms1) ++ m_name m ++ [CR] in
  let post := [CR] ++ size_field (dirent_of m)
              ++ directory (map dirent_of ms2) ++ payload_of (ms1 ++ m :: ms2) in
  data = pre ++ [m_type m] ++ post /\
  chtype_lbr env data target new_type skip_deleted = (0, pre ++ [t] ++ post) /\
  length (pre ++ [t] ++ post) = length data.
Proof.
  intros Hwf Hfm Ht data pre post.
  assert (Hd : data = pre ++ [m_type m] ++ post).
  { subst data pre post. rewrite lbr_bytes_split, <- !app_assoc.
    rewrite dir_record_fields, payload_app, payload_cons.
    reflexivity. }
  split; [exact Hd|]. split.
  - subst data pre post. rewrite chtype_any by assumption.
    rewrite Ht, <- !app_assoc. reflexivity.
  - rewrite Hd, !length_app. reflexivity.
Qed.

Lemma C5_chtype_changes_type_byte_only_witness :
  lbr_bytes [ex_A; ex_BB; ex_C] =
    (header 3 ++ directory (map dirent_of [ex_A]) ++ [0x42; 0x42] ++ [CR])
    ++ [0x50] ++ [CR] ++ size_field (dirent_of ex_BB)
    ++ directory (map dirent_of [ex_C]) ++ payload_of [ex_A; ex_BB; ex_C] /\
  chtype_lbr env0 (lbr_bytes [ex_A; ex_BB; ex_C]) [0x42; 0x42] [0x75] false =
    (0, (header 3 ++ directory (map dirent_of [ex_A]) ++ [0x42; 0x42] ++ [CR])
        ++ [0x55] ++ [CR] ++ size_field (dirent_of ex_BB)
        ++ directory (map dirent_of [ex_C]) ++ payload_of [ex_A; ex_BB; ex_C]) /\
  length ((header 3 ++ directory (map dirent_of [ex_A]) ++ [0x42; 0x42] ++ [CR])
          ++ [0x55] ++ [CR] ++ size_field (dirent_of ex_BB)
          ++ directory (map dirent_of [ex_C]) ++ payload_of [ex_A; ex_BB; ex_C])
  = length (lbr_bytes [ex_A; ex_BB; ex_C]).
Proof.
  exact (C5_chtype_changes_type_byte_only env0 [0x42; 0x42] [0x75] 0x55 false
           [ex_A] ex_BB [ex_C] eq_refl eq_refl eq_refl).
Defined.

(** C9 (as stated) fails: without [verbose] an entry that declares
    2000000 bytes is listed without the flag. *)
Lemma C9_bad_not_flagged_counterexample :
  bad_len 2000000 = true /\
  verbose env0 = false /\
  list_lbr env0 (bytes_of "test.lbr")
    (archive [mkDirEnt (bytes_of "A") 0x53 2000000; mkDirEnt (bytes_of "B") 0x53 1] [])
    false false
  = (0, [bytes_of "A (S) 2000000"; bytes_of "B (S) 1"]).
Proof. vm_compute. repeat split. Qed.

(** C9 (amended): on every archive whose signature is valid the lister
    returns 0 and prints, for the entries it read in their order (sorted
    when asked), one line [name (type) length] per surviving entry; the
    line ends with [ (bad)] exactly when [verbose] is set and the
    declared length is negative or above 1 MiB, and the entries after it
    are listed all the same. *)
Theorem C9_list_lbr_renders_entries
    (env : Env) (file data : list Z) (skip_deleted sort_numerical : bool) :
  valid_signature env data = true ->
  list_lbr env file data skip_deleted sort_numerical =
  (0, listing_head env file data
      ++ render_listing env skip_deleted (listed_entries env data sort_numerical)).
Proof. apply list_lbr_spec. Qed.

Lemma C9_list_lbr_renders_entries_witness :
  list_lbr (mkEnv true true true (fun _ => false) 0) (bytes_of "test.lbr")
    (archive [mkDirEnt (bytes_of "A") 0x53 2000000; mkDirEnt (bytes_of "B") 0x53 1] [])
    false false
  = (0, [bytes_of "test.lbr 2 entries";
         bytes_of "A (S) 2000000 (bad)"; bytes_of "B (S) 1"]).
Proof.
  exact (C9_list_lbr_renders_entries (mkEnv true true true (fun _ => false) 0)
           (bytes_of "test.lbr")
           (archive [mkDirEnt (bytes_of "A") 0x53 2000000;
                     mkDirEnt (bytes_of "B") 0x53 1] [])
           false false eq_refl).
Defined.

(** C1 (as stated) fails: the file [dir/a.prg] is listed under the name
    [A.PRG], not under its own name [a.prg]. *)
Lemma C1_listed_name_counterexample :
  filename (bytes_of "dir/a.prg") = bytes_of "a.prg" /\
  exists data,
    build_lbr env0 ex_fs (bytes_of "out.lbr") [bytes_of "dir/a.prg"]
              false false false
      = Returned (0, fs_write ex_fs (bytes_of "out.lbr") data) /\
    list_lbr env0 (bytes_of "out.lbr") data false false
      = (0, [bytes_of "A.PRG (P) 1"]) /\
    bytes_of "A.PRG (P) 1" <> bytes_of "a.prg (P) 1".
Proof.
  split; [reflexivity|]. eexists. split; [reflexivity|].
  split; [vm_compute; reflexivity|]. vm_compute. discriminate.
Qed.

(** C1 (amended): building an archive from source files that exist (no
    sort, no padding, no stripping) succeeds, and listing the archive
    prints one line per source file, in the order given: the file name
    as the codec returns it (encoded, then decoded), the type (D for an
    empty file, else P, U or R for the extensions .prg, .usr and .rel in
    any case, else S) and the length of the file. *)
Theorem C1_build_then_list
    (env : Env) (fs : FS) (outfile : list Z) (input : list (list Z)) :
  forallb (source_ok env fs) input = true ->
  Z.of_nat (length input) <= INT_MAX ->
  exists data,
    build_lbr env fs outfile input false false false
      = Returned (0, fs_write fs outfile data) /\
    list_lbr env outfile data false false =
    (0, (if verbose env
         then [filename outfile ++ bytes_of " "
               ++ to_string (Z.of_nat (length input)) ++ bytes_of " entries"]
         else [])
        ++ map (source_line env fs) input) /\
    length (map (source_line env fs) input) = length input.
Proof.
  intros Hok Hn. eexists. split; [now apply build_lbr_plain|].
  split; [now apply list_lbr_built|apply length_map].
Qed.

(** The example of the README: [BB.PRG] (empty), [WW.TXT] (8 bytes) and
    [HELLO.DAT] (12 bytes). *)
Lemma C1_build_then_list_witness :
  exists data,
    build_lbr env0 ex_fs (bytes_of "test.lbr")
      [bytes_of "BB.PRG"; bytes_of "WW.TXT"; bytes_of "HELLO.DAT"]
      false false false
      = Returned (0, fs_write ex_fs (bytes_of "test.lbr") data) /\
    list_lbr env0 (bytes_of "test.lbr") data false false =
    (0, [bytes_of "BB.PRG (D) 0"; bytes_of "WW.TXT (S) 8";
         bytes_of "HELLO.DAT (S) 12"]) /\
    length [bytes_of "BB.PRG (D) 0"; bytes_of "WW.TXT (S) 8";
            bytes_of "HELLO.DAT (S) 12"] = 3%nat.
Proof.
  apply (C1_build_then_list env0 ex_fs (bytes_of "test.lbr")
           [bytes_of "BB.PRG"; bytes_of "WW.TXT"; bytes_of "HELLO.DAT"]).
  - reflexivity.
  - vm_compute. discriminate.
Defined.

(** C8: with sort and padding, on inputs that exist, the build returns 1
    exactly when the integer value of the last name after sorting is not
    above that of the first, and then it leaves the file system as it
    was (the output file is not even opened); when it is above, the
    build returns 0 with the output file written, as long as no name has
    the value [INT_MAX]. *)
Theorem C8_padding_fails_iff
    (env : Env) (fs : FS) (outfile : list Z) (input : list (list Z))
    (strip_extension : bool) :
  input <> [] ->
  forallb (exists_in fs) input = true ->
  let sorted := sorted_entries env fs input in
  let first := name_value (hd entry0 sorted) in
  let last_ := name_value (last sorted entry0) in
  let run := build_lbr env fs outfile input true true strip_extension in
  (forall r fs', run = Returned (r, fs') -> (r = 1 <-> last_ <= first)) /\
  (last_ <= first -> run = Returned (1, fs)) /\
  (first < last_ ->
   Forall (fun f => name_value f < INT_MAX) sorted ->
   exists out, run = Returned (0, fs_write fs outfile out)).
Proof.
  intros Hne Hex sorted first last_ run. subst run.
  unfold build_lbr. rewrite stat_inputs_exists by exact Hex.
  fold (sorted_entries env fs input). fold sorted.
  assert (Hs : sorted <> []).
  { apply std_sort_nonempty. destruct input; [contradiction|discriminate]. }
  destruct (pad_sorted_spec env sorted entry0 Hs) as [Hfail Hok].
  fold first last_ in Hfail, Hok.
  split; [|split].
  - intros r fs'. destruct (Z_le_gt_dec last_ first) as [Hle|Hgt].
    + rewrite (Hfail Hle). intros E. inversion E. tauto.
    + destruct (Hok ltac:(lia)) as [Hnf _].
      destruct (pad_sorted env sorted) as [[|padded]|].
      * now contradiction (Hnf PadFail).
      * intros E. inversion E. lia.
      * discriminate.
  - intros H. now rewrite Hfail.
  - intros H Hmax. destruct (Hok H) as [_ Hret].
    destruct (Hret Hmax) as [padded ->]. now eexists.
Qed.

(** Files named [0] and [5], given as [5] and [0]: the build pads. *)
Lemma C8_padding_fails_iff_witness :
  exists out,
    build_lbr env0 ex_fs_pad (bytes_of "out.lbr") [bytes_of "5"; bytes_of "0"]
              true true false
    = Returned (0, fs_write ex_fs_pad (bytes_of "out.lbr") out).
Proof.
  apply (C8_padding_fails_iff env0 ex_fs_pad (bytes_of "out.lbr")
           [bytes_of "5"; bytes_of "0"] false).
  - discriminate.
  - reflexivity.
  - vm_compute. reflexivity.
  - repeat constructor.
Defined.

(** [5] given alone: the last value is not above the first. *)
Example padding_single_file_fails :
  build_lbr env0 ex_fs_pad (bytes_of "out.lbr") [bytes_of "5"] true true false
  = Returned (1, ex_fs_pad).
Proof. reflexivity. Qed.

(** C7 (as stated) fails: the first entry is flagged, but reading the
    directory has failed on the empty name of the second record; the
    four bytes from there on stay unread and the file written is
    empty. *)
Lemma C7_failed_stream_counterexample :
  map bad_length (fst (extract_directory env0 ex_bad_empty_name)) = [true; false] /\
  rest (snd (extract_directory env0 ex_bad_empty_name)) = CR :: bytes_of "xyz" /\
  exists fs,
    extract_lbr env0 no_files ex_bad_empty_name (bytes_of "d") [] false false
      = Returned (0, fs) /\
    fs (bytes_of "d/A") = Some [].
Proof.
  split; [vm_compute; reflexivity|]. split; [vm_compute; reflexivity|].
  eexists. split; vm_compute; reflexivity.
Qed.

(** C7 (amended): when the extraction loop comes to the first entry [f]
    whose [bad_length] is set, with the stream still good and fewer than
    2^31 bytes ahead, it writes all bytes ahead, as they are, to the
    file named [f] (the raw name) in the destination folder, and stops:
    the operation returns 0, and the file system is the one left by the
    entries before [f] but for that file, so nothing is extracted for
    the entries after [f]. *)
Theorem C7_extract_globs_rest
    (env : Env) (dest_folder : list Z) (targets : list (list Z))
    (skip_deleted add_extension : bool) (fs : FS) (data : list Z)
    (pre : list FileEntry) (f : FileEntry) (post : list FileEntry)
    (s0 s1 : istream) (fs1 : FS) :
  valid_signature env data = true ->
  extract_directory env data = (pre ++ f :: post, s0) ->
  Forall not_flagged pre ->
  bad_length f = true ->
  extract_loop env dest_folder targets skip_deleted add_extension pre s0 fs
    = Returned (s1, fs1) ->
  good s1 = true ->
  Z.of_nat (length (rest s1)) < 2 ^ 31 ->
  exists fs2,
    extract_lbr env fs data dest_folder targets skip_deleted add_extension
      = Returned (0, fs2) /\
    fs2 (path_append dest_folder (fe_name f)) = Some (rest s1) /\
    forall p, p <> path_append dest_folder (fe_name f) -> fs2 p = fs1 p.
Proof. apply extract_lbr_glob. Qed.

Lemma C7_extract_globs_rest_witness :
  exists fs2,
    extract_lbr env0 no_files ex_bad (bytes_of "d") [] false false
      = Returned (0, fs2) /\
    fs2 (bytes_of "d/BB") = Some (bytes_of "rest of it") /\
    forall p, p <> bytes_of "d/BB" ->
      fs2 p = fs_write no_files (bytes_of "d/A") (bytes_of "x") p.
Proof.
  apply (C7_extract_globs_rest env0 (bytes_of "d") [] false false no_files ex_bad
           [mkFileEntry (bytes_of "A") [] 1 (bytes_of "S") false]
           (mkFileEntry (bytes_of "BB") [] 9999999 (bytes_of "S") true)
           [mkFileEntry (bytes_of "C") [] 2 (bytes_of "S") false]
           (snd (extract_directory env0 ex_bad))
           (St (firstn 39 ex_bad) (skipn 39 ex_bad))
           (fs_write no_files (bytes_of "d/A") (bytes_of "x"))).
  - vm_compute. reflexivity.
  - vm_compute. reflexivity.
  - repeat constructor.
  - reflexivity.
  - vm_compute. reflexivity.
  - vm_compute. reflexivity.
  - vm_compute. reflexivity.
Defined.

(** C10: extracting [BB] alone from the archive of [A], [BB] and [C]
    also writes a file for [A], holding the first byte of the payload of
    [BB]. *)
Theorem C10_extract_writes_non_target :
  existsb (list_eqb (bytes_of "A")) [bytes_of "BB"] = false /\
  exists fs,
    extract_lbr env0 no_files (lbr_bytes [ex_A; ex_BB; ex_C]) (bytes_of "d")
                [bytes_of "BB"] false false
      = Returned (0, fs) /\
    fs (bytes_of "d/A") = Some (bytes_of "0").
Proof.
  split; [reflexivity|]. eexists. split; vm_compute; reflexivity.
Qed.

(** * Further properties of the code *)

(** ** The codec *)

(** X1: with conversion enabled, a text of bytes survives encoding and
    decoding exactly when each of its bytes lies in 0x20..0x5B or is
    0x5D. *)
Theorem X1_roundtrip_exactly_on_stable_bytes (env : Env) (t : list Z) :
  convert_petscii env = true ->
  forallb is_byte t = true ->
  (petscii2ascii env (ascii2petscii env t) = t <->
   forallb roundtrip_stable t = true).
Proof.
  intros Hc Hb. unfold petscii2ascii, ascii2petscii. rewrite Hc. cbn [negb].
  induction t as [|b t IH]; [split; reflexivity|].
  cbn [forallb] in Hb. apply andb_prop in Hb. destruct Hb as [Hb Ht].
  cbn [map forallb]. rewrite <- (roundtrip_char_iff env b Hb). split.
  - intros E. injection E as E1 E2. apply Z.eqb_eq in E1. rewrite E1.
    now apply IH.
  - intros E. apply andb_prop in E. destruct E as [E1 E2].
    apply Z.eqb_eq in E1. rewrite E1. f_equal. now apply IH.
Qed.

Lemma X1_roundtrip_exactly_on_stable_bytes_witness :
  petscii2ascii env0 (ascii2petscii env0 (bytes_of "Readme.txt"))
    = bytes_of "Readme.txt" <->
  forallb roundtrip_stable (bytes_of "Readme.txt") = true.
Proof.
  apply (X1_roundtrip_exactly_on_stable_bytes env0 (bytes_of "Readme.txt"));
    reflexivity.
Defined.

(** X2: on bytes, encoding twice is encoding once, decoding twice is
    decoding once, and what encoding and decoding return is returned
    unchanged by a second pass through both. *)
Theorem X2_codec_idempotent (env : Env) (t : list Z) :
  forallb is_byte t = true ->
  ascii2petscii env (ascii2petscii env t) = ascii2petscii env t /\
  petscii2ascii env (petscii2ascii env t) = petscii2ascii env t /\
  petscii2ascii env (ascii2petscii env
    (petscii2ascii env (ascii2petscii env t)))
  = petscii2ascii env (ascii2petscii env t).
Proof.
  intros Hb. unfold petscii2ascii, ascii2petscii.
  destruct (convert_petscii env); cbn [negb]; [|repeat split; reflexivity].
  rewrite !map_map. repeat split; apply map_char_ext; try exact Hb; intros b H.
  - now apply encode_char_idem.
  - now apply decode_char_idem.
  - apply roundtrip_char, roundtrip_char_stable, H.
Qed.

Lemma X2_codec_idempotent_witness :
  ascii2petscii env0 (ascii2petscii env0 (bytes_of "a_b{c}.Prg"))
    = ascii2petscii env0 (bytes_of "a_b{c}.Prg") /\
  petscii2ascii env0 (petscii2ascii env0 (bytes_of "a_b{c}.Prg"))
    = petscii2ascii env0 (bytes_of "a_b{c}.Prg") /\
  petscii2ascii env0 (ascii2petscii env0
    (petscii2ascii env0 (ascii2petscii env0 (bytes_of "a_b{c}.Prg"))))
  = petscii2ascii env0 (ascii2petscii env0 (bytes_of "a_b{c}.Prg")).
Proof.
  apply (X2_codec_idempotent env0 (bytes_of "a_b{c}.Prg")). reflexivity.
Defined.

(** X3: with conversion enabled, an encoded text has the length of the
    text and holds neither a carriage return nor a NUL, whatever the
    text: an encoded name cannot end a directory field early. *)
Theorem X3_encoded_text_keeps_fields (env : Env) (t : list Z) :
  convert_petscii env = true ->
  length (ascii2petscii env t) = length t /\
  no_byte CR (ascii2petscii env t) = true /\
  no_byte NUL (ascii2petscii env t) = true.
Proof.
  intros Hc. split; [apply encoded_length|now apply encoded_plain].
Qed.

Lemma X3_encoded_text_keeps_fields_witness :
  length (ascii2petscii env0 [0x41; CR; NUL; 0x42]) = 4%nat /\
  no_byte CR (ascii2petscii env0 [0x41; CR; NUL; 0x42]) = true /\
  no_byte NUL (ascii2petscii env0 [0x41; CR; NUL; 0x42]) = true.
Proof.
  apply (X3_encoded_text_keeps_fields env0 [0x41; CR; NUL; 0x42]). reflexivity.
Defined.

(** X4: with conversion enabled, encoding does not see the case of
    letters: a text of bytes and its lower-case form are encoded alike,
    so two files whose names differ in case only get the same entry
    name. *)
Theorem X4_encoding_ignores_case (env : Env) (t : list Z) :
  convert_petscii env = true ->
  forallb is_byte t = true ->
  ascii2petscii env (map tolower t) = ascii2petscii env t.
Proof.
  intros Hc Hb. unfold ascii2petscii. rewrite Hc. cbn [negb]. rewrite map_map.
  apply map_char_ext; [exact Hb|]. intros b H. now apply encode_char_tolower.
Qed.

Lemma X4_encoding_ignores_case_witness :
  ascii2petscii env0 (map tolower (bytes_of "Hello.DAT"))
  = ascii2petscii env0 (bytes_of "Hello.DAT").
Proof.
  apply (X4_encoding_ignores_case env0 (bytes_of "Hello.DAT")); reflexivity.
Defined.

(** ** Failures *)

(** X5: on a file of three bytes or more that does not start with [DWB],
    every operation fails and changes nothing: the locator returns -1
    with its outputs as passed, delete, wipe, change type and append
    return -1 with the content as it was, the lister returns -1 after
    the error message, and extract returns 1 with the file system as it
    was. *)
Theorem X5_invalid_signature_changes_nothing
    (env : Env) (fs : FS) (data file dest target new_type : list Z)
    (targets : list (list Z)) (l o d : Z) (b1 b2 : bool) :
  (3 <= length data)%nat ->
  firstn 3 data <> bytes_of "DWB" ->
  find_in_lbr env data target l o d b1 = (-1, (l, o, d)) /\
  delete_lbr env data target b1 b2 = (-1, data) /\
  chtype_lbr env data target new_type b1 = (-1, data) /\
  add_lbr env fs data targets b1 = Returned (-1, data) /\
  list_lbr env file data b1 b2 = (-1, [str_invalid]) /\
  extract_lbr env fs data dest targets b1 b2 = Returned (1, fs).
Proof.
  intros Hlen Hsig.
  assert (Hv : valid_signature env data = false).
  { rewrite valid_signature_firstn by exact Hlen.
    destruct (list_eqb (firstn 3 data) (bytes_of "DWB")) eqn:E; [|reflexivity].
    apply list_eqb_eq in E. contradiction. }
  pose proof (find_in_lbr_invalid env data target 0 0 0 b1 Hv) as Hf.
  split; [now apply find_in_lbr_invalid|].
  split; [apply (delete_lbr_failed env data target b1 b2);
          [now rewrite Hf|reflexivity]|].
  split; [apply (chtype_lbr_failed env data target new_type b1);
          [now rewrite Hf|reflexivity]|].
  split; [now apply add_lbr_invalid|].
  unfold valid_signature in Hv. unfold list_lbr, extract_lbr.
  destruct (read_signature env (open data)) as [sg s]. cbn [fst] in Hv.
  rewrite Hv. split; reflexivity.
Qed.

Lemma X5_invalid_signature_changes_nothing_witness :
  find_in_lbr env0 (bytes_of "PK archive") (bytes_of "A") 7 8 9 false
    = (-1, (7, 8, 9)) /\
  delete_lbr env0 (bytes_of "PK archive") (bytes_of "A") false true
    = (-1, bytes_of "PK archive") /\
  chtype_lbr env0 (bytes_of "PK archive") (bytes_of "A") (bytes_of "P") false
    = (-1, bytes_of "PK archive") /\
  add_lbr env0 ex_fs (bytes_of "PK archive") [bytes_of "WW.TXT"] false
    = Returned (-1, bytes_of "PK archive") /\
  list_lbr env0 (bytes_of "x.lbr") (bytes_of "PK archive") false true
    = (-1, [str_invalid]) /\
  extract_lbr env0 ex_fs (bytes_of "PK archive") (bytes_of "d")
              [bytes_of "WW.TXT"] false true
    = Returned (1, ex_fs).
Proof.
  apply (X5_invalid_signature_changes_nothing env0 ex_fs (bytes_of "PK archive")
           (bytes_of "x.lbr") (bytes_of "d") (bytes_of "A") (bytes_of "P")
           [bytes_of "WW.TXT"] 7 8 9 false true).
  - cbn. lia.
  - vm_compute. discriminate.
Defined.

(** X6: when no entry of a well-formed archive is accepted for the
    target, the locator returns -1 with its outputs as passed, and
    delete, wipe and change type return -1 and leave the archive as it
    was. *)
Theorem X6_missing_name_changes_nothing
    (env : Env) (es : list DirEnt) (payload target new_type : list Z)
    (l o d : Z) (skip_deleted wipe : bool) :
  wf_directory es = true ->
  first_match env target skip_deleted es = None ->
  find_in_lbr env (archive es payload) target l o d skip_deleted
    = (-1, (l, o, d)) /\
  delete_lbr env (archive es payload) target skip_deleted wipe
    = (-1, archive es payload) /\
  chtype_lbr env (archive es payload) target new_type skip_deleted
    = (-1, archive es payload).
Proof.
  intros Hwf Hfm.
  assert (Hf : forall l o d,
    find_in_lbr env (archive es payload) target l o d skip_deleted
    = (-1, (l, o, d))).
  { intros. rewrite find_in_lbr_wf by exact Hwf. now rewrite Hfm. }
  split; [apply Hf|]. split.
  - apply (delete_lbr_failed env _ target skip_deleted wipe);
      [now rewrite Hf|reflexivity].
  - apply (chtype_lbr_failed env _ target new_type skip_deleted);
      [now rewrite Hf|reflexivity].
Qed.

(** The only [A] of the archive is a deleted entry, and deleted entries
    are skipped. *)
Lemma X6_missing_name_changes_nothing_witness :
  find_in_lbr env0
    (archive [mkDirEnt (bytes_of "A") 0x44 0; mkDirEnt (bytes_of "B") 0x53 2]
             (bytes_of "bb"))
    (bytes_of "A") 7 8 9 true = (-1, (7, 8, 9)) /\
  delete_lbr env0
    (archive [mkDirEnt (bytes_of "A") 0x44 0; mkDirEnt (bytes_of "B") 0x53 2]
             (bytes_of "bb"))
    (bytes_of "A") true true
  = (-1, archive [mkDirEnt (bytes_of "A") 0x44 0; mkDirEnt (bytes_of "B") 0x53 2]
                 (bytes_of "bb")) /\
  chtype_lbr env0
    (archive [mkDirEnt (bytes_of "A") 0x44 0; mkDirEnt (bytes_of "B") 0x53 2]
             (bytes_of "bb"))
    (bytes_of "A") (bytes_of "P") true
  = (-1, archive [mkDirEnt (bytes_of "A") 0x44 0; mkDirEnt (bytes_of "B") 0x53 2]
                 (bytes_of "bb")).
Proof.
  apply (X6_missing_name_changes_nothing env0
           [mkDirEnt (bytes_of "A") 0x44 0; mkDirEnt (bytes_of "B") 0x53 2]
           (bytes_of "bb") (bytes_of "A") (bytes_of "P") 7 8 9 true true);
    reflexivity.
Defined.

(** X7: a record whose length is above 1 MiB makes the locator return
    -1 for every target, also for one whose entry comes before that
    record; so delete, wipe and change type leave the archive as it was,
    and so does append. *)
Theorem X7_bad_length_stops_the_mutators
    (env : Env) (fs : FS) (es1 : list DirEnt) (e : DirEnt) (es2 : list DirEnt)
    (payload target new_type : list Z) (targets : list (list Z))
    (l o d : Z) (skip_deleted b : bool) :
  forallb wf_dirent es1 = true ->
  bad_dirent e = true ->
  Z.of_nat (length (es1 ++ e :: es2)) <= INT_MAX ->
  forallb (exists_in fs) targets = true ->
  let data := archive (es1 ++ e :: es2) payload in
  fst (find_in_lbr env data target l o d skip_deleted) = -1 /\
  delete_lbr env data target skip_deleted b = (-1, data) /\
  chtype_lbr env data target new_type skip_deleted = (-1, data) /\
  add_lbr env fs data targets b = Returned (-1, data).
Proof.
  intros Hes He Hn Hex data. subst data.
  split; [now apply find_in_lbr_bad_length|].
  split; [apply (delete_lbr_failed env _ target skip_deleted b);
          [now apply find_in_lbr_bad_length|reflexivity]|].
  split; [apply (chtype_lbr_failed env _ target new_type skip_deleted);
          [now apply find_in_lbr_bad_length|reflexivity]|].
  now apply add_lbr_bad_length.
Qed.

(** [A] is the first entry; the second one declares 9999999 bytes. *)
Lemma X7_bad_length_stops_the_mutators_witness :
  fst (find_in_lbr env0 ex_bad (bytes_of "A") 0 0 0 false) = -1 /\
  delete_lbr env0 ex_bad (bytes_of "A") false false = (-1, ex_bad) /\
  chtype_lbr env0 ex_bad (bytes_of "A") (bytes_of "P") false = (-1, ex_bad) /\
  add_lbr env0 ex_fs ex_bad [bytes_of "WW.TXT"] false = Returned (-1, ex_bad).
Proof.
  apply (X7_bad_length_stops_the_mutators env0 ex_fs
           [mkDirEnt (bytes_of "A") 0x53 1]
           (mkDirEnt (bytes_of "BB") 0x53 9999999)
           [mkDirEnt (bytes_of "C") 0x53 2]
           (bytes_of "xrest of it") (bytes_of "A") (bytes_of "P")
           [bytes_of "WW.TXT"] 0 0 0 false false).
  - reflexivity.
  - reflexivity.
  - vm_compute. discriminate.
  - reflexivity.
Defined.

(** ** Appending *)

(** X8: appending source files that exist to a well-formed archive
    succeeds and leaves the archive of the old members followed by one
    member per file, in the order given, with the written name, the type
    and the content of the file; the declared count grows by the number
    of files. *)
Theorem X8_append_adds_members
    (env : Env) (fs : FS) (ms : list Member) (targets : list (list Z))
    (strip_extension : bool) :
  wf_members ms = true ->
  forallb (source_ok env fs) targets = true ->
  Z.of_nat (length ms + length targets) <= INT_MAX ->
  let out := lbr_bytes (ms ++ map (source_member env fs strip_extension) targets) in
  add_lbr env fs (lbr_bytes ms) targets strip_extension = Returned (0, out) /\
  declared_count env out
    = declared_count env (lbr_bytes ms) + Z.of_nat (length targets).
Proof.
  intros Hwf Hok Hn out. subst out.
  split; [now apply add_lbr_members|].
  rewrite !declared_count_members; rewrite ?length_app, ?length_map; lia.
Qed.

Lemma X8_append_adds_members_witness :
  add_lbr env0 ex_fs (lbr_bytes [ex_A; ex_BB]) [bytes_of "WW.TXT"; bytes_of "BB.PRG"]
          false
  = Returned (0, lbr_bytes [ex_A; ex_BB;
                            mkMember (bytes_of "WW.TXT") 0x53 (bytes_of "wwwwwwww");
                            mkMember (bytes_of "BB.PRG") 0x44 []]) /\
  declared_count env0
    (lbr_bytes [ex_A; ex_BB;
                mkMember (bytes_of "WW.TXT") 0x53 (bytes_of "wwwwwwww");
                mkMember (bytes_of "BB.PRG") 0x44 []])
  = declared_count env0 (lbr_bytes [ex_A; ex_BB]) + 2.
Proof.
  apply (X8_append_adds_members env0 ex_fs [ex_A; ex_BB]
           [bytes_of "WW.TXT"; bytes_of "BB.PRG"] false).
  - reflexivity.
  - reflexivity.
  - vm_compute. discriminate.
Defined.

(** X9: listing a well-formed archive (unsorted) returns 0 and prints,
    after the count line of verbose mode, one line [name (type) length]
    per member in directory order; with skip-deleted a member of type D
    is left out (verbose mode prints [[deleted]] for it). *)
Theorem X9_listing_of_members
    (env : Env) (file : list Z) (ms : list Member) (skip_deleted : bool) :
  wf_members ms = true ->
  list_lbr env file (lbr_bytes ms) skip_deleted false =
  (0, (if verbose env
       then [filename file ++ bytes_of " " ++ to_string (Z.of_nat (length ms))
             ++ bytes_of " entries"]
       else [])
      ++ member_lines env skip_deleted ms).
Proof. apply list_lbr_members. Qed.

Lemma X9_listing_of_members_witness :
  list_lbr env0 (bytes_of "t.lbr") (lbr_bytes [ex_A; tombstone ex_BB; ex_C])
           true false
  = (0, [bytes_of "A (S) 1"; bytes_of "C (S) 2"]).
Proof.
  exact (X9_listing_of_members env0 (bytes_of "t.lbr")
           [ex_A; tombstone ex_BB; ex_C] true eq_refl).
Defined.

(** X10: after appending source files of at most 1 MiB (names not
    stripped) to a well-formed archive, the listing is the listing of
    the old archive followed by the lines of the new files in the order
    given. *)
Theorem X10_listing_after_append
    (env : Env) (fs : FS) (file : list Z) (ms : list Member)
    (targets : list (list Z)) (skip_deleted : bool) :
  wf_members ms = true ->
  forallb (source_small env fs) targets = true ->
  Z.of_nat (length ms + length targets) <= INT_MAX ->
  verbose env = false ->
  exists out,
    add_lbr env fs (lbr_bytes ms) targets false = Returned (0, out) /\
    snd (list_lbr env file out skip_deleted false) =
    snd (list_lbr env file (lbr_bytes ms) skip_deleted false)
    ++ member_lines env skip_deleted (map (source_member env fs false) targets).
Proof.
  intros Hms Hs Hn Hv.
  destruct (wf_source_members env fs targets Hs ltac:(lia)) as [_ Hok].
  eexists. split; [now apply add_lbr_members|].
  rewrite !list_lbr_members by (try exact Hms; now apply wf_members_append).
  rewrite Hv. cbn [snd app]. apply member_lines_app.
Qed.

Lemma X10_listing_after_append_witness :
  exists out,
    add_lbr env0 ex_fs (lbr_bytes [ex_A; ex_BB])
            [bytes_of "WW.TXT"; bytes_of "dir/a.prg"] false
      = Returned (0, out) /\
    snd (list_lbr env0 (bytes_of "t.lbr") out false false) =
    snd (list_lbr env0 (bytes_of "t.lbr") (lbr_bytes [ex_A; ex_BB]) false false)
    ++ [bytes_of "WW.TXT (S) 8"; bytes_of "A.PRG (P) 1"].
Proof.
  apply (X10_listing_after_append env0 ex_fs (bytes_of "t.lbr") [ex_A; ex_BB]
           [bytes_of "WW.TXT"; bytes_of "dir/a.prg"] false).
  - reflexivity.
  - reflexivity.
  - vm_compute. discriminate.
  - reflexivity.
Defined.

(** ** Extraction *)

(** X11: extracting a well-formed archive without targets, when the
    unassigned [bad_length] of an entry reads as false, returns 0 and
    writes, member after member, each member that is not empty (and not
    a deleted one being skipped) to the file of its decoded name in the
    destination folder, with its whole payload; nothing else is
    written. *)
Theorem X11_extract_all_members
    (env : Env) (fs : FS) (ms : list Member) (dest_folder : list Z)
    (skip_deleted add_extension : bool) :
  wf_members ms = true ->
  flags_read_false env ->
  extract_lbr env fs (lbr_bytes ms) dest_folder [] skip_deleted add_extension =
  Returned (0, fold_left (extract_member env dest_folder skip_deleted add_extension)
                         ms fs).
Proof. intros. now apply extract_lbr_members. Qed.

Lemma X11_extract_all_members_witness :
  extract_lbr env0 no_files (lbr_bytes [ex_A; tombstone ex_BB; ex_C])
              (bytes_of "d") [] false true
  = Returned (0, fs_write (fs_write no_files (bytes_of "d/A.seq") (bytes_of "x"))
                          (bytes_of "d/C.seq") (bytes_of "zz")).
Proof.
  apply (X11_extract_all_members env0 no_files [ex_A; tombstone ex_BB; ex_C]
           (bytes_of "d") false true).
  - reflexivity.
  - intros i. reflexivity.
Defined.



(** X13: the comparator [num_cmp] is a strict weak ordering, as
    [std::sort] requires of it: no entry is before itself, the relation
    is transitive, and two entries neither of which is before the other
    have the same name. *)
Theorem X13_num_cmp_strict_order :
  (forall f, num_cmp f f = false) /\
  (forall f g h, num_cmp f g = true -> num_cmp g h = true -> num_cmp f h = true) /\
  (forall f g, num_cmp f g = false -> num_cmp g f = false ->
               fe_name f = fe_name g).
Proof.
  split; [exact num_cmp_irrefl|]. split; [exact num_cmp_trans|exact num_cmp_total].
Qed.

Lemma X13_num_cmp_strict_order_witness :
  num_cmp (numbered 9 [] 0) (numbered 100 [] 0) = true.
Proof.
  apply (proj1 (proj2 X13_num_cmp_strict_order)
           (numbered 9 [] 0) (numbered 10 [] 0) (numbered 100 [] 0));
    reflexivity.
Defined.

(** X14: on the decimal forms of two numbers that are not negative the
    comparator is the order of the numbers, whatever the other fields
    of the entries are: shorter names first, names of one length by
    their bytes. *)
Theorem X14_num_cmp_is_numeric
    (a b : Z) (pa pb : list Z) (la lb : Z) :
  0 <= a -> 0 <= b ->
  num_cmp (numbered a pa la) (numbered b pb lb) = (a <? b).
Proof. apply num_cmp_numbered. Qed.

Lemma X14_num_cmp_is_numeric_witness :
  num_cmp (numbered 9 [] 0) (numbered 10 [] 0) = (9 <? 10).
Proof.
  apply (X14_num_cmp_is_numeric 9 10 [] [] 0 0); lia.
Defined.

(** X15: a build with sort and without padding, on inputs that exist,
    returns 0 and writes the entries of the inputs, each of them once,
    in an order in which no entry is before its predecessor for the
    comparator; when the names are decimal numbers, their values do not
    go down. *)
Theorem X15_build_sorted
    (env : Env) (fs : FS) (outfile : list Z) (input : list (list Z))
    (strip_extension : bool) :
  forallb (exists_in fs) input = true ->
  let sorted := sorted_entries env fs input in
  build_lbr env fs outfile input true false strip_extension =
    Returned (0, fs_write fs outfile
                   (built_archive env (fs_write fs outfile []) strip_extension
                                  sorted)) /\
  Permutation (map (stat_entry env fs) input) sorted /\
  Sorted num_le sorted /\
  (forallb canonical sorted = true ->
   Sorted (fun f g => name_value f <= name_value g) sorted).
Proof.
  intros Hex sorted. split; [|split; [|split]].
  - unfold build_lbr. rewrite stat_inputs_exists by exact Hex. reflexivity.
  - apply std_sort_perm.
  - apply std_sort_sorted.
  - apply sorted_numeric. apply std_sort_sorted.
Qed.

Lemma X15_build_sorted_witness :
  build_lbr env0 ex_fs_pad (bytes_of "out.lbr") [bytes_of "5"; bytes_of "0"]
            true false false =
  Returned (0, fs_write ex_fs_pad (bytes_of "out.lbr")
                 (bytes_of "DWB 2 " ++ [CR]
                  ++ bytes_of "0" ++ [CR] ++ bytes_of "S" ++ [CR]
                  ++ bytes_of " 1 " ++ [CR]
                  ++ bytes_of "5" ++ [CR] ++ bytes_of "S" ++ [CR]
                  ++ bytes_of " 1 " ++ [CR]
                  ++ bytes_of "ab")).
Proof.
  apply (proj1 (X15_build_sorted env0 ex_fs_pad (bytes_of "out.lbr")
                  [bytes_of "5"; bytes_of "0"] false eq_refl)).
Defined.

(** X16: a build with sort and padding, on at least two inputs that
    exist and whose file names are the decimal forms of different
    numbers from 0 to [INT_MAX] - 1, returns 0 and writes one entry for
    every number from the least to the greatest of them, in this order:
    the names of the entries written are the decimal forms of these
    numbers, every input has its entry, and every other entry is a
    filler of length 0. *)
Theorem X16_padding_fills_the_gaps
    (env : Env) (fs : FS) (outfile : list Z) (input : list (list Z))
    (strip_extension : bool) :
  forallb (exists_in fs) input = true ->
  (2 <= length input)%nat ->
  forallb canonical (map (stat_entry env fs) input) = true ->
  NoDup (map name_value (map (stat_entry env fs) input)) ->
  let sorted := sorted_entries env fs input in
  let first := name_value (hd entry0 sorted) in
  let last_ := name_value (last sorted entry0) in
  let padded := pad_fill env first sorted in
  build_lbr env fs outfile input true true strip_extension =
    Returned (0, fs_write fs outfile
                   (built_archive env (fs_write fs outfile []) strip_extension
                                  padded)) /\
  map fe_name padded =
    map to_string (zseq first (Z.to_nat (last_ - first + 1))) /\
  (forall f, In f (map (stat_entry env fs) input) -> In f padded) /\
  (forall f, In f padded ->
     In f (map (stat_entry env fs) input) \/ exists j, f = filler env j).
Proof.
  intros Hex Hlen Hcan Hnd sorted first last_ padded.
  pose proof (std_sort_perm (map (stat_entry env fs) input)) as Hperm.
  fold (sorted_entries env fs input) in Hperm. fold sorted in Hperm.
  assert (Hcs : forallb canonical sorted = true).
  { apply forallb_forall. intros f Hf.
    apply (proj1 (forallb_forall _ _) Hcan).
    apply (Permutation_in f (Permutation_sym Hperm) Hf). }
  assert (Hnds : NoDup (map name_value sorted)).
  { apply (Permutation_NoDup (Permutation_map name_value Hperm) Hnd). }
  assert (Hls : (2 <= length sorted)%nat).
  { rewrite <- (Permutation_length Hperm), length_map. exact Hlen. }
  assert (Hne : sorted <> []).
  { intros E. rewrite E in Hls. cbn in Hls. lia. }
  assert (Hinc : increasing_from first sorted = true).
  { apply sorted_increasing; try assumption.
    - apply std_sort_sorted.
    - intros d _. subst first. destruct sorted; [contradiction|cbn [hd]; lia]. }
  assert (Hfl : first < last_).
  { subst first last_. destruct sorted as [|x [|y r]];
      [contradiction|cbn in Hls; lia|].
    cbn [hd increasing_from] in *.
    apply andb_prop in Hinc. destruct Hinc as [_ Hinc].
    change (last (x :: y :: r) entry0) with (last (y :: r) entry0).
    pose proof (increasing_last_bound (y :: r) (name_value x + 1) entry0
                  ltac:(discriminate) Hinc). lia. }
  assert (Hmax : last_ < INT_MAX).
  { pose proof (last_forallb canonical sorted entry0 Hne Hcs) as Hc.
    destruct (canonical_spec _ Hc). subst last_. lia. }
  split; [|split; [|split]].
  - unfold build_lbr. rewrite stat_inputs_exists by exact Hex.
    fold (sorted_entries env fs input). fold sorted.
    rewrite (pad_sorted_fill env sorted entry0 Hne Hinc Hfl Hmax). reflexivity.
  - apply pad_fill_names; assumption.
  - intros f Hf. apply (Permutation_in f Hperm) in Hf.
    subst padded. generalize first. clear - Hf.
    induction sorted as [|x r IH]; intros i; [contradiction|].
    cbn [pad_fill]. apply in_or_app. right.
    destruct Hf as [->|Hf]; [now left|right; now apply IH].
  - intros f Hf. destruct (pad_fill_entries env _ _ _ Hf) as [H|H].
    + left. apply (Permutation_in f (Permutation_sym Hperm) H).
    + now right.
Qed.

(** Files named [0] and [5], given as [5] and [0]: the entries written
    are those of 0 to 5. *)
Lemma X16_padding_fills_the_gaps_witness :
  map fe_name
      (pad_fill env0
         (name_value (hd entry0
            (sorted_entries env0 ex_fs_pad [bytes_of "5"; bytes_of "0"])))
         (sorted_entries env0 ex_fs_pad [bytes_of "5"; bytes_of "0"])) =
  map to_string
      (zseq (name_value (hd entry0
               (sorted_entries env0 ex_fs_pad [bytes_of "5"; bytes_of "0"])))
            (Z.to_nat
               (name_value (last
                  (sorted_entries env0 ex_fs_pad [bytes_of "5"; bytes_of "0"])
                  entry0)
                - name_value (hd entry0
                    (sorted_entries env0 ex_fs_pad [bytes_of "5"; bytes_of "0"]))
                + 1))).
Proof.
  refine (proj1 (proj2 (X16_padding_fills_the_gaps env0 ex_fs_pad
            (bytes_of "out.lbr") [bytes_of "5"; bytes_of "0"] false _ _ _ _))).
  - reflexivity.
  - cbn. lia.
  - vm_compute. reflexivity.
  - vm_compute. repeat constructor; cbn; intuition discriminate.
Defined.



(** X18: deleting the same name again changes nothing more.  Without
    skip-deleted the second delete finds the entry it left, returns 0
    and writes the same archive; with skip-deleted, and no later entry
    of that name, it returns -1 and leaves the archive as it is. *)
Theorem X18_delete_twice
    (env : Env) (ms1 : list Member) (m : Member) (ms2 : list Member)
    (target : list Z) (skip_deleted : bool) :
  wf_members (ms1 ++ m :: ms2) = true ->
  first_match env target skip_deleted (map dirent_of (ms1 ++ m :: ms2))
    = Some (length ms1) ->
  (skip_deleted = true ->
   first_match env target true (map dirent_of ms2) = None) ->
  let once :=
    delete_lbr env (lbr_bytes (ms1 ++ m :: ms2)) target skip_deleted false in
  fst once = 0 /\
  delete_lbr env (snd once) target skip_deleted false =
  ((if skip_deleted then -1 else 0), snd once).
Proof.
  intros Hwf Hfm Hn once. subst once.
  rewrite (delete_keep env target skip_deleted ms1 m ms2 Hwf Hfm).
  cbn [fst snd]. split; [reflexivity|].
  pose proof (wf_tombstone ms1 m ms2 Hwf) as Hwf'.
  destruct skip_deleted.
  - apply (delete_lbr_failed env _ target true false); [|reflexivity].
    unfold lbr_bytes. rewrite find_in_lbr_wf by exact Hwf'.
    now rewrite (first_match_tombstone_skipped env target ms1 m ms2 Hfm (Hn eq_refl)).
  - pose proof (first_match_tombstone_kept env target ms1 m ms2 Hfm) as Hfm'.
    rewrite (delete_keep env target false ms1 (tombstone m) ms2 Hwf' Hfm').
    reflexivity.
Qed.

Lemma X18_delete_twice_witness :
  fst (delete_lbr env0 (lbr_bytes [ex_A; ex_BB; ex_C]) (bytes_of "BB")
                  true false) = 0 /\
  delete_lbr env0
    (snd (delete_lbr env0 (lbr_bytes [ex_A; ex_BB; ex_C]) (bytes_of "BB")
                     true false))
    (bytes_of "BB") true false =
  (-1, snd (delete_lbr env0 (lbr_bytes [ex_A; ex_BB; ex_C]) (bytes_of "BB")
                       true false)).
Proof.
  apply (X18_delete_twice env0 [ex_A] ex_BB [ex_C] (bytes_of "BB") true).
  - reflexivity.
  - reflexivity.
  - reflexivity.
Defined.

(** X19: the argument of [--type] is cut at its last colon: it is
    rejected exactly when it has no colon, and otherwise the target and
    the new type are the parts before and after a colon with no colon
    in the new type, so a target may contain colons and a type may
    not. *)
Theorem X19_type_argument_split (str : list Z) :
  (type_argument str = None <-> no_byte 0x3A str = true) /\
  (forall target new_type,
     type_argument str = Some (target, new_type) <->
     str = target ++ 0x3A :: new_type /\ no_byte 0x3A new_type = true).
Proof.
  unfold type_argument. split.
  - rewrite <- find_last_of_none.
    destruct (find_last_of 0x3A str); split; congruence.
  - intros target new_type. split.
    + destruct (find_last_of 0x3A str) as [k|] eqn:E; [|discriminate].
      intros H. inversion H; subst. now apply find_last_of_some.
    + intros [-> Hn]. rewrite (find_last_of_app _ _ _ Hn).
      rewrite firstn_app, Nat.sub_diag, firstn_all. cbn [firstn].
      rewrite app_nil_r. do 2 f_equal.
      replace (length target + 1)%nat with (length target + 1 + 0)%nat by lia.
      rewrite <- Nat.add_assoc, skipn_app.
      rewrite skipn_all2 by lia.
      replace (length target + (1 + 0) - length target)%nat with 1%nat by lia.
      reflexivity.
Qed.

Lemma X19_type_argument_split_witness :
  type_argument (bytes_of "A:B:PRG") = Some (bytes_of "A:B", bytes_of "PRG").
Proof.
  apply (proj2 (proj2 (X19_type_argument_split (bytes_of "A:B:PRG"))
                  (bytes_of "A:B") (bytes_of "PRG"))).
  split; reflexivity.
Defined.

(** X20: with strip, the name written for an entry is cut before the
    last period of the file name, and a name without a period is
    written whole; the type byte is still taken from the extension of
    the whole name, so the directory record is the one written without
    strip, but for the name field. *)
Theorem X20_strip_cuts_at_last_period
    (env : Env) (a : FileEntry) (stem ext : list Z) :
  no_byte DOT ext = true ->
  (fe_name a = stem ++ DOT :: ext ->
   write_entry env true a =
   ascii2petscii env stem ++ [CR]
   ++ [type_of (fe_name a) (fe_length a)] ++ [CR]
   ++ [SP] ++ to_string (fe_length a) ++ [SP] ++ [CR]) /\
  (fe_name a = ext -> write_entry env true a = write_entry env false a).
Proof.
  intros Hn. unfold write_entry, written_name. split; intros E; rewrite E.
  - rewrite (find_last_of_app _ _ _ Hn).
    now rewrite firstn_app, Nat.sub_diag, firstn_all, app_nil_r.
  - apply find_last_of_none in Hn. now rewrite Hn.
Qed.

Lemma X20_strip_cuts_at_last_period_witness :
  write_entry env0 true (mkFileEntry (bytes_of "a.b.prg") [] 3 [] false) =
  ascii2petscii env0 (bytes_of "a.b") ++ [CR]
  ++ [type_of (bytes_of "a.b.prg") 3] ++ [CR]
  ++ [SP] ++ to_string 3 ++ [SP] ++ [CR].
Proof.
  apply (proj1 (X20_strip_cuts_at_last_period env0
                  (mkFileEntry (bytes_of "a.b.prg") [] 3 [] false)
                  (bytes_of "a.b") (bytes_of "prg") eq_refl)).
  reflexivity.
Defined.

(** X21: for every archive, sorting a listing only reorders its lines:
    the status is the same with and without sort, the line printed
    first when verbose stays in its place, and the lines of the entries
    with sort are a permutation of those without. *)
Theorem X21_sorted_listing_permutes
    (env : Env) (file data : list Z) (skip_deleted : bool) :
  fst (list_lbr env file data skip_deleted true) =
  fst (list_lbr env file data skip_deleted false) /\
  Permutation (snd (list_lbr env file data skip_deleted false))
              (snd (list_lbr env file data skip_deleted true)) /\
  (valid_signature env data = true ->
   firstn (length (listing_head env file data))
          (snd (list_lbr env file data skip_deleted true)) =
   listing_head env file data).
Proof.
  destruct (valid_signature env data) eqn:Hv.
  - rewrite !list_lbr_spec by exact Hv. cbn [fst snd].
    split; [reflexivity|]. split.
    + apply Permutation_app_head. unfold render_listing, listed_entries.
      destruct (read_signature env (open data)) as [sg s].
      destruct (read_count s) as [count s1].
      apply Permutation_flat_map. apply std_sort_perm.
    + intros _. rewrite firstn_app, Nat.sub_diag, firstn_all. cbn [firstn].
      apply app_nil_r.
  - assert (E : forall b, list_lbr env file data skip_deleted b
                          = (-1, [str_invalid])).
    { intros b. unfold valid_signature in Hv. unfold list_lbr.
      destruct (read_signature env (open data)) as [sg s]. cbn [fst] in Hv.
      now rewrite Hv. }
    rewrite !E. cbn [fst snd]. split; [reflexivity|].
    split; [apply Permutation_refl|discriminate].
Qed.

Lemma X21_sorted_listing_permutes_witness :
  firstn (length (listing_head (mkEnv true true true (fun _ => false) 0)
                    (bytes_of "t.lbr") (lbr_bytes [ex_BB; ex_A])))
         (snd (list_lbr (mkEnv true true true (fun _ => false) 0)
                 (bytes_of "t.lbr") (lbr_bytes [ex_BB; ex_A]) false true)) =
  listing_head (mkEnv true true true (fun _ => false) 0)
    (bytes_of "t.lbr") (lbr_bytes [ex_BB; ex_A]).
Proof.
  refine (proj2 (proj2 (X21_sorted_listing_permutes
            (mkEnv true true true (fun _ => false) 0)
            (bytes_of "t.lbr") (lbr_bytes [ex_BB; ex_A]) false)) _).
  vm_compute. reflexivity.
Defined.
